(** * AIClips: clip-extraction backend

    A shallow embedding of the TypeScript sources

      - [src/utils/time.ts]      (time parser and clock formatter),
      - [src/services/ytdlp.ts]  (argument vector, process supervision,
                                  discovery of the produced file),
      - [src/server.ts]          (request handlers and temporary-file cleanup),

    followed by the properties the specification states about them.

    Conventions of the embedding.
      - A JavaScript string is a list of code units; only code units below
        256 are represented ([ascii]).
      - A JavaScript number is [NaN], a signed [Infinity], or a finite
        binary64 value; arithmetic rounds to the nearest such value.
      - A thrown [Error] is the [Throw] case of [outcome], carrying the
        message. *)

From Stdlib Require Import List Ascii String ZArith QArith Qpower Qround Lia Lqa Bool.
Import ListNotations.

(* ================================================================== *)
(** * JavaScript values used by the sources *)
(* ================================================================== *)

Module Js.

Definition jsstring := list ascii.

(** A string literal of the source. *)
Definition str (s : string) : jsstring := list_ascii_of_string s.
Arguments str s%_string.

Definition code (c : ascii) : nat := nat_of_ascii c.

Fixpoint streq (a b : jsstring) : bool :=
  match a, b with
  | [], [] => true
  | x :: a', y :: b' => Ascii.eqb x y && streq a' b'
  | _, _ => false
  end.

(** Truthiness of a string: only the empty string is falsy. *)
Definition truthy (s : jsstring) : bool :=
  match s with [] => false | _ => true end.

(** [a || b] on possibly-undefined strings: the first truthy operand. *)
Definition or_else (a b : option jsstring) : option jsstring :=
  match a with
  | Some s => if truthy s then Some s else b
  | None => b
  end.

(** White space as [String.prototype.trim] and [parseFloat] see it
    (TAB, LF, VT, FF, CR, SP, NBSP). *)
Definition is_space (c : ascii) : bool :=
  let n := code c in
  ((9 <=? n) && (n <=? 13)) || (n =? 32) || (n =? 160).

(** [\d]. *)
Definition is_digit (c : ascii) : bool :=
  let n := code c in (48 <=? n) && (n <=? 57).

Definition digit_val (c : ascii) : Z := (Z.of_nat (code c) - 48)%Z.

Fixpoint drop_while (p : ascii -> bool) (s : jsstring) : jsstring :=
  match s with
  | [] => []
  | c :: r => if p c then drop_while p r else s
  end.

(** The longest prefix satisfying [p], and the rest. *)
Fixpoint span (p : ascii -> bool) (s : jsstring) : jsstring * jsstring :=
  match s with
  | [] => ([], [])
  | c :: r => if p c then let (a, b) := span p r in (c :: a, b) else ([], s)
  end.

Definition trimStart (s : jsstring) : jsstring := drop_while is_space s.
Definition trimEnd (s : jsstring) : jsstring := rev (drop_while is_space (rev s)).
Definition trim (s : jsstring) : jsstring := trimEnd (trimStart s).

(** [s.includes(c)] for a one-character needle. *)
Definition includes (c : ascii) (s : jsstring) : bool := existsb (Ascii.eqb c) s.

(** [s.split(sep)] for a one-character separator. *)
Fixpoint split (sep : ascii) (s : jsstring) : list jsstring :=
  match s with
  | [] => [[]]
  | c :: r =>
      if Ascii.eqb c sep then [] :: split sep r
      else match split sep r with
           | f :: fs => (c :: f) :: fs
           | [] => [[c]]
           end
  end.

(** Consume the character [c] at the head of [s], if it is there. *)
Definition strip (c : ascii) (s : jsstring) : option jsstring :=
  match s with
  | x :: r => if Ascii.eqb x c then Some r else None
  | [] => None
  end.

(** [s.startsWith(p)]. *)
Fixpoint startsWith (p s : jsstring) : bool :=
  match p, s with
  | [], _ => true
  | x :: p', y :: s' => Ascii.eqb x y && startsWith p' s'
  | _ :: _, [] => false
  end.

(** [s.endsWith(p)]. *)
Definition endsWith (p s : jsstring) : bool := startsWith (rev p) (rev s).

(** [s.padStart(n, "0")]. *)
Definition padStart0 (n : nat) (s : jsstring) : jsstring :=
  repeat "0"%char (n - List.length s) ++ s.

(** ** Numbers

    A number is [NaN], a signed [Infinity], or a finite binary64 value,
    held as the rational it denotes.  The two zeros are not told apart.
    Every arithmetic operation returns the binary64 value nearest to the
    exact result, the even one of two that are equally near. *)

Inductive number : Type :=
| NaN
| Infinity (negative : bool)
| Fin (q : Q).

Definition pow2 (e : Z) : Q := Qpower 2 e.
Definition pow10 (e : Z) : Q := Qpower 10 e.

(** [floor (log2 q)] for [q > 0]. *)
Definition ilog2 (q : Q) : Z :=
  let e0 := (Z.log2 (Qnum q) - Z.log2 (Zpos (Qden q)))%Z in
  if Qle_bool (pow2 e0) q then e0 else (e0 - 1)%Z.

(** The integer nearest to [x], the even one of two that are equally near. *)
Definition rne (x : Q) : Z :=
  let f := Qfloor x in
  match Qcompare (x - inject_Z f) (1 # 2) with
  | Lt => f
  | Gt => (f + 1)%Z
  | Eq => if Z.even f then f else (f + 1)%Z
  end.

(** The binary64 value nearest to [q > 0]: 53 significant bits, exponents
    down to -1074, [Infinity] from 2^1024 on. *)
Definition round_pos (q : Q) : number :=
  let e := Z.max (ilog2 q - 52) (-1074) in
  let v := inject_Z (rne (q / pow2 e)) * pow2 e in
  if Qle_bool (pow2 1024) v then Infinity false else Fin (Qred v).

Definition negate (a : number) : number :=
  match a with
  | NaN => NaN
  | Infinity s => Infinity (negb s)
  | Fin q => Fin (Qred (- q))
  end.

(** The binary64 value nearest to [q]. *)
Definition round64 (q : Q) : number :=
  let q := Qred q in
  match Qcompare q 0 with
  | Eq => Fin 0
  | Gt => round_pos q
  | Lt => negate (round_pos (- q))
  end.

Definition is_zero (q : Q) : bool := (Qnum q =? 0)%Z.
Definition is_neg (q : Q) : bool := (Qnum q <? 0)%Z.

(** [a * b]. *)
Definition nmul (a b : number) : number :=
  match a, b with
  | NaN, _ | _, NaN => NaN
  | Fin x, Fin y => round64 (x * y)
  | Infinity s, Infinity t => Infinity (xorb s t)
  | Infinity s, Fin y | Fin y, Infinity s =>
      if is_zero y then NaN else Infinity (xorb s (is_neg y))
  end.

(** [a + b]. *)
Definition nadd (a b : number) : number :=
  match a, b with
  | NaN, _ | _, NaN => NaN
  | Fin x, Fin y => round64 (x + y)
  | Infinity s, Infinity t => if Bool.eqb s t then Infinity s else NaN
  | Infinity s, Fin _ | Fin _, Infinity s => Infinity s
  end.

(** [a / b]. *)
Definition ndiv (a b : number) : number :=
  match a, b with
  | NaN, _ | _, NaN => NaN
  | Infinity _, Infinity _ => NaN
  | Infinity s, Fin y => Infinity (xorb s (is_neg y))
  | Fin _, Infinity _ => Fin 0
  | Fin x, Fin y =>
      if is_zero y then (if is_zero x then NaN else Infinity (is_neg x))
      else round64 (x / y)
  end.

(** [a % b]: the remainder has the sign of [a] and is exact. *)
Definition nmod (a b : number) : number :=
  match a, b with
  | NaN, _ | _, NaN => NaN
  | Infinity _, _ => NaN
  | Fin x, Infinity _ => Fin x
  | Fin x, Fin y =>
      if is_zero y then NaN
      else let t := x / y in
           let n := if is_neg t then Qceiling t else Qfloor t in
           Fin (Qred (x - inject_Z n * y))
  end.

(** [a > b]. *)
Definition ngt (a b : number) : bool :=
  match a, b with
  | NaN, _ | _, NaN => false
  | Fin x, Fin y => negb (Qle_bool x y)
  | Infinity s, Infinity t => negb s && t
  | Infinity s, Fin _ => negb s
  | Fin _, Infinity t => t
  end.

(** [a <= b]. *)
Definition nle (a b : number) : bool :=
  match a, b with
  | NaN, _ | _, NaN => false
  | Fin x, Fin y => Qle_bool x y
  | Infinity s, Infinity t => s || negb t
  | Infinity s, Fin _ => s
  | Fin _, Infinity t => negb t
  end.

(** [Math.max(a, b)]. *)
Definition nmax (a b : number) : number :=
  match a, b with
  | NaN, _ | _, NaN => NaN
  | _, _ => if ngt a b then a else b
  end.

(** [Math.floor]. *)
Definition nfloor (a : number) : number :=
  match a with
  | Fin q => Fin (inject_Z (Qfloor q))
  | _ => a
  end.

(** [Number.isFinite]. *)
Definition isFinite (a : number) : bool :=
  match a with Fin _ => true | _ => false end.

(** The integer denoted by a run of decimal digits. *)
Definition digits_value (ds : jsstring) : Z :=
  fold_left (fun acc c => (10 * acc + digit_val c)%Z) ds 0%Z.

(** An optional sign: whether it is [-], and the rest. *)
Definition sign (s : jsstring) : bool * jsstring :=
  match strip "-" s with
  | Some r => (true, r)
  | None => match strip "+" s with
            | Some r => (false, r)
            | None => (false, s)
            end
  end.

(** The optional [ExponentPart] of a decimal literal: the exponent and the
    rest, or exponent 0 and the input when there is no complete one. *)
Definition exponent_part (s : jsstring) : Z * jsstring :=
  match s with
  | c :: r =>
      if Ascii.eqb c "e" || Ascii.eqb c "E" then
        let '(neg, r1) := sign r in
        let (ds, rest) := span is_digit r1 in
        match ds with
        | [] => (0%Z, s)
        | _ => ((if neg then (- digits_value ds)%Z else digits_value ds), rest)
        end
      else (0%Z, s)
  | [] => (0%Z, s)
  end.

(** The mathematical value of a decimal literal. *)
Definition scale (ip fp : jsstring) (e : Z) : Q :=
  (inject_Z (digits_value ip)
   + inject_Z (digits_value fp) / inject_Z (10 ^ Z.of_nat (List.length fp))%Z)
  * Qpower 10 e.

(** The unsigned part of [parseFloat]: the value of the longest prefix
    that is a [StrUnsignedDecimalLiteral]. *)
Definition parse_unsigned (s : jsstring) : option Q :=
  let (ip, r1) := span is_digit s in
  let (fp, r2) :=
    match strip "." r1 with
    | Some r' => span is_digit r'
    | None => ([], r1)
    end in
  match ip, fp with
  | [], [] => None
  | _, _ => let (e, _) := exponent_part r2 in Some (scale ip fp e)
  end.

(** [parseFloat]: the number nearest to the literal's value. *)
Definition parseFloat (s : jsstring) : number :=
  let '(neg, u) := sign (trimStart s) in
  if startsWith (str "Infinity") u then Infinity neg
  else match parse_unsigned u with
       | Some q => round64 (if neg then - q else q)
       | None => NaN
       end.

(** ** Numbers to strings *)

Definition digit_char (d : Z) : ascii := ascii_of_nat (48 + Z.to_nat d)%nat.

Fixpoint digits_fuel (fuel : nat) (n : Z) (acc : jsstring) : jsstring :=
  match fuel with
  | O => acc
  | S f =>
      let acc' := digit_char (n mod 10)%Z :: acc in
      if (n <? 10)%Z then acc' else digits_fuel f (n / 10)%Z acc'
  end.

(** The decimal digits of an integer [n >= 0]. *)
Definition String_of_int (n : Z) : jsstring :=
  digits_fuel (S (Z.to_nat (Z.log2 n))) n [].

Fixpoint count_up (fuel : nat) (v : Q) (n : Z) : Z :=
  match fuel with
  | O => n
  | S f => if Qle_bool (pow10 n) v then count_up f v (n + 1) else n
  end.

Fixpoint count_down (fuel : nat) (v : Q) (n : Z) : Z :=
  match fuel with
  | O => n
  | S f => if Qle_bool (pow10 (n - 1)) v then n else count_down f v (n - 1)
  end.

(** The [n] with [10^(n-1) <= v < 10^n], for [v > 0]. *)
Definition decimal_exponent (v : Q) : Z :=
  count_down 4 v (count_up 4 v (ilog2 v * 30103 / 100000 + 1)%Z).

(** Reading [c] back gives the number [v]. *)
Definition reads_back (v c : Q) : bool :=
  match round64 c with
  | Fin r => Qeq_bool r v
  | _ => false
  end.

(** The [k]-digit integers [s] for which [s * 10^(n-k)] reads back as
    [v]: the nearer one to [v], with its [n]. *)
Definition digits_at (v : Q) (n k : Z) : option (Z * Z) :=
  let unit := pow10 (n - k) in
  let lo := Qfloor (v / unit) in
  let hi := (lo + 1)%Z in
  let up := if (hi =? 10 ^ k)%Z then ((10 ^ (k - 1))%Z, (n + 1)%Z) else (hi, n) in
  match reads_back v (inject_Z lo * unit), reads_back v (inject_Z hi * unit) with
  | false, false => None
  | true, false => Some (lo, n)
  | false, true => Some up
  | true, true =>
      match Qcompare (v - inject_Z lo * unit) (inject_Z hi * unit - v) with
      | Lt => Some (lo, n)
      | Gt => Some up
      | Eq => if Z.even lo then Some (lo, n) else Some up
      end
  end.

(** The fewest digits that read back as [v]: [(s, k, n)]. *)
Fixpoint shortest (fuel : nat) (v : Q) (n k : Z) : Z * Z * Z :=
  match fuel with
  | O => (Qfloor (v / pow10 (n - k)), k, n)
  | S f =>
      match digits_at v n k with
      | Some (s, n') => (s, k, n')
      | None => shortest f v n (k + 1)
      end
  end.

Definition zeros (n : Z) : jsstring := repeat "0"%char (Z.to_nat n).

(** [Number::toString] for a finite [v > 0]. *)
Definition String_of_positive (v : Q) : jsstring :=
  if (Zpos (Qden v) =? 1)%Z && (Qnum v <? 2 ^ 53)%Z
  then String_of_int (Qnum v)
  else
    let '(s, k, n) := shortest 17 v (decimal_exponent v) 1 in
    let ds := String_of_int s in
    if (k <=? n)%Z && (n <=? 21)%Z then ds ++ zeros (n - k)
    else if (0 <? n)%Z && (n <=? 21)%Z
    then firstn (Z.to_nat n) ds ++ "."%char :: skipn (Z.to_nat n) ds
    else if (-6 <? n)%Z && (n <=? 0)%Z
    then "0"%char :: "."%char :: zeros (- n) ++ ds
    else
      let e := (n - 1)%Z in
      let mantissa :=
        match ds with
        | d :: (_ :: _) as rest => d :: "."%char :: rest
        | _ => ds
        end in
      mantissa ++ "e"%char :: (if (e <? 0)%Z then "-"%char else "+"%char)
               :: String_of_int (Z.abs e).

(** [String(a)].  An integer below 2^53 is printed by its own digits,
    which are the fewest that read back as it. *)
Definition String_of_number (a : number) : jsstring :=
  match a with
  | NaN => str "NaN"
  | Infinity false => str "Infinity"
  | Infinity true => str "-Infinity"
  | Fin q =>
      let q := Qred q in
      match Qcompare q 0 with
      | Eq => str "0"
      | Gt => String_of_positive q
      | Lt => "-"%char :: String_of_positive (Qred (- q))
      end
  end.

(** What a call does: return a value or throw an [Error]. *)
Inductive outcome (A : Type) : Type :=
| Return (a : A)
| Throw (msg : jsstring).
Arguments Return {A} a.
Arguments Throw {A} msg.

Definition bind {A B} (m : outcome A) (k : A -> outcome B) : outcome B :=
  match m with
  | Return a => k a
  | Throw e => Throw e
  end.

End Js.
Import Js.

Notation "x <- m ;; k" := (bind m (fun x => k))
  (at level 61, m at next level, right associativity).

(* ================================================================== *)
(** * src/utils/time.ts *)
(* ================================================================== *)

Module Time.

(** [\d+(?:\.\d+)?] at the head of [s]: the matched text and the rest. *)
Definition match_decimal (s : jsstring) : option (jsstring * jsstring) :=
  let (ip, r1) := span is_digit s in
  match ip with
  | [] => None
  | _ :: _ =>
      match strip "." r1 with
      | Some r2 =>
          let (fp, r3) := span is_digit r2 in
          match fp with
          | [] => Some (ip, r1)
          | _ :: _ => Some (ip ++ "."%char :: fp, r3)
          end
      | None => Some (ip, r1)
      end
  end.

(** [/^\d+(?:\.\d+)?$/.test(s)]. *)
Definition is_decimal (s : jsstring) : bool :=
  match match_decimal s with
  | Some (_, []) => true
  | _ => false
  end.

(** Equality of letters under the [i] flag, [u] being a lower-case letter. *)
Definition eqb_ci (c u : ascii) : bool :=
  Ascii.eqb c u || Ascii.eqb c (ascii_of_nat (code u - 32)).

(** One optional group [(?:(\d+(?:\.\d+)?)u)?]: its capture and the rest. *)
Definition unit_group (u : ascii) (s : jsstring) : option jsstring * jsstring :=
  match match_decimal s with
  | Some (d, c :: rest) => if eqb_ci c u then (Some d, rest) else (None, s)
  | _ => (None, s)
  end.

(** [s.match(/^(?:(D)h)?(?:(D)m)?(?:(D)s)?$/i)] with [D = \d+(?:\.\d+)?]:
    the three captures. *)
Definition unitMatch (s : jsstring)
  : option (option jsstring * option jsstring * option jsstring) :=
  let (h, s1) := unit_group "h" s in
  let (m, s2) := unit_group "m" s1 in
  let (sec, s3) := unit_group "s" s2 in
  match s3 with
  | [] => Some (h, m, sec)
  | _ :: _ => None
  end.

(** [x ?? "0"]. *)
Definition or_zero (x : option jsstring) : jsstring :=
  match x with Some d => d | None => str "0" end.

Definition unit_total (caps : option jsstring * option jsstring * option jsstring)
  : number :=
  let '(h, m, s) := caps in
  let hours := parseFloat (or_zero h) in
  let minutes := parseFloat (or_zero m) in
  let seconds := parseFloat (or_zero s) in
  nadd (nadd (nmul hours (Fin 3600)) (nmul minutes (Fin 60))) seconds.

(** The [hh:mm:ss or mm:ss] block; [None] when it falls through to the
    final [throw]. *)
Definition clock (trimmed : jsstring) : option (outcome number) :=
  if includes ":" trimmed then
    let parts := map trim (split ":" trimmed) in
    if existsb (fun p => negb (truthy p)) parts
    then Some (Throw (str "Invalid time format"))
    else
      match map parseFloat parts with
      | [mm; ss] =>
          if isFinite mm && isFinite ss
          then Some (Return (nadd (nmul mm (Fin 60)) ss))
          else None
      | [hh; mm; ss] =>
          if isFinite hh && isFinite mm && isFinite ss
          then Some (Return (nadd (nadd (nmul hh (Fin 3600)) (nmul mm (Fin 60))) ss))
          else None
      | _ => None
      end
  else None.

Definition unit_branch (trimmed : jsstring) : option number :=
  match unitMatch trimmed with
  | Some caps =>
      let total := unit_total caps in
      if ngt total (Fin 0) then Some total else None
  | None => None
  end.

Definition parseTimeToSeconds (input : jsstring) : outcome number :=
  let trimmed := trim input in
  if negb (truthy trimmed) then Throw (str "Time is empty")
  else if is_decimal trimmed then Return (parseFloat trimmed)
  else
    match unit_branch trimmed with
    | Some total => Return total
    | None =>
        match clock trimmed with
        | Some r => r
        | None => Throw (str "Unsupported time format: " ++ input)
        end
    end.

Definition secondsToHms (secondsInput : number) : jsstring :=
  let seconds := nmax (Fin 0) (nfloor secondsInput) in
  let h := nfloor (ndiv seconds (Fin 3600)) in
  let m := nfloor (ndiv (nmod seconds (Fin 3600)) (Fin 60)) in
  let s := nmod seconds (Fin 60) in
  let hh := padStart0 2 (String_of_number h) in
  let mm := padStart0 2 (String_of_number m) in
  let ss := padStart0 2 (String_of_number s) in
  hh ++ ":"%char :: mm ++ ":"%char :: ss.

End Time.
Import Time.

(** The call returns a finite number equal to [q]. *)
Definition yields (r : outcome number) (q : Q) : Prop :=
  match r with
  | Return (Fin v) => v == q
  | _ => False
  end.

Definition throws {A} (r : outcome A) : Prop :=
  match r with
  | Throw _ => True
  | Return _ => False
  end.

(** ** The grammars of the specification

    The vocabulary in which the properties of the time parser are stated,
    written after the specification and independent of the parser. *)

(** A non-negative decimal: digits, optionally a point and more digits. *)
Record decimal : Type := { int_part : jsstring; frac_part : option jsstring }.

Definition all_digits (s : jsstring) : bool := truthy s && forallb is_digit s.

Definition decimal_ok (d : decimal) : bool :=
  all_digits (int_part d)
  && match frac_part d with Some f => all_digits f | None => true end.

Definition decimal_text (d : decimal) : jsstring :=
  int_part d ++ match frac_part d with Some f => "."%char :: f | None => [] end.

Definition decimal_value (d : decimal) : Q :=
  inject_Z (digits_value (int_part d))
  + match frac_part d with
    | Some f => inject_Z (digits_value f) / inject_Z (10 ^ Z.of_nat (List.length f))%Z
    | None => 0
    end.

(** One part of a compound unit expression: a decimal and its unit letter,
    or nothing. *)
Definition unit_part (d : option decimal) (u : ascii) : jsstring :=
  match d with Some x => decimal_text x ++ [u] | None => [] end.

Definition part_ok (d : option decimal) : bool :=
  match d with Some x => decimal_ok x | None => true end.

Definition part_value (d : option decimal) : Q :=
  match d with Some x => decimal_value x | None => 0 end.

(** Hour, minute and second parts in that order, each optional. *)
Definition unit_text (h m s : option decimal) (uh um us : ascii) : jsstring :=
  unit_part h uh ++ unit_part m um ++ unit_part s us.

(** A field of a clock expression holds no colon. *)
Definition no_colon (f : jsstring) : bool := negb (includes ":" f).

(* ================================================================== *)
(** * The platform: paths, files, the child process *)
(* ================================================================== *)

Module Node.

(** [String(n)] for a number given as an integer, such as the value of
    [Date.now()] or an exit code. *)
Definition String_of_Z (n : Z) : jsstring :=
  String_of_number (round64 (inject_Z n)).

(** The value of a possibly-undefined string when it is truthy. *)
Definition truthy_value (a : option jsstring) : option jsstring :=
  match a with
  | Some s => if truthy s then Some s else None
  | None => None
  end.

(** [a || d] where [d] is a string that is always there. *)
Definition or_default (a : option jsstring) (d : jsstring) : jsstring :=
  match truthy_value a with Some s => s | None => d end.

(** [node:path] and [os.tmpdir()], as far as the sources use them. *)
Record Platform : Type := {
  path_join : jsstring -> jsstring -> jsstring;
  path_dirname : jsstring -> jsstring;
  path_basename : jsstring -> jsstring;
  tmpdir : jsstring
}.

(** The variables of [process.env] that the sources read. *)
Record ProcessEnv : Type := {
  YOUTUBE_USER_AGENT : option jsstring;
  YOUTUBE_COOKIE_HEADER : option jsstring;
  YT_COOKIES_FILE : option jsstring
}.

(** ** Files

    The disk is the list of its entries, in the order [readdir] reports
    them.  Contents and permission bits are not represented. *)

Inductive Kind : Type := File | Dir.

Definition Disk := list (jsstring * Kind).

Definition is_dir (k : Kind) : bool := match k with Dir => true | File => false end.
Definition is_file (k : Kind) : bool := negb (is_dir k).

Definition lookup (d : Disk) (p : jsstring) : option Kind :=
  option_map snd (find (fun e => streq (fst e) p) d).

(** The message of a failed system call: the error, the call, the quoted
    path. *)
Definition sys_error (what p : jsstring) : jsstring :=
  what ++ str " '" ++ p ++ str "'".

(** [fs.access(p)] resolves exactly when [p] names an entry. *)
Definition fs_access (d : Disk) (p : jsstring) : bool :=
  match lookup d p with Some _ => true | None => false end.

(** [fs.mkdir(p, { recursive: true })]; parent directories are not tracked. *)
Definition fs_mkdir (d : Disk) (p : jsstring) : outcome Disk :=
  match lookup d p with
  | Some Dir => Return d
  | Some File => Throw (sys_error (str "EEXIST: file already exists, mkdir") p)
  | None => Return (d ++ [(p, Dir)])
  end.

(** [fs.writeFile(p, data)]. *)
Definition fs_writeFile (d : Disk) (p : jsstring) : outcome Disk :=
  match lookup d p with
  | Some File => Return d
  | Some Dir => Throw (sys_error (str "EISDIR: illegal operation on a directory, open") p)
  | None => Return (d ++ [(p, File)])
  end.

(** [fs.unlink(p)]. *)
Definition fs_unlink (d : Disk) (p : jsstring) : outcome Disk :=
  match lookup d p with
  | Some File => Return (filter (fun e => negb (streq (fst e) p)) d)
  | Some Dir => Throw (sys_error (str "EISDIR: illegal operation on a directory, unlink") p)
  | None => Throw (sys_error (str "ENOENT: no such file or directory, unlink") p)
  end.

(** [fs.open(p, "r")]. *)
Definition fs_open (d : Disk) (p : jsstring) : outcome unit :=
  match lookup d p with
  | Some _ => Return tt
  | None => Throw (sys_error (str "ENOENT: no such file or directory, open") p)
  end.

(** [fs.readdir(dir)]: the names of the entries directly under [dir]. *)
Definition fs_readdir (pf : Platform) (d : Disk) (dir : jsstring)
  : outcome (list jsstring) :=
  match lookup d dir with
  | Some Dir =>
      Return (map (fun e => path_basename pf (fst e))
                  (filter (fun e => streq (path_dirname pf (fst e)) dir) d))
  | Some File => Throw (sys_error (str "ENOTDIR: not a directory, scandir") dir)
  | None => Throw (sys_error (str "ENOENT: no such file or directory, scandir") dir)
  end.

(** ** The child process

    What the event loop delivers for one spawned tool: each event with the
    time, in milliseconds since the spawn, at which it is delivered.  A
    tool that is killed delivers nothing further of its own; output still
    in the pipes at that moment is not represented. *)

Inductive ProcEvent : Type :=
| StdoutData (chunk : jsstring)
| StderrData (chunk : jsstring)
| ErrorEvent (message : jsstring)
| CloseEvent (code : option Z).

Definition Trace := list (Z * ProcEvent).

Inductive Signal : Type := SIGTERM | SIGKILL.

(** One run of the external tool: what it emits and what it leaves on disk. *)
Record Tool : Type := {
  behaviour : Trace;
  leaves : Disk -> Disk
}.

End Node.
Import Node.

(* ================================================================== *)
(** * src/services/ytdlp.ts *)
(* ================================================================== *)

Module Ytdlp.

Inductive Format : Type := mp4 | webm.

Record ClipOptions : Type := {
  url : jsstring;
  startSeconds : number;
  endSeconds : number;
  outputDirectory : option jsstring;
  outputBaseName : option jsstring;
  cookieHeader : option jsstring;
  cookiesTxtPath : option jsstring;
  format : option Format;
  userAgent : option jsstring;
  timeoutMs : option number
}.

Record ClipResult : Type := {
  outputPath : jsstring;
  stdout : jsstring;
  stderr : jsstring
}.

Definition DEFAULT_UA : jsstring :=
  str "Mozilla/5.0 (Windows NT 10.0; Win64; x64) AppleWebKit/537.36 "
  ++ str "(KHTML, like Gecko) Chrome/122.0.0.0 Safari/537.36".

(** The argument of [buildYtDlpArgs]: the fields it picks from the options,
    the format being required. *)
Record ArgOptions : Type := {
  a_url : jsstring;
  a_startSeconds : number;
  a_endSeconds : number;
  a_format : Format;
  a_cookieHeader : option jsstring;
  a_cookiesTxtPath : option jsstring;
  a_userAgent : option jsstring
}.

Definition buildYtDlpArgs (env : ProcessEnv) (opts : ArgOptions)
    (outputPathWithoutExt : jsstring) : list jsstring :=
  let start := secondsToHms (a_startSeconds opts) in
  let end_ := secondsToHms (a_endSeconds opts) in
  let args :=
    [ a_url opts;
      str "-f";
      str "bv*+ba/b";
      str "--no-playlist";
      str "--no-progress";
      str "--newline";
      str "--force-keyframes-at-cuts";
      str "--download-sections";
      str "*" ++ start ++ str "-" ++ end_;
      str "-o";
      outputPathWithoutExt ++ str ".%(ext)s" ] in
  let args :=
    match a_format opts with
    | mp4 => args ++ [str "--remux-video"; str "mp4"]
    | webm => args ++ [str "--merge-output-format"; str "webm"]
    end in
  let ua := or_default (or_else (a_userAgent opts) (YOUTUBE_USER_AGENT env)) DEFAULT_UA in
  let args := args ++ [str "--add-header"; str "User-Agent: " ++ ua] in
  let args := args ++ [str "--add-header"; str "Accept-Language: en-US,en;q=0.9"] in
  let args := args ++ [str "--add-header"; str "DNT: 1"] in
  let envCookieHeader := YOUTUBE_COOKIE_HEADER env in
  let envCookiesFile := YT_COOKIES_FILE env in
  let cookieHeader := or_else (a_cookieHeader opts) envCookieHeader in
  let cookiesFile := or_else (a_cookiesTxtPath opts) envCookiesFile in
  let args :=
    match truthy_value cookieHeader with
    | Some c => args ++ [str "--add-header"; str "Cookie: " ++ c]
    | None => args
    end in
  let args :=
    match truthy_value cookiesFile with
    | Some f => args ++ [str "--cookies"; f]
    | None => args
    end in
  args.

Definition extensions : list jsstring :=
  [str ".mp4"; str ".mkv"; str ".webm"; str ".mov"; str ".m4a"; str ".mp3"].

Definition findProducedFile (pf : Platform) (disk : Disk)
    (outputDir baseName : jsstring) : outcome (option jsstring) :=
  let candidates := map (fun e => baseName ++ e) extensions in
  match find (fun file => fs_access disk (path_join pf outputDir file)) candidates with
  | Some file => Return (Some (path_join pf outputDir file))
  | None =>
      entries <- fs_readdir pf disk outputDir ;;
      match find (fun entry => startsWith (baseName ++ str ".") entry) entries with
      | Some entry => Return (Some (path_join pf outputDir entry))
      | None => Return None
      end
  end.

(** ** Supervision of the child process *)

Definition timeout_text : jsstring := str "Timed out while running yt-dlp".

(** ["\nTimed out while running yt-dlp"]. *)
Definition timeout_marker : jsstring := "010"%char :: timeout_text.

(** The variables the handlers of [downloadClip] close over, and the
    signals sent to the child. *)
Record Supervision : Type := {
  s_stdout : jsstring;
  s_stderr : jsstring;
  killedByTimeout : bool;
  timer_armed : bool;
  sent : list Signal
}.

Definition spawned : Supervision :=
  {| s_stdout := []; s_stderr := []; killedByTimeout := false;
     timer_armed := true; sent := [] |}.

(** The largest delay a timer takes, [2^31 - 1] milliseconds. *)
Definition TIMEOUT_MAX : Z := 2147483647.

(** The delay [setTimeout(callback, after)] arms the timer with, in whole
    milliseconds: [after] when it lies between 1 and [TIMEOUT_MAX], and 1
    for every other number. *)
Definition setTimeout_delay (after : number) : Z :=
  match after with
  | Fin q =>
      if Qle_bool 1 q && Qle_bool q (inject_Z TIMEOUT_MAX) then Qfloor q else 1%Z
  | _ => 1%Z
  end.

(** [timeoutMs ?? 15 * 60 * 1000], then the timer armed with
    [Math.max(10_000, timeoutMs)]. *)
Definition timer_delay (timeoutMs : option number) : Z :=
  let timeoutMs :=
    match timeoutMs with
    | Some t => t
    | None => nmul (nmul (Fin 15) (Fin 60)) (Fin 1000)
    end in
  setTimeout_delay (nmax (Fin 10000) timeoutMs).

Definition on_stdout (chunk : jsstring) (s : Supervision) : Supervision :=
  {| s_stdout := s_stdout s ++ chunk; s_stderr := s_stderr s;
     killedByTimeout := killedByTimeout s; timer_armed := timer_armed s;
     sent := sent s |}.

Definition on_stderr (chunk : jsstring) (s : Supervision) : Supervision :=
  {| s_stdout := s_stdout s; s_stderr := s_stderr s ++ chunk;
     killedByTimeout := killedByTimeout s; timer_armed := timer_armed s;
     sent := sent s |}.

(** The timer's callback. *)
Definition on_timer (s : Supervision) : Supervision :=
  {| s_stdout := s_stdout s; s_stderr := s_stderr s;
     killedByTimeout := true; timer_armed := false;
     sent := sent s ++ [SIGKILL] |}.

(** The [error] handler: [clearTimeout(timer); reject(err)]. *)
Definition on_error (err : jsstring) (s : Supervision) : outcome Z * Supervision :=
  (Throw err,
   {| s_stdout := s_stdout s; s_stderr := s_stderr s;
      killedByTimeout := killedByTimeout s; timer_armed := false;
      sent := sent s |}).

(** The [close] handler: [clearTimeout(timer)], the marker when the timer
    had fired, [resolve(code ?? -1)]. *)
Definition on_close (code : option Z) (s : Supervision) : outcome Z * Supervision :=
  (Return (match code with Some c => c | None => (-1)%Z end),
   {| s_stdout := s_stdout s;
      s_stderr := if killedByTimeout s then s_stderr s ++ timeout_marker else s_stderr s;
      killedByTimeout := killedByTimeout s; timer_armed := false;
      sent := sent s |}).

(** The timer expires: the callback runs, the kill takes effect, and the
    process is reported closed by a signal (exit code [null]). *)
Definition expire (s : Supervision) : outcome Z * Supervision :=
  on_close None (on_timer s).

(** The event loop until the promise settles.  An event due at or after
    the delay finds the timer expired first; a tool that has not closed
    when its events run out is still running when the timer expires. *)
Fixpoint supervise (delay : Z) (tr : Trace) (s : Supervision)
  : outcome Z * Supervision :=
  match tr with
  | [] => expire s
  | (t, ev) :: rest =>
      if (delay <=? t)%Z then expire s
      else match ev with
           | StdoutData c => supervise delay rest (on_stdout c s)
           | StderrData c => supervise delay rest (on_stderr c s)
           | ErrorEvent m => on_error m s
           | CloseEvent c => on_close c s
           end
  end.

(** What one request sees of the machine: the disk and the processes
    spawned so far (their argument vectors). *)
Record World : Type := {
  disk : Disk;
  spawns : list (list jsstring)
}.

Definition with_disk (d : Disk) (w : World) : World :=
  {| disk := d; spawns := spawns w |}.

Definition spawn (args : list jsstring) (w : World) : World :=
  {| disk := disk w; spawns := spawns w ++ [args] |}.

Definition newline : jsstring := ["010"%char].

(** The locals [tmpRoot], [baseName] and [outputPathWithoutExt] of
    [downloadClip]; [now] is the value of [Date.now()]. *)
Definition tmpRoot (pf : Platform) (opts : ClipOptions) : jsstring :=
  or_default (outputDirectory opts) (path_join pf (tmpdir pf) (str "aiclips")).

Definition baseName (now : Z) (opts : ClipOptions) : jsstring :=
  or_default (outputBaseName opts) (str "aiclips-" ++ String_of_Z now).

Definition outputPathWithoutExt (pf : Platform) (now : Z) (opts : ClipOptions) : jsstring :=
  path_join pf (tmpRoot pf opts) (baseName now opts).

Definition downloadClip (pf : Platform) (env : ProcessEnv) (now : Z) (tool : Tool)
    (opts : ClipOptions) (w : World) : outcome ClipResult * World :=
  if nle (endSeconds opts) (startSeconds opts)
  then (Throw (str "end must be greater than start"), w)
  else
    match fs_mkdir (disk w) (tmpRoot pf opts) with
    | Throw e => (Throw e, w)
    | Return d1 =>
        let outputPathWithoutExt := outputPathWithoutExt pf now opts in
        let args :=
          buildYtDlpArgs env
            {| a_url := url opts;
               a_startSeconds := startSeconds opts;
               a_endSeconds := endSeconds opts;
               a_format := match format opts with Some f => f | None => mp4 end;
               a_cookieHeader := cookieHeader opts;
               a_cookiesTxtPath := cookiesTxtPath opts;
               a_userAgent := userAgent opts |}
            outputPathWithoutExt in
        let (exit, run) := supervise (timer_delay (timeoutMs opts)) (behaviour tool) spawned in
        let w1 := spawn args (with_disk (leaves tool d1) w) in
        match exit with
        | Throw e => (Throw e, w1)
        | Return exitCode =>
            if negb (exitCode =? 0)%Z then
              let combined := trim (s_stdout run ++ newline ++ s_stderr run) in
              (Throw (if truthy combined then combined
                      else str "yt-dlp exited with code " ++ String_of_Z exitCode), w1)
            else
              match findProducedFile pf (disk w1)
                      (path_dirname pf outputPathWithoutExt)
                      (path_basename pf outputPathWithoutExt) with
              | Throw e => (Throw e, w1)
              | Return None => (Throw (str "Clip produced no output file"), w1)
              | Return (Some produced) =>
                  (Return {| outputPath := produced;
                             stdout := s_stdout run;
                             stderr := s_stderr run |}, w1)
              end
        end
    end.

End Ytdlp.
Import Ytdlp.

(* ================================================================== *)
(** * src/server.ts *)
(* ================================================================== *)

Module Server.

(** A JSON value as the request schema sees it: a string, or anything else
    ([null], a number, a boolean, an array, an object). *)
Inductive jsval : Type :=
| JString (s : jsstring)
| JOther.

(** The body of a request: the fields the schema reads, each possibly
    [undefined]. *)
Record Body : Type := {
  b_url : option jsval;
  b_start : option jsval;
  b_end : option jsval;
  b_cookieHeader : option jsval;
  b_cookiesTxtBase64 : option jsval;
  b_format : option jsval
}.

(** The libraries behind the request schema and [new URL]: the host name of
    a URL ([None] when the constructor throws), zod's [url()] check, and
    the message of the [ZodError] raised for a rejected body. *)
Record Web : Type := {
  url_hostname : jsstring -> option jsstring;
  zod_url : jsstring -> bool;
  zod_message : Body -> jsstring
}.

(** The output of [ClipRequestSchema.parse]. *)
Record ClipRequest : Type := {
  r_url : jsstring;
  r_start : jsstring;
  r_end : jsstring;
  r_cookieHeader : option jsstring;
  r_cookiesTxtBase64 : option jsstring;
  r_format : Format
}.

(** [z.string()]. *)
Definition z_string (v : option jsval) : option jsstring :=
  match v with Some (JString s) => Some s | _ => None end.

(** [z.string().min(1).optional()]: [None] when the value is rejected. *)
Definition z_optional_nonempty (v : option jsval) : option (option jsstring) :=
  match v with
  | None => Some None
  | Some (JString s) => if truthy s then Some (Some s) else None
  | Some JOther => None
  end.

(** [z.enum(["mp4", "webm"]).default("mp4")]. *)
Definition z_format (v : option jsval) : option Format :=
  match v with
  | None => Some mp4
  | Some (JString s) =>
      if streq s (str "mp4") then Some mp4
      else if streq s (str "webm") then Some webm
      else None
  | Some JOther => None
  end.

Definition ClipRequestSchema_parse (web : Web) (body : Body) : outcome ClipRequest :=
  match z_string (b_url body), z_string (b_start body), z_string (b_end body),
        z_optional_nonempty (b_cookieHeader body),
        z_optional_nonempty (b_cookiesTxtBase64 body),
        z_format (b_format body) with
  | Some u, Some s, Some e, Some c, Some f, Some fmt =>
      if zod_url web u
      then Return {| r_url := u; r_start := s; r_end := e; r_cookieHeader := c;
                     r_cookiesTxtBase64 := f; r_format := fmt |}
      else Throw (zod_message web body)
  | _, _, _, _, _, _ => Throw (zod_message web body)
  end.

(** [/(^|\.)domain$/.test(host)]. *)
Definition host_matches (domain host : jsstring) : bool :=
  streq host domain || endsWith ("."%char :: domain) host.

Definition isYouTubeUrl (web : Web) (u : jsstring) : bool :=
  match url_hostname web u with
  | Some hostname =>
      host_matches (str "youtube.com") hostname || host_matches (str "youtu.be") hostname
  | None => false
  end.

Definition writeTempCookies (pf : Platform) (now : Z) (id6 : jsstring) (w : World)
  : outcome jsstring * World :=
  let dir := path_join pf (tmpdir pf) (str "aiclips-cookies") in
  match fs_mkdir (disk w) dir with
  | Throw e => (Throw e, w)
  | Return d1 =>
      let file :=
        path_join pf dir
          (str "cookies-" ++ String_of_Z now ++ str "-" ++ id6 ++ str ".txt") in
      match fs_writeFile d1 file with
      | Throw e => (Throw e, with_disk d1 w)
      | Return d2 => (Return file, with_disk d2 w)
      end
  end.

(** ** Responses *)

Inductive Payload : Type :=
| ErrorJson (error : jsstring)
| AuthJson
| FileStream (contentType fileName path : jsstring).

Record Response : Type := {
  status : Z;
  payload : Payload
}.

Definition lower (c : ascii) : ascii :=
  let n := code c in
  if (65 <=? n) && (n <=? 90) then ascii_of_nat (n + 32) else c.

(** [s] holds [pat] somewhere. *)
Fixpoint contains (pat s : jsstring) : bool :=
  startsWith pat s
  || match s with
     | [] => false
     | _ :: r => contains pat r
     end.

Definition contains_ci (pat s : jsstring) : bool :=
  contains (map lower pat) (map lower s).

(** The test of the [catch] blocks on the message.  Its first alternative
    spells the apostrophe as U+2019, which no represented string holds. *)
Definition auth_signature (message : jsstring) : bool :=
  contains_ci (str "Use --cookies-from-browser") message
  || contains_ci (str "pass cookies to yt-dlp") message
  || contains_ci (str "Sign in to confirm you're not a bot") message
  || contains_ci (str "Sign in to confirm youre not a bot") message.

(** The [catch] block of both handlers; [err] is the message of the error,
    [String(err)] standing in for an empty one. *)
Definition failure (err : jsstring) : Response :=
  let message := if truthy err then err else str "Error" in
  if auth_signature message
  then {| status := 401; payload := AuthJson |}
  else {| status := 500; payload := ErrorJson message |}.

Definition not_youtube : Response :=
  {| status := 400; payload := ErrorJson (str "Only YouTube URLs are supported") |}.

(** ** The end of a streamed response *)

Inductive ResEvent : Type := ev_close | ev_error | ev_finish.

(** How a response that started streaming ends: written out in full, cut
    by the client, or failed; the connection closes in each case. *)
Inductive Ending : Type := Finished | Disconnected | Errored.

Definition events (e : Ending) : list ResEvent :=
  match e with
  | Finished => [ev_finish; ev_close]
  | Disconnected => [ev_close]
  | Errored => [ev_error; ev_close]
  end.

(** [try { await fs.unlink(p) } catch {}]. *)
Definition unlink_quietly (p : jsstring) (d : Disk) : Disk :=
  match fs_unlink d p with
  | Return d' => d'
  | Throw _ => d
  end.

(** The [cleanup] closure of the POST handler. *)
Definition cleanup (outputPath : jsstring) (cookiesTxtPath : option jsstring)
    (d : Disk) : Disk :=
  let d := unlink_quietly outputPath d in
  match truthy_value cookiesTxtPath with
  | Some p => unlink_quietly p d
  | None => d
  end.

(** [cleanup] is registered for [close], [error] and [finish] alike. *)
Definition on_response_events (c : Disk -> Disk) (evs : list ResEvent) (d : Disk) : Disk :=
  fold_left (fun d _ => c d) evs d.

(** What is not the request's own: the clock, the identifiers drawn, the
    run of the tool, and how the response ends once streaming. *)
Record RequestEnv : Type := {
  now : Z;
  nanoid6 : jsstring;
  nanoid8 : jsstring;
  tool : Tool;
  ending : Ending
}.

(** The query of a GET request, each parameter possibly absent. *)
Record Query : Type := {
  q_url : option jsstring;
  q_start : option jsstring;
  q_end : option jsstring;
  q_cookieHeader : option jsstring
}.

(** [app.get("/api/clip", ...)]. *)
Definition get_clip (pf : Platform) (web : Web) (env : ProcessEnv)
    (r : RequestEnv) (query : Query) (w : World) : Response * World :=
  let url := or_default (q_url query) [] in
  let start := or_default (q_start query) [] in
  let end_ := or_default (q_end query) [] in
  let cookieHeader := truthy_value (q_cookieHeader query) in
  let picked :=
    {| b_url := Some (JString url); b_start := Some (JString start);
       b_end := Some (JString end_); b_cookieHeader := None;
       b_cookiesTxtBase64 := None; b_format := None |} in
  match ClipRequestSchema_parse web picked with
  | Throw e => (failure e, w)
  | Return parsed =>
      if negb (isYouTubeUrl web (r_url parsed)) then (not_youtube, w)
      else
        match parseTimeToSeconds (r_start parsed) with
        | Throw e => (failure e, w)
        | Return startSeconds =>
        match parseTimeToSeconds (r_end parsed) with
        | Throw e => (failure e, w)
        | Return endSeconds =>
            let baseName := str "aiclips-" ++ nanoid8 r in
            let outputDirectory := path_join pf (tmpdir pf) (str "aiclips") in
            match downloadClip pf env (now r) (tool r)
                    {| url := r_url parsed;
                       startSeconds := startSeconds;
                       endSeconds := endSeconds;
                       outputDirectory := Some outputDirectory;
                       outputBaseName := Some baseName;
                       cookieHeader := cookieHeader;
                       cookiesTxtPath := None;
                       format := Some mp4;
                       userAgent := None;
                       timeoutMs := None |} w with
            | (Throw e, w1) => (failure e, w1)
            | (Return res, w1) =>
                let fileName := path_basename pf (outputPath res) in
                match fs_open (disk w1) (outputPath res) with
                | Throw e => (failure e, w1)
                | Return _ =>
                    ({| status := 200;
                        payload := FileStream (str "video/mp4") fileName (outputPath res) |},
                     with_disk
                       (on_response_events (unlink_quietly (outputPath res))
                          (events (ending r)) (disk w1)) w1)
                end
            end
        end
        end
  end.

(** [app.post("/api/clip", ...)]. *)
Definition post_clip (pf : Platform) (web : Web) (env : ProcessEnv)
    (r : RequestEnv) (body : Body) (w : World) : Response * World :=
  match ClipRequestSchema_parse web body with
  | Throw e => (failure e, w)
  | Return parsed =>
      if negb (isYouTubeUrl web (r_url parsed)) then (not_youtube, w)
      else
        match parseTimeToSeconds (r_start parsed) with
        | Throw e => (failure e, w)
        | Return startSeconds =>
        match parseTimeToSeconds (r_end parsed) with
        | Throw e => (failure e, w)
        | Return endSeconds =>
            let staged :=
              match truthy_value (r_cookiesTxtBase64 parsed) with
              | Some _ =>
                  match writeTempCookies pf (now r) (nanoid6 r) w with
                  | (Return file, w1) => (Return (Some file), w1)
                  | (Throw e, w1) => (Throw e, w1)
                  end
              | None => (Return None, w)
              end in
            match staged with
            | (Throw e, w1) => (failure e, w1)
            | (Return cookiesTxtPath, w1) =>
                let baseName := str "aiclips-" ++ nanoid8 r in
                let outputDirectory := path_join pf (tmpdir pf) (str "aiclips") in
                match downloadClip pf env (now r) (tool r)
                        {| url := r_url parsed;
                           startSeconds := startSeconds;
                           endSeconds := endSeconds;
                           outputDirectory := Some outputDirectory;
                           outputBaseName := Some baseName;
                           cookieHeader := r_cookieHeader parsed;
                           cookiesTxtPath := cookiesTxtPath;
                           format := Some (r_format parsed);
                           userAgent := None;
                           timeoutMs := None |} w1 with
                | (Throw e, w2) => (failure e, w2)
                | (Return res, w2) =>
                    let fileName := path_basename pf (outputPath res) in
                    match fs_open (disk w2) (outputPath res) with
                    | Throw e => (failure e, w2)
                    | Return _ =>
                        ({| status := 200;
                            payload :=
                              FileStream
                                (match r_format parsed with
                                 | webm => str "video/webm"
                                 | mp4 => str "video/mp4"
                                 end)
                                fileName (outputPath res) |},
                         with_disk
                           (on_response_events (cleanup (outputPath res) cookiesTxtPath)
                              (events (ending r)) (disk w2)) w2)
                    end
                end
            end
        end
        end
  end.

End Server.
Import Server.

(* ================================================================== *)
(** * A concrete platform, for evaluating the model *)
(* ================================================================== *)

Module Posix.

(** The text after the last [/] of [s], and the text before it. *)
Fixpoint after_last_slash (s : jsstring) : jsstring :=
  match s with
  | [] => []
  | c :: r => if includes "/" r then after_last_slash r
              else if Ascii.eqb c "/" then r else s
  end.

Fixpoint before_last_slash (s : jsstring) : jsstring :=
  match s with
  | [] => []
  | c :: r => if includes "/" r then c :: before_last_slash r else []
  end.

(** Paths whose segments are already normalised: joining puts a [/]
    between, splitting cuts at the last [/]. *)
Definition platform : Platform :=
  {| path_join := fun a b => a ++ "/"%char :: b;
     path_dirname := before_last_slash;
     path_basename := after_last_slash;
     tmpdir := str "/tmp" |}.

Definition no_env : ProcessEnv :=
  {| YOUTUBE_USER_AGENT := None; YOUTUBE_COOKIE_HEADER := None; YT_COOKIES_FILE := None |}.

(** The host of [scheme://host/...] for URLs with neither user
    information nor port, written in lower case. *)
Fixpoint host_end (s : jsstring) : jsstring :=
  match s with
  | [] => []
  | c :: r => if Ascii.eqb c "/" || Ascii.eqb c "?" || Ascii.eqb c "#" then []
              else c :: host_end r
  end.

Fixpoint after_scheme (s : jsstring) : option jsstring :=
  match s with
  | [] => None
  | c :: r => if startsWith (str "://") s then Some (skipn 3 s) else after_scheme r
  end.

Definition simple_hostname (u : jsstring) : option jsstring :=
  match after_scheme u with
  | Some r => match host_end r with [] => None | h => Some h end
  | None => None
  end.

Definition web : Web :=
  {| url_hostname := simple_hostname;
     zod_url := fun u => match simple_hostname u with Some _ => true | None => false end;
     zod_message := fun _ => str "Invalid input" |}.

End Posix.

(** Concrete inputs on which the model is evaluated. *)
Module Demo.

Definition empty_world : World := {| disk := []; spawns := [] |}.

Definition clip_options (timeout : option number) : ClipOptions :=
  {| url := str "https://www.youtube.com/watch?v=abc";
     startSeconds := Fin 5; endSeconds := Fin 20;
     outputDirectory := None; outputBaseName := Some (str "clip");
     cookieHeader := None; cookiesTxtPath := None;
     format := None; userAgent := None; timeoutMs := timeout |}.

(** A tool that reports progress after 3 s and would end after 20 s. *)
Definition slow_tool : Tool :=
  {| behaviour := [(3000%Z, StderrData (str "partial")); (20000%Z, CloseEvent (Some 0%Z))];
     leaves := fun d => d |}.

(** A tool that ends after 1.5 s with code 0, leaving [clip.mkv]. *)
Definition mkv_tool : Tool :=
  {| behaviour := [(1200%Z, StdoutData (str "done")); (1500%Z, CloseEvent (Some 0%Z))];
     leaves := fun d => d ++ [(str "/tmp/aiclips/clip.mkv", File)] |}.

(** A tool that ends after 1.5 s with code 1. *)
Definition failing_tool : Tool :=
  {| behaviour := [(1200%Z, StderrData (str "ERROR: unavailable"));
                   (1500%Z, CloseEvent (Some 1%Z))];
     leaves := fun d => d |}.

(** A tool that ends with code 0, leaving the file the handlers ask for. *)
Definition serving_tool : Tool :=
  {| behaviour := [(1500%Z, CloseEvent (Some 0%Z))];
     leaves := fun d => d ++ [(str "/tmp/aiclips/aiclips-AbCdEfGh.mp4", File)] |}.

Definition request_env (t : Tool) (e : Ending) : RequestEnv :=
  {| now := 1700000000000; nanoid6 := str "abc123"; nanoid8 := str "AbCdEfGh";
     tool := t; ending := e |}.

Definition field (s : string) : option jsval := Some (JString (str s)).

(** A well-formed POST body for a YouTube URL, with a cookie jar. *)
Definition body_with_cookies : Body :=
  {| b_url := field "https://www.youtube.com/watch?v=abc";
     b_start := field "0"; b_end := field "10";
     b_cookieHeader := None; b_cookiesTxtBase64 := field "Y29va2ll";
     b_format := None |}.

(** A POST body for another host, with a format the schema rejects. *)
Definition body_other_host_bad_format : Body :=
  {| b_url := field "https://example.com/v";
     b_start := field "0"; b_end := field "10";
     b_cookieHeader := None; b_cookiesTxtBase64 := None;
     b_format := field "avi" |}.

Definition cookie_file : jsstring :=
  str "/tmp/aiclips-cookies/cookies-1700000000000-abc123.txt".

End Demo.

(* ================================================================== *)
(** * Properties of binary64 rounding *)
(* ================================================================== *)

(** Linear arithmetic over the rationals, the injected integers taken as
    unknowns. *)
Ltac hide_Z :=
  repeat match goal with
         | |- context [inject_Z ?z] =>
             let q := fresh "q" in set (q := inject_Z z) in *; clearbody q
         | H : context [inject_Z ?z] |- _ =>
             let q := fresh "q" in set (q := inject_Z z) in *; clearbody q
         end.
Ltac qlra := hide_Z; lra.

Section Rounding.
Local Open Scope Q_scope.

Lemma pow2_pos (e : Z) : 0 < pow2 e.
Proof. apply Qpower_0_lt. reflexivity. Qed.

Lemma pow2_add (a b : Z) : pow2 (a + b) == pow2 a * pow2 b.
Proof. apply Qpower_plus. discriminate. Qed.

Lemma pow2_Z (e : Z) : (0 <= e)%Z -> pow2 e == inject_Z (2 ^ e).
Proof. intros H. unfold pow2. now rewrite Zpower_Qpower. Qed.

Lemma pow2_le (a b : Z) : (a <= b)%Z -> pow2 a <= pow2 b.
Proof. intros H. apply Qpower_le_compat_l; [exact H|discriminate]. Qed.

Lemma pow2_lt (a b : Z) : (a < b)%Z -> pow2 a < pow2 b.
Proof. intros H. apply Qpower_lt_compat_l; [exact H|reflexivity]. Qed.

Lemma pow2_inv (e : Z) : / pow2 e == pow2 (- e).
Proof. unfold pow2. now rewrite Qpower_opp. Qed.

(** Scaling by a power of two and back. *)
Lemma pow2_cancel (x : Q) (e : Z) : x / pow2 e * pow2 e == x.
Proof.
  unfold Qdiv. rewrite <- Qmult_assoc, (Qmult_comm (/ pow2 e)).
  rewrite Qmult_inv_r, Qmult_1_r; [reflexivity|].
  intros E. pose proof (pow2_pos e) as P. rewrite E in P. discriminate.
Qed.

(** An integer scaled up by a power of two is an integer. *)
Lemma pow2_scale_Z (k e : Z) :
  (e <= 0)%Z -> inject_Z k / pow2 e == inject_Z (k * 2 ^ (- e)).
Proof.
  intros H. unfold Qdiv. rewrite pow2_inv, pow2_Z by lia.
  now rewrite inject_Z_mult.
Qed.

(** ** Rounding to an integer *)

Lemma rne_Qeq (x y : Q) : x == y -> rne x = rne y.
Proof.
  intros E. unfold rne. rewrite (Qfloor_comp x y E).
  replace (Qcompare (x - inject_Z (Qfloor y)) (1 # 2))
    with (Qcompare (y - inject_Z (Qfloor y)) (1 # 2)); [reflexivity|].
  apply Qcompare_comp; [now rewrite E|reflexivity].
Qed.

Lemma rne_Z (j : Z) : rne (inject_Z j) = j.
Proof.
  unfold rne. rewrite Qfloor_Z.
  replace (Qcompare (inject_Z j - inject_Z j) (1 # 2)) with Lt; [reflexivity|].
  symmetry. apply -> Qlt_alt. qlra.
Qed.

Lemma rne_floor (x : Q) : (Qfloor x <= rne x <= Qfloor x + 1)%Z.
Proof.
  unfold rne. destruct (Qcompare _ _); [destruct (Z.even _)| |]; lia.
Qed.

Lemma rne_lower (x : Q) (j : Z) : inject_Z j <= x -> (j <= rne x)%Z.
Proof.
  intros H. apply Qfloor_resp_le in H. rewrite Qfloor_Z in H.
  pose proof (rne_floor x). lia.
Qed.

(** Below the midpoint under [j], the nearest integer is below [j]. *)
Lemma rne_below (x : Q) (j : Z) : x < inject_Z j - (1 # 2) -> (rne x < j)%Z.
Proof.
  intros H. pose proof (Qfloor_le x) as Hf. pose proof (Qlt_floor x) as Hc.
  assert (Hj : (Qfloor x < j)%Z).
  { rewrite Zlt_Qlt. qlra. }
  destruct (Z.eq_dec (Qfloor x + 1) j) as [E|N].
  - unfold rne.
    replace (Qcompare (x - inject_Z (Qfloor x)) (1 # 2)) with Lt; [lia|].
    symmetry. apply -> Qlt_alt. subst j. rewrite inject_Z_plus in H.
    change (inject_Z 1) with 1 in H. qlra.
  - pose proof (rne_floor x). lia.
Qed.

(** ** The binary exponent *)

Lemma ilog2_le (q : Q) : 0 < q -> pow2 (ilog2 q) <= q.
Proof.
  intros Hq. unfold ilog2.
  destruct (Qle_bool _ q) eqn:E; [now apply Qle_bool_iff|].
  destruct q as [n d]. cbn [Qnum Qden] in *.
  assert (Hn : (0 < n)%Z).
  { unfold Qlt in Hq. cbn in Hq. lia. }
  pose proof (Z.log2_nonneg n) as Ha0. pose proof (Z.log2_nonneg (Zpos d)) as Hb0.
  replace (Z.log2 n - Z.log2 (Zpos d) - 1)%Z
    with (Z.log2 n + - (Z.log2 (Zpos d) + 1))%Z by lia.
  set (a := Z.log2 n) in *. set (b := (Z.log2 (Zpos d) + 1)%Z) in *.
  rewrite pow2_add, <- pow2_inv.
  apply Qle_shift_div_r; [apply pow2_pos|].
  rewrite !pow2_Z by (subst a b; lia).
  assert (H1 : (2 ^ a <= n)%Z) by (apply Z.log2_spec; lia).
  assert (H2 : (Zpos d < 2 ^ b)%Z) by (apply Z.log2_spec; lia).
  unfold Qle, Qmult, inject_Z. cbn [Qnum Qden].
  rewrite Z.mul_1_r, Pos.mul_1_r. nia.
Qed.

Lemma ilog2_bound (q : Q) (L : Z) :
  0 < q -> q < pow2 (L + 1) -> (ilog2 q <= L)%Z.
Proof.
  intros Hq Hlt. destruct (Z.le_gt_cases (ilog2 q) L) as [H|H]; [exact H|exfalso].
  pose proof (ilog2_le q Hq) as H1.
  pose proof (pow2_le (L + 1) (ilog2 q) ltac:(lia)) as H2. qlra.
Qed.

(** ** Rounding to binary64 *)

Lemma round64_Qeq (a b : Q) : a == b -> round64 a = round64 b.
Proof. intros E. unfold round64. now rewrite (Qred_complete _ _ E). Qed.

Lemma Qred_Z (z : Z) : Qred (inject_Z z) = inject_Z z.
Proof.
  pose proof (Qred_correct (inject_Z z)) as E.
  pose proof (gcd_Qred (inject_Z z)) as G.
  destruct (Qred (inject_Z z)) as [n d]. unfold Qeq in E. cbn in E, G.
  assert (En : n = (Zpos d * z)%Z) by lia.
  rewrite En, Z.gcd_comm, Z.gcd_mul_diag_l in G by lia.
  unfold inject_Z. f_equal; lia.
Qed.

(** The number of a rational that is an integer. *)
Lemma Fin_Z (q : Q) (z : Z) : q == inject_Z z -> Fin (Qred q) = Fin (inject_Z z).
Proof. intros E. now rewrite (Qred_complete _ _ E), Qred_Z. Qed.

(** What rounding a positive rational returns: the scaled nearest integer. *)
Lemma round_pos_eq (q : Q) :
  let e := Z.max (ilog2 q - 52) (-1074) in
  let v := inject_Z (rne (q / pow2 e)) * pow2 e in
  v < pow2 1024 -> round_pos q = Fin (Qred v).
Proof.
  intros e v Hv. unfold round_pos. fold e. fold v.
  destruct (Qle_bool (pow2 1024) v) eqn:E; [|reflexivity].
  apply Qle_bool_iff in E. qlra.
Qed.

(** A value between two integers that keeps off the upper one by more
    than half a unit in the last place rounds to a value between them. *)
Lemma round_pos_between (x d : Q) (k L : Z) :
  0 < x -> (0 <= k)%Z -> (k + 1 <= 2 ^ 53)%Z -> (-1022 <= L <= 52)%Z ->
  x < pow2 (L + 1) -> pow2 (L - 52) < 2 * d ->
  inject_Z k <= x -> x <= inject_Z (k + 1) - d ->
  exists r, round_pos x = Fin r /\ inject_Z k <= r /\ r < inject_Z (k + 1).
Proof.
  intros Hx Hk Hk1 HL Hlt Hd Hlo Hhi.
  pose proof (ilog2_bound x L Hx Hlt) as Hi.
  set (e := Z.max (ilog2 x - 52) (-1074)).
  assert (He : (e <= L - 52)%Z) by (subst e; lia).
  assert (He0 : (e <= 0)%Z) by lia.
  pose proof (pow2_pos e) as Pe.
  pose proof (pow2_le e (L - 52) He) as Ple.
  set (y := x / pow2 e).
  assert (Ey : y * pow2 e == x) by apply pow2_cancel.
  assert (Hlow : (k * 2 ^ (- e) <= rne y)%Z).
  { apply rne_lower. rewrite <- pow2_scale_Z by assumption.
    subst y. unfold Qdiv. apply Qmult_le_compat_r; [assumption|].
    apply Qlt_le_weak, Qinv_lt_0_compat, Pe. }
  assert (Hupp : (rne y < (k + 1) * 2 ^ (- e))%Z).
  { apply rne_below. rewrite <- pow2_scale_Z by assumption.
    assert (Hy : y <= (inject_Z (k + 1) - d) / pow2 e).
    { subst y. unfold Qdiv. apply Qmult_le_compat_r; [assumption|].
      apply Qlt_le_weak, Qinv_lt_0_compat, Pe. }
    assert (Hh : 1 # 2 < d / pow2 e).
    { apply Qlt_shift_div_l; [assumption|]. qlra. }
    unfold Qdiv in *. qlra. }
  set (v := inject_Z (rne y) * pow2 e).
  assert (Ek : forall j : Z, inject_Z (j * 2 ^ (- e)) * pow2 e == inject_Z j).
  { intros j. rewrite <- pow2_scale_Z by assumption. apply pow2_cancel. }
  assert (Hv1 : inject_Z k <= v).
  { rewrite <- (Ek k). subst v. apply Qmult_le_compat_r; [|qlra].
    now rewrite <- Zle_Qle. }
  assert (Hv2 : v < inject_Z (k + 1)).
  { rewrite <- (Ek (k + 1)%Z). subst v. apply Qmult_lt_compat_r; [assumption|].
    now rewrite <- Zlt_Qlt. }
  assert (Hbig : inject_Z (k + 1) <= pow2 1024).
  { apply Qle_trans with (y := pow2 53); [|apply pow2_le; lia].
    rewrite pow2_Z by lia. now rewrite <- Zle_Qle. }
  exists (Qred v). split.
  - apply round_pos_eq. fold e. fold y. fold v. qlra.
  - rewrite Qred_correct. split; assumption.
Qed.

(** An integer of at most 53 bits is its own nearest binary64 value. *)
Lemma round_pos_Z (z : Z) :
  (0 < z < 2 ^ 53)%Z -> round_pos (inject_Z z) = Fin (inject_Z z).
Proof.
  intros Hz.
  assert (Hq : 0 < inject_Z z) by (change 0 with (inject_Z 0); rewrite <- Zlt_Qlt; lia).
  assert (Hi : (ilog2 (inject_Z z) <= 52)%Z).
  { apply ilog2_bound; [assumption|]. rewrite pow2_Z by lia.
    rewrite <- Zlt_Qlt. lia. }
  set (e := Z.max (ilog2 (inject_Z z) - 52) (-1074)).
  assert (He0 : (e <= 0)%Z) by (subst e; lia).
  assert (Er : rne (inject_Z z / pow2 e) = (z * 2 ^ (- e))%Z).
  { rewrite (rne_Qeq _ _ (pow2_scale_Z z e He0)). apply rne_Z. }
  assert (Ev : inject_Z (rne (inject_Z z / pow2 e)) * pow2 e == inject_Z z).
  { rewrite Er, <- pow2_scale_Z by assumption. apply pow2_cancel. }
  rewrite round_pos_eq; fold e.
  - now apply Fin_Z.
  - rewrite Ev. apply Qlt_le_trans with (y := pow2 53); [|apply pow2_le; lia].
    rewrite pow2_Z by lia. rewrite <- Zlt_Qlt. lia.
Qed.

Lemma round64_Z (z : Z) :
  (Z.abs z < 2 ^ 53)%Z -> round64 (inject_Z z) = Fin (inject_Z z).
Proof.
  intros Hz. unfold round64. rewrite Qred_Z.
  destruct (Qcompare_spec (inject_Z z) 0) as [E|E|E].
  - f_equal. change 0 with (inject_Z 0) in *.
    apply (f_equal inject_Z). symmetry. unfold Qeq in E. cbn in E. lia.
  - change 0 with (inject_Z 0) in E. rewrite <- Zlt_Qlt in E.
    change (- inject_Z z) with (inject_Z (- z)).
    rewrite round_pos_Z by lia. cbn [negate].
    change (- inject_Z (- z)) with (inject_Z (- - z)).
    now rewrite Qred_Z, Z.opp_involutive.
  - change 0 with (inject_Z 0) in E. rewrite <- Zlt_Qlt in E.
    apply round_pos_Z. lia.
Qed.

(** ** Numbers that are not negative *)

Definition nonneg (a : number) : Prop :=
  match a with
  | NaN => False
  | Infinity s => s = false
  | Fin q => 0 <= q
  end.

Lemma round_pos_nonneg (q : Q) : 0 < q -> nonneg (round_pos q).
Proof.
  intros Hq. unfold round_pos.
  set (e := Z.max (ilog2 q - 52) (-1074)).
  destruct (Qle_bool _ _); [reflexivity|]. cbn [nonneg].
  rewrite Qred_correct. apply Qmult_le_0_compat.
  - change 0 with (inject_Z 0). rewrite <- Zle_Qle. apply rne_lower.
    change (inject_Z 0) with 0. apply Qle_shift_div_l; [apply pow2_pos|]. qlra.
  - apply Qlt_le_weak, pow2_pos.
Qed.

Lemma round64_nonneg (q : Q) : 0 <= q -> nonneg (round64 q).
Proof.
  intros Hq. unfold round64.
  destruct (Qcompare_spec (Qred q) 0) as [E|E|E].
  - cbn. qlra.
  - rewrite Qred_correct in E. qlra.
  - now apply round_pos_nonneg.
Qed.

Lemma nadd_nonneg (a b : number) : nonneg a -> nonneg b -> nonneg (nadd a b).
Proof.
  destruct a as [|[]|x], b as [|[]|y]; cbn; try easy.
  intros Hx Hy. apply round64_nonneg. qlra.
Qed.

(** Scaling by a positive constant. *)
Lemma nmul_nonneg (a : number) (c : Q) :
  0 < c -> nonneg a -> nonneg (nmul a (Fin c)).
Proof.
  intros Hc. destruct a as [|[]|x]; cbn [nonneg nmul]; try easy.
  - intros _. unfold is_zero, is_neg.
    assert (Hn : (0 < Qnum c)%Z) by (unfold Qlt in Hc; cbn in Hc; lia).
    replace (Qnum c =? 0)%Z with false by (symmetry; apply Z.eqb_neq; lia).
    replace (Qnum c <? 0)%Z with false by (symmetry; apply Z.ltb_ge; lia).
    reflexivity.
  - intros Hx. apply round64_nonneg. apply Qmult_le_0_compat; qlra.
Qed.

(** ** Whole numbers *)

Lemma nmul_Z (a b : Z) :
  (Z.abs (a * b) < 2 ^ 53)%Z ->
  nmul (Fin (inject_Z a)) (Fin (inject_Z b)) = Fin (inject_Z (a * b)).
Proof. intros H. cbn [nmul]. rewrite <- inject_Z_mult. now apply round64_Z. Qed.

Lemma nadd_Z (a b : Z) :
  (Z.abs (a + b) < 2 ^ 53)%Z ->
  nadd (Fin (inject_Z a)) (Fin (inject_Z b)) = Fin (inject_Z (a + b)).
Proof. intros H. cbn [nadd]. rewrite <- inject_Z_plus. now apply round64_Z. Qed.

Lemma nmod_Z (a : Z) (p : positive) :
  (0 <= a)%Z ->
  nmod (Fin (inject_Z a)) (Fin (inject_Z (Zpos p)))
  = Fin (inject_Z (a mod Zpos p)).
Proof.
  intros Ha. cbn [nmod]. unfold is_zero. cbn [Qnum inject_Z Z.eqb].
  replace (is_neg (inject_Z a / inject_Z (Zpos p))) with false.
  - rewrite <- Zdiv_Qdiv. apply Fin_Z.
    rewrite (Z.mod_eq a (Zpos p)) by lia.
    unfold Zminus. rewrite inject_Z_plus, inject_Z_opp, inject_Z_mult. ring.
  - symmetry. unfold is_neg. apply Z.ltb_ge. cbn. lia.
Qed.

(** The whole quotient by a divisor [b] such as 60 or 3600, small enough
    for the quotient to keep off the next integer by more than half a unit
    in the last place. *)
Lemma nfloor_ndiv_Z (a : Z) (p : positive) (L : Z) :
  (0 <= a < 2 ^ 53)%Z -> (0 <= L <= 52)%Z ->
  (2 ^ 53 <= Zpos p * 2 ^ (L + 1))%Z -> (Zpos p < 2 * 2 ^ (52 - L))%Z ->
  nfloor (ndiv (Fin (inject_Z a)) (Fin (inject_Z (Zpos p))))
  = Fin (inject_Z (a / Zpos p)).
Proof.
  intros Ha HL Hbig Hsmall. cbn [ndiv]. unfold is_zero. cbn [Qnum inject_Z Z.eqb].
  set (b := Zpos p). set (x := inject_Z a / inject_Z b).
  assert (Hb : 0 < inject_Z b) by reflexivity.
  assert (Ek : Qfloor x = (a / b)%Z) by (symmetry; apply Zdiv_Qdiv).
  assert (Ex : x * inject_Z b == inject_Z a).
  { subst x. unfold Qdiv. rewrite <- Qmult_assoc, (Qmult_comm (/ _)).
    rewrite Qmult_inv_r, Qmult_1_r; [reflexivity|]. intros E. rewrite E in Hb. discriminate. }
  unfold round64.
  destruct (Qcompare_spec (Qred x) 0) as [E|E|E].
  - cbn [nfloor]. rewrite Qred_correct in E. rewrite <- Ek, E. reflexivity.
  - rewrite Qred_correct in E. exfalso.
    assert (H0 : 0 <= x).
    { subst x. apply Qle_shift_div_l; [assumption|]. rewrite Qmult_0_l.
      change 0 with (inject_Z 0). rewrite <- Zle_Qle. lia. }
    qlra.
  - rewrite Qred_correct in E.
    destruct (round_pos_between (Qred x) (/ inject_Z b) (a / b) L) as (r & -> & R1 & R2).
    + now rewrite Qred_correct.
    + apply Z.div_pos; lia.
    + assert (a / b <= a)%Z by (apply Z.div_le_upper_bound; nia). lia.
    + lia.
    + rewrite Qred_correct. subst x. apply Qlt_shift_div_r; [assumption|].
      rewrite pow2_Z by lia. rewrite <- inject_Z_mult, <- Zlt_Qlt. nia.
    + assert (HP : pow2 (L - 52) * pow2 (52 - L) == 1).
      { rewrite <- pow2_add. now replace (L - 52 + (52 - L))%Z with 0%Z by lia. }
      assert (HB : inject_Z b < 2 * pow2 (52 - L)).
      { rewrite pow2_Z by lia. change 2 with (inject_Z 2).
        rewrite <- inject_Z_mult, <- Zlt_Qlt. exact Hsmall. }
      change (pow2 (L - 52) < 2 / inject_Z b).
      apply Qlt_shift_div_l; [assumption|].
      apply Qlt_le_trans with (y := pow2 (L - 52) * (2 * pow2 (52 - L))).
      * apply Qmult_lt_l; [apply pow2_pos|exact HB].
      * setoid_replace (pow2 (L - 52) * (2 * pow2 (52 - L)))
          with (2 * (pow2 (L - 52) * pow2 (52 - L))) by ring.
        rewrite HP. apply Qle_refl.
    + rewrite Qred_correct, <- Ek. apply Qfloor_le.
    + rewrite Qred_correct.
      pose proof (Z.mod_pos_bound a b ltac:(lia)) as Hm.
      pose proof (Z.div_mod a b ltac:(lia)) as Hdm.
      apply Qmult_le_r with (z := inject_Z b); [assumption|].
      rewrite Ex.
      setoid_replace ((inject_Z (a / b + 1) - / inject_Z b) * inject_Z b)
        with (inject_Z ((a / b + 1) * b - 1)).
      * rewrite <- Zle_Qle. nia.
      * unfold Zminus.
        rewrite (inject_Z_plus ((a / b + 1) * b) (- (1))), (inject_Z_mult (a / b + 1) b).
        change (inject_Z (- (1))) with (- (1)). field.
        intros E0. rewrite E0 in Hb. discriminate.
    + cbn [nfloor]. f_equal. f_equal.
      apply Z.le_antisymm.
      * assert (Hlt : (Qfloor r < a / b + 1)%Z).
        { rewrite Zlt_Qlt. pose proof (Qfloor_le r). qlra. }
        lia.
      * rewrite <- (Qfloor_Z (a / b)). now apply Qfloor_resp_le.
Qed.

End Rounding.
(* ================================================================== *)
(** * Properties of src/utils/time.ts *)
(* ================================================================== *)

Arguments Ascii.eqb : simpl never.
Arguments is_digit : simpl never.
Arguments is_space : simpl never.
Arguments digit_char : simpl never.
Arguments digit_val : simpl never.

(* ---------- lists of characters ---------- *)
Section CharLists.
Variable p : ascii -> bool.

Lemma drop_while_all (w s : jsstring) :
  forallb p w = true -> drop_while p (w ++ s) = drop_while p s.
Proof.
  induction w as [|c w IH]; simpl; intros H; [reflexivity|].
  apply andb_prop in H as [Hc Hw]. rewrite Hc. auto.
Qed.

Lemma drop_while_stop (c : ascii) (s : jsstring) :
  p c = false -> drop_while p (c :: s) = c :: s.
Proof. intros H; simpl; now rewrite H. Qed.

Lemma span_spec (s a b : jsstring) :
  span p s = (a, b) -> s = a ++ b /\ forallb p a = true.
Proof.
  revert a b; induction s as [|c s IH]; simpl; intros a b H.
  - inversion H; auto.
  - destruct (p c) eqn:Hc.
    + destruct (span p s) as [a' b'] eqn:E. inversion H; subst.
      destruct (IH _ _ eq_refl) as [-> Ha]. simpl. now rewrite Hc.
    + inversion H; auto.
Qed.

Lemma span_app (a b : jsstring) :
  forallb p a = true ->
  match b with [] => True | c :: _ => p c = false end ->
  span p (a ++ b) = (a, b).
Proof.
  induction a as [|c a IH]; simpl; intros Ha Hb.
  - destruct b as [|c b]; [reflexivity|]. simpl. now rewrite Hb.
  - apply andb_prop in Ha as [Hc Ha]. rewrite Hc, IH; auto.
Qed.
Lemma forallb_rev' (s : jsstring) : forallb p (rev s) = forallb p s.
Proof.
  induction s as [|c s IH]; simpl; [reflexivity|].
  rewrite forallb_app, IH. simpl. rewrite andb_true_r. apply andb_comm.
Qed.
End CharLists.

(* ---------- characters ---------- *)
Lemma strip_hit (c : ascii) (s : jsstring) : strip c (c :: s) = Some s.
Proof. simpl. now rewrite Ascii.eqb_refl. Qed.

Lemma strip_miss (c x : ascii) (s : jsstring) :
  Ascii.eqb x c = false -> strip c (x :: s) = None.
Proof. intros H; simpl; now rewrite H. Qed.

Definition stops_digits (s : jsstring) : Prop :=
  match s with [] => True | c :: _ => is_digit c = false /\ Ascii.eqb c "." = false end.

Lemma all_digits_inv (s : jsstring) :
  all_digits s = true -> s <> [] /\ forallb is_digit s = true.
Proof.
  unfold all_digits. intros H. apply andb_prop in H as [H1 H2].
  split; [now destruct s|assumption].
Qed.

Lemma dot_not_digit : is_digit "." = false.
Proof. reflexivity. Qed.

(* ---------- the grammar [\d+(?:\.\d+)?] ---------- *)
Lemma match_decimal_text (d : decimal) (rest : jsstring) :
  decimal_ok d = true -> stops_digits rest ->
  match_decimal (decimal_text d ++ rest) = Some (decimal_text d, rest).
Proof.
  destruct d as [ip [f|]]; unfold decimal_ok, decimal_text, match_decimal; simpl;
    intros Hok Hrest.
  - apply andb_prop in Hok as [Hi Hf].
    apply all_digits_inv in Hi as [Hi0 Hi], Hf as [Hf0 Hf].
    rewrite <- app_assoc. simpl.
    rewrite (span_app is_digit ip ("."%char :: f ++ rest) Hi dot_not_digit).
    destruct ip as [|i ip]; [congruence|].
    rewrite strip_hit.
    rewrite (span_app is_digit f rest Hf).
    + destruct f; [congruence|reflexivity].
    + destruct rest; [exact I|apply Hrest].
  - rewrite andb_true_r in Hok. apply all_digits_inv in Hok as [Hi0 Hi].
    rewrite app_nil_r.
    rewrite (span_app is_digit ip rest Hi).
    + destruct ip as [|i ip]; [congruence|].
      destruct rest as [|c rest]; [reflexivity|].
      now rewrite (strip_miss "." c rest (proj2 Hrest)).
    + destruct rest; [exact I|apply Hrest].
Qed.

Lemma is_decimal_text (d : decimal) :
  decimal_ok d = true -> is_decimal (decimal_text d) = true.
Proof.
  intros H. unfold is_decimal.
  rewrite <- (app_nil_r (decimal_text d)).
  now rewrite (match_decimal_text d [] H I).
Qed.

Definition decimal_char (c : ascii) : bool := is_digit c || Ascii.eqb c ".".

Lemma digits_decimal_chars (s : jsstring) :
  forallb is_digit s = true -> forallb decimal_char s = true.
Proof.
  rewrite !forallb_forall. intros H x Hx. unfold decimal_char. now rewrite H.
Qed.

Lemma match_decimal_chars (s d rest : jsstring) :
  match_decimal s = Some (d, rest) ->
  s = d ++ rest /\ forallb decimal_char d = true /\ d <> [].
Proof.
  unfold match_decimal.
  destruct (span is_digit s) as [ip r1] eqn:E1.
  apply span_spec in E1 as [-> Hip].
  assert (Hip' := digits_decimal_chars ip Hip).
  destruct ip as [|i ip]; [discriminate|].
  destruct r1 as [|c r1]; simpl strip.
  - intros H; inversion H; subst. repeat split; auto; discriminate.
  - destruct (Ascii.eqb c ".") eqn:Ec.
    + destruct (span is_digit r1) as [fp r3] eqn:E2.
      apply span_spec in E2 as [-> Hfp].
      destruct fp as [|f fp]; intros H; inversion H; subst.
      * repeat split; auto; discriminate.
      * apply Ascii.eqb_eq in Ec as ->.
        split; [simpl; now rewrite <- app_assoc|].
        split; [|discriminate].
        change (i :: ip ++ "."%char :: f :: fp) with ((i :: ip) ++ "."%char :: f :: fp).
        rewrite forallb_app, Hip'. simpl.
        change (decimal_char ".") with true. simpl.
        apply (digits_decimal_chars (f :: fp) Hfp).
    + intros H; inversion H; subst. repeat split; auto; discriminate.
Qed.

Lemma is_decimal_chars (s : jsstring) :
  is_decimal s = true -> forallb decimal_char s = true.
Proof.
  unfold is_decimal. destruct (match_decimal s) as [[d [|c rest]]|] eqn:E;
    try discriminate.
  intros _. apply match_decimal_chars in E as (-> & H & _). now rewrite app_nil_r.
Qed.

Lemma digit_not_space (c : ascii) : is_digit c = true -> is_space c = false.
Proof.
  unfold is_digit, is_space. intros H. apply andb_prop in H as [H1 H2].
  apply Nat.leb_le in H1, H2.
  destruct (Nat.leb_spec 9 (code c)), (Nat.leb_spec (code c) 13),
    (Nat.eqb_spec (code c) 32), (Nat.eqb_spec (code c) 160); simpl; auto; lia.
Qed.

Lemma digit_neq (c x : ascii) :
  is_digit c = true -> is_digit x = false -> Ascii.eqb c x = false.
Proof.
  intros Hc Hx. destruct (Ascii.eqb c x) eqn:E; [|reflexivity].
  apply Ascii.eqb_eq in E. congruence.
Qed.

Lemma digit_not_Infinity (c : ascii) (r : jsstring) :
  is_digit c = true -> startsWith (str "Infinity") (c :: r) = false.
Proof.
  intros Hc. change (str "Infinity") with ("I"%char :: str "nfinity").
  simpl. destruct (Ascii.eqb "I" c) eqn:E; [|reflexivity].
  apply Ascii.eqb_eq in E. subst c. discriminate.
Qed.

Definition frac_digits (d : decimal) : jsstring :=
  match frac_part d with Some f => f | None => [] end.

Lemma scale_decimal (d : decimal) :
  scale (int_part d) (frac_digits d) 0 == decimal_value d.
Proof.
  unfold scale, decimal_value, frac_digits.
  destruct (frac_part d) as [f|]; simpl Qpower; rewrite Qmult_1_r.
  - reflexivity.
  - simpl. unfold Qdiv. rewrite Qmult_0_l. reflexivity.
Qed.

Lemma parse_unsigned_text (d : decimal) :
  decimal_ok d = true ->
  parse_unsigned (decimal_text d) = Some (scale (int_part d) (frac_digits d) 0).
Proof.
  destruct d as [ip [f|]]; unfold decimal_ok, decimal_text, parse_unsigned, frac_digits;
    simpl; intros Hok.
  - apply andb_prop in Hok as [Hi Hf].
    apply all_digits_inv in Hi as [Hi0 Hi], Hf as [Hf0 Hf].
    rewrite (span_app is_digit ip ("."%char :: f) Hi dot_not_digit).
    rewrite strip_hit.
    rewrite <- (app_nil_r f) at 1. rewrite (span_app is_digit f [] Hf I).
    destruct ip; [congruence|reflexivity].
  - rewrite andb_true_r in Hok. apply all_digits_inv in Hok as [Hi0 Hi].
    rewrite (span_app is_digit ip [] Hi I). simpl.
    destruct ip; [congruence|reflexivity].
Qed.

Lemma decimal_text_head (d : decimal) :
  decimal_ok d = true ->
  exists c r, decimal_text d = c :: r /\ is_digit c = true.
Proof.
  destruct d as [ip fp]; unfold decimal_ok, decimal_text; simpl. intros H.
  apply andb_prop in H as [H _]. apply all_digits_inv in H as [H0 H].
  destruct ip as [|c ip]; [congruence|]. simpl in H. apply andb_prop in H as [H _].
  exists c. eexists. split; [reflexivity|assumption].
Qed.

(** A decimal of the grammar is read as the number nearest to its value. *)
Lemma parseFloat_text (d : decimal) :
  decimal_ok d = true ->
  parseFloat (decimal_text d) = round64 (decimal_value d).
Proof.
  intros Hok. unfold parseFloat.
  destruct (decimal_text_head d Hok) as (c & r & E & Hc).
  assert (Hu := parse_unsigned_text d Hok).
  rewrite E in *. unfold trimStart.
  rewrite drop_while_stop by now apply digit_not_space.
  unfold sign. rewrite !strip_miss by now apply digit_neq.
  rewrite digit_not_Infinity by assumption.
  rewrite Hu. apply round64_Qeq, scale_decimal.
Qed.

(* ---------- compound unit expressions ---------- *)
Definition unit_letter (c : ascii) : bool :=
  eqb_ci c "h" || eqb_ci c "m" || eqb_ci c "s".

Ltac by_char c :=
  destruct c as [[] [] [] [] [] [] [] []]; vm_compute; intuition congruence.

Lemma unit_letter_facts (c : ascii) :
  unit_letter c = true ->
  is_digit c = false /\ Ascii.eqb c "." = false /\ is_space c = false
  /\ decimal_char c = false /\ Ascii.eqb ":" c = false.
Proof. by_char c. Qed.

Lemma ci_m_not_h (c : ascii) : eqb_ci c "m" = true -> eqb_ci c "h" = false.
Proof. by_char c. Qed.
Lemma ci_s_not_h (c : ascii) : eqb_ci c "s" = true -> eqb_ci c "h" = false.
Proof. by_char c. Qed.
Lemma ci_s_not_m (c : ascii) : eqb_ci c "s" = true -> eqb_ci c "m" = false.
Proof. by_char c. Qed.
Lemma ci_h_letter (c : ascii) : eqb_ci c "h" = true -> unit_letter c = true.
Proof. by_char c. Qed.
Lemma ci_m_letter (c : ascii) : eqb_ci c "m" = true -> unit_letter c = true.
Proof. by_char c. Qed.
Lemma ci_s_letter (c : ascii) : eqb_ci c "s" = true -> unit_letter c = true.
Proof. by_char c. Qed.

Lemma unit_group_nil (u : ascii) : unit_group u [] = (None, []).
Proof. reflexivity. Qed.

Lemma unit_group_take (u c : ascii) (d : decimal) (rest : jsstring) :
  decimal_ok d = true -> unit_letter c = true -> eqb_ci c u = true ->
  unit_group u (decimal_text d ++ c :: rest) = (Some (decimal_text d), rest).
Proof.
  intros Hd Hc Hu. unfold unit_group.
  rewrite match_decimal_text; [now rewrite Hu|assumption|].
  simpl. now destruct (unit_letter_facts c Hc) as (? & ? & _).
Qed.

Lemma unit_group_skip (u c : ascii) (d : decimal) (rest : jsstring) :
  decimal_ok d = true -> unit_letter c = true -> eqb_ci c u = false ->
  unit_group u (decimal_text d ++ c :: rest) = (None, decimal_text d ++ c :: rest).
Proof.
  intros Hd Hc Hu. unfold unit_group.
  rewrite match_decimal_text; [now rewrite Hu|assumption|].
  simpl. now destruct (unit_letter_facts c Hc) as (? & ? & _).
Qed.

Lemma unit_part_app (d : decimal) (u : ascii) (rest : jsstring) :
  unit_part (Some d) u ++ rest = decimal_text d ++ u :: rest.
Proof. unfold unit_part. now rewrite <- app_assoc. Qed.

Section UnitExpression.
Variables (h m s : option decimal) (uh um us : ascii).
Hypothesis Hh : part_ok h = true.
Hypothesis Hm : part_ok m = true.
Hypothesis Hs : part_ok s = true.
Hypothesis Huh : eqb_ci uh "h" = true.
Hypothesis Hum : eqb_ci um "m" = true.
Hypothesis Hus : eqb_ci us "s" = true.

Lemma unitMatch_text :
  unitMatch (unit_text h m s uh um us)
  = Some (option_map decimal_text h, option_map decimal_text m,
          option_map decimal_text s).
Proof.
  pose proof (ci_h_letter _ Huh). pose proof (ci_m_letter _ Hum).
  pose proof (ci_s_letter _ Hus).
  pose proof (ci_m_not_h _ Hum). pose proof (ci_s_not_h _ Hus).
  pose proof (ci_s_not_m _ Hus).
  unfold unitMatch, unit_text.
  destruct h as [dh|], m as [dm|], s as [ds|]; simpl part_ok in *;
    rewrite ?unit_part_app; simpl unit_part; rewrite ?app_nil_l, ?app_nil_r;
    repeat first
      [ rewrite unit_group_take by assumption
      | rewrite unit_group_skip by assumption
      | rewrite unit_group_nil ];
    reflexivity.
Qed.
End UnitExpression.

Definition zero_decimal : decimal := {| int_part := str "0"; frac_part := None |}.

Definition or_zero_decimal (d : option decimal) : decimal :=
  match d with Some x => x | None => zero_decimal end.

Lemma or_zero_text (d : option decimal) :
  or_zero (option_map decimal_text d) = decimal_text (or_zero_decimal d).
Proof. now destruct d. Qed.

Lemma or_zero_ok (d : option decimal) :
  part_ok d = true -> decimal_ok (or_zero_decimal d) = true.
Proof. now destruct d. Qed.

Lemma or_zero_value (d : option decimal) :
  decimal_value (or_zero_decimal d) == part_value d.
Proof. destruct d; reflexivity. Qed.

Lemma parseFloat_part (d : option decimal) :
  part_ok d = true ->
  parseFloat (or_zero (option_map decimal_text d)) = round64 (part_value d).
Proof.
  intros H. rewrite or_zero_text, parseFloat_text by now apply or_zero_ok.
  apply round64_Qeq, or_zero_value.
Qed.

Lemma ngt_zero (q : Q) : 0 < q -> ngt (Fin q) (Fin 0) = true.
Proof.
  intros H. simpl. destruct (Qle_bool q 0) eqn:E; [|reflexivity].
  apply Qle_bool_iff in E. exfalso. now apply (Qlt_not_le 0 q).
Qed.

Lemma decimal_chars_no_letter (s : jsstring) (c : ascii) :
  unit_letter c = true -> is_decimal (s ++ [c]) = false.
Proof.
  intros Hc. destruct (is_decimal (s ++ [c])) eqn:E; [|reflexivity].
  apply is_decimal_chars in E. rewrite forallb_app in E.
  apply andb_prop in E as [_ E]. simpl in E.
  destruct (unit_letter_facts c Hc) as (_ & _ & _ & Hd & _). now rewrite Hd in E.
Qed.

(** A text that starts with a digit and ends with a unit letter. *)
Definition digit_to_letter (x : jsstring) : Prop :=
  (exists c r, x = c :: r /\ is_digit c = true)
  /\ (exists pre l, x = pre ++ [l] /\ unit_letter l = true).

Lemma digit_to_letter_app (x y : jsstring) :
  x = [] \/ digit_to_letter x -> y = [] \/ digit_to_letter y ->
  x ++ y = [] \/ digit_to_letter (x ++ y).
Proof.
  intros [->|[(c & r & -> & Hc) (pre & l & Ex & Hl)]] Hy; [exact Hy|].
  right. split; [exists c, (r ++ y); now split|].
  destruct Hy as [->|[_ (pre' & l' & -> & Hl')]].
  - rewrite app_nil_r. eauto.
  - exists ((c :: r) ++ pre'), l'. now rewrite <- app_assoc.
Qed.

Lemma unit_part_shape (d : option decimal) (u : ascii) :
  part_ok d = true -> unit_letter u = true ->
  unit_part d u = [] \/ digit_to_letter (unit_part d u).
Proof.
  destruct d as [d|]; [|now left]. intros Hd Hu. right. simpl.
  destruct (decimal_text_head d Hd) as (c & r & E & Hc). split.
  - rewrite E. exists c, (r ++ [u]). now split.
  - eauto.
Qed.

(** The weighted sum as the parser computes it: each product and each
    sum rounded. *)
Definition unit_sum (hours minutes seconds : number) : number :=
  nadd (nadd (nmul hours (Fin 3600)) (nmul minutes (Fin 60))) seconds.

Section UnitValue.
Variables (h m s : option decimal) (uh um us : ascii).
Hypothesis Hh : part_ok h = true.
Hypothesis Hm : part_ok m = true.
Hypothesis Hs : part_ok s = true.
Hypothesis Huh : eqb_ci uh "h" = true.
Hypothesis Hum : eqb_ci um "m" = true.
Hypothesis Hus : eqb_ci us "s" = true.

Let total : number :=
  unit_sum (round64 (part_value h)) (round64 (part_value m)) (round64 (part_value s)).
Let text : jsstring := unit_text h m s uh um us.

Lemma unit_text_shape : text = [] \/ digit_to_letter text.
Proof.
  subst text; unfold unit_text.
  repeat apply digit_to_letter_app; apply unit_part_shape;
    auto using ci_h_letter, ci_m_letter, ci_s_letter.
Qed.

Lemma unit_text_nil : text = [] -> h = None /\ m = None /\ s = None.
Proof.
  subst text; unfold unit_text. intros E.
  apply app_eq_nil in E as [E1 E]. apply app_eq_nil in E as [E2 E3].
  assert (Hnil : forall d u, unit_part d u = [] -> d = None).
  { intros [d|] u Hd; [|reflexivity]. simpl in Hd.
    apply app_eq_nil in Hd as [_ Hd]. discriminate. }
  rewrite (Hnil _ _ E1), (Hnil _ _ E2), (Hnil _ _ E3). now repeat split.
Qed.

Lemma unit_text_ends :
  text <> [] -> digit_to_letter text.
Proof.
  intros Hne. destruct unit_text_shape as [E|H]; [contradiction|exact H].
Qed.

Lemma unit_total_value :
  unit_total (option_map decimal_text h, option_map decimal_text m,
              option_map decimal_text s) = total.
Proof.
  unfold unit_total.
  now rewrite (parseFloat_part h Hh), (parseFloat_part m Hm), (parseFloat_part s Hs).
Qed.

(** A unit expression is accepted with the sum the parser computes, when
    that sum is positive. *)
Lemma unit_expression_value (input : jsstring) :
  trim input = text -> ngt total (Fin 0) = true ->
  parseTimeToSeconds input = Return total.
Proof.
  intros Htrim Hpos.
  assert (Hne : text <> []).
  { intros E. apply unit_text_nil in E as (E1 & E2 & E3).
    subst total. rewrite E1, E2, E3 in Hpos. discriminate. }
  destruct (unit_text_ends Hne) as [(c & r & E1 & Hc) (pre & l & E2 & Hl)].
  unfold parseTimeToSeconds. rewrite Htrim.
  replace (truthy text) with true by (rewrite E1; reflexivity). simpl negb. cbv iota.
  rewrite E2 at 1. rewrite decimal_chars_no_letter by assumption.
  unfold unit_branch. subst text. rewrite unitMatch_text by assumption.
  cbv zeta. rewrite unit_total_value. now rewrite Hpos.
Qed.

End UnitValue.

(* ---------- clock expressions ---------- *)
Lemma split_field (f : jsstring) :
  no_colon f = true -> split ":" f = [f].
Proof.
  unfold no_colon, includes. induction f as [|c f IH]; simpl; [reflexivity|].
  rewrite negb_orb. intros H. apply andb_prop in H as [Hc Hf].
  rewrite IH by assumption.
  rewrite Ascii.eqb_sym. apply negb_true_iff in Hc. now rewrite Hc.
Qed.

Lemma split_fields (f r : jsstring) :
  no_colon f = true -> split ":" (f ++ ":"%char :: r) = f :: split ":" r.
Proof.
  unfold no_colon, includes. induction f as [|c f IH]; simpl.
  - intros _. rewrite ?Ascii.eqb_refl. reflexivity.
  - rewrite negb_orb. intros H. apply andb_prop in H as [Hc Hf].
    rewrite IH by assumption.
    rewrite Ascii.eqb_sym. apply negb_true_iff in Hc. now rewrite Hc.
Qed.

Lemma includes_colon (f r : jsstring) : includes ":" (f ++ ":"%char :: r) = true.
Proof.
  unfold includes. rewrite existsb_app. apply orb_true_iff; right.
  simpl. rewrite ?Ascii.eqb_refl. reflexivity.
Qed.

Definition unit_char (c : ascii) : bool := decimal_char c || unit_letter c.

Lemma unit_char_not_colon (s : jsstring) :
  forallb unit_char s = true -> includes ":" s = false.
Proof.
  unfold includes. induction s as [|c s IH]; simpl; [reflexivity|].
  intros H. apply andb_prop in H as [Hc Hs]. rewrite IH by assumption.
  rewrite orb_false_r. revert Hc. clear. by_char c.
Qed.

Lemma unit_group_chars (u : ascii) (s rest : jsstring) (cap : option jsstring) :
  (forall c, eqb_ci c u = true -> unit_letter c = true) ->
  unit_group u s = (cap, rest) ->
  exists pre, s = pre ++ rest /\ forallb unit_char pre = true.
Proof.
  intros Hu. unfold unit_group.
  destruct (match_decimal s) as [[d [|c r]]|] eqn:E.
  - intros H; inversion H; subst. now exists [].
  - destruct (eqb_ci c u) eqn:Ec; intros H; inversion H; subst; [|now exists []].
    apply match_decimal_chars in E as (-> & Hd & _).
    exists (d ++ [c]). rewrite <- app_assoc. split; [reflexivity|].
    rewrite forallb_app. simpl. rewrite andb_true_r. apply andb_true_intro. split.
    + rewrite forallb_forall in *. intros x Hx. unfold unit_char. now rewrite Hd.
    + unfold unit_char. rewrite (Hu c Ec). apply orb_true_r.
  - intros H; inversion H; subst. now exists [].
Qed.

Lemma unitMatch_chars (s : jsstring) caps :
  unitMatch s = Some caps -> forallb unit_char s = true.
Proof.
  unfold unitMatch.
  destruct (unit_group "h" s) as [h s1] eqn:E1.
  destruct (unit_group "m" s1) as [m s2] eqn:E2.
  destruct (unit_group "s" s2) as [sec s3] eqn:E3.
  destruct s3; [|discriminate]. intros _.
  apply unit_group_chars in E1 as (p1 & -> & H1); [|exact ci_h_letter].
  apply unit_group_chars in E2 as (p2 & -> & H2); [|exact ci_m_letter].
  apply unit_group_chars in E3 as (p3 & -> & H3); [|exact ci_s_letter].
  now rewrite !forallb_app, H1, H2, H3.
Qed.

Lemma colon_not_decimal (s : jsstring) :
  includes ":" s = true -> is_decimal s = false.
Proof.
  intros H. destruct (is_decimal s) eqn:E; [|reflexivity].
  apply is_decimal_chars in E.
  assert (forallb unit_char s = true).
  { rewrite forallb_forall in *. intros x Hx. unfold unit_char. now rewrite E. }
  apply unit_char_not_colon in H0. congruence.
Qed.

Lemma colon_not_units (s : jsstring) :
  includes ":" s = true -> unit_branch s = None.
Proof.
  intros H. unfold unit_branch. destruct (unitMatch s) as [caps|] eqn:E; [|reflexivity].
  apply unitMatch_chars, unit_char_not_colon in E. congruence.
Qed.

(** What the parser does on an input that holds a colon. *)
Lemma parse_colon (input : jsstring) :
  includes ":" (trim input) = true ->
  parseTimeToSeconds input
  = match clock (trim input) with
    | Some r => r
    | None => Throw (str "Unsupported time format: " ++ input)
    end.
Proof.
  intros H. unfold parseTimeToSeconds.
  destruct (trim input) as [|c t] eqn:E; [discriminate|]. simpl negb. cbv iota.
  now rewrite colon_not_decimal, colon_not_units.
Qed.

Lemma truthy_false (s : jsstring) : negb (truthy s) = false <-> s <> [].
Proof. destruct s; simpl; split; congruence. Qed.

(** The field arithmetic of the clock block: each product and each sum
    rounded. *)
Definition clock_sum2 (mm ss : number) : number := nadd (nmul mm (Fin 60)) ss.

Definition clock_sum3 (hh mm ss : number) : number :=
  nadd (nadd (nmul hh (Fin 3600)) (nmul mm (Fin 60))) ss.

Lemma clock2_eval (input f1 f2 : jsstring) (a b : Q) :
  trim input = f1 ++ ":"%char :: f2 ->
  no_colon f1 = true -> no_colon f2 = true ->
  trim f1 <> [] -> trim f2 <> [] ->
  parseFloat (trim f1) = Fin a -> parseFloat (trim f2) = Fin b ->
  parseTimeToSeconds input = Return (clock_sum2 (Fin a) (Fin b)).
Proof.
  intros E H1 H2 N1 N2 Pa Pb.
  rewrite parse_colon by (rewrite E; apply includes_colon).
  rewrite E. unfold clock. rewrite includes_colon.
  rewrite split_fields, split_field by assumption.
  cbn [map existsb].
  apply truthy_false in N1, N2. rewrite N1, N2. cbn [orb].
  now rewrite Pa, Pb.
Qed.

Lemma clock3_eval (input f1 f2 f3 : jsstring) (a b c : Q) :
  trim input = f1 ++ ":"%char :: f2 ++ ":"%char :: f3 ->
  no_colon f1 = true -> no_colon f2 = true -> no_colon f3 = true ->
  trim f1 <> [] -> trim f2 <> [] -> trim f3 <> [] ->
  parseFloat (trim f1) = Fin a -> parseFloat (trim f2) = Fin b ->
  parseFloat (trim f3) = Fin c ->
  parseTimeToSeconds input = Return (clock_sum3 (Fin a) (Fin b) (Fin c)).
Proof.
  intros E H1 H2 H3 N1 N2 N3 Pa Pb Pc.
  rewrite parse_colon by (rewrite E; apply includes_colon).
  rewrite E. unfold clock. rewrite includes_colon.
  rewrite !split_fields, split_field by assumption.
  cbn [map existsb].
  apply truthy_false in N1, N2, N3. rewrite N1, N2, N3. cbn [orb].
  now rewrite Pa, Pb, Pc.
Qed.

(** A unit expression whose sum, as computed, is not positive is rejected. *)
Lemma unit_expression_rejected (input : jsstring) (h m s : option decimal)
    (uh um us : ascii) :
  part_ok h = true -> part_ok m = true -> part_ok s = true ->
  eqb_ci uh "h" = true -> eqb_ci um "m" = true -> eqb_ci us "s" = true ->
  trim input = unit_text h m s uh um us ->
  unit_text h m s uh um us <> [] ->
  ngt (unit_sum (round64 (part_value h)) (round64 (part_value m))
         (round64 (part_value s))) (Fin 0) = false ->
  parseTimeToSeconds input = Throw (str "Unsupported time format: " ++ input).
Proof.
  intros Hh Hm Hs Uh Um Us Htrim Hne Hz.
  destruct (unit_text_shape h m s uh um us Hh Hm Hs Uh Um Us)
    as [E0|[(c & r & E1 & Hc) (pre & l & E2 & Hl)]]; [contradiction|].
  pose proof (unitMatch_text h m s uh um us Hh Hm Hs Uh Um Us) as Hmatch.
  unfold parseTimeToSeconds. rewrite Htrim.
  replace (truthy (unit_text h m s uh um us)) with true by (rewrite E1; reflexivity).
  simpl negb. cbv iota.
  rewrite E2 at 1. rewrite decimal_chars_no_letter by assumption.
  unfold unit_branch. rewrite Hmatch.
  cbv zeta. rewrite (unit_total_value h m s Hh Hm Hs), Hz.
  unfold clock.
  replace (includes ":" (unit_text h m s uh um us)) with false; [reflexivity|].
  symmetry. apply unit_char_not_colon. exact (unitMatch_chars _ _ Hmatch).
Qed.

(* ---------- trimming ---------- *)
Definition no_space (s : jsstring) : bool := forallb (fun c => negb (is_space c)) s.

Lemma drop_while_none (s : jsstring) :
  no_space s = true -> drop_while is_space s = s.
Proof.
  destruct s as [|c s]; simpl; [reflexivity|]. intros H.
  apply andb_prop in H as [H _]. apply negb_true_iff in H. now rewrite H.
Qed.

Lemma drop_while_spaces (w : jsstring) :
  forallb is_space w = true -> drop_while is_space w = [].
Proof.
  intros H. rewrite <- (app_nil_r w). now rewrite drop_while_all.
Qed.

Lemma trim_padded (w1 core w2 : jsstring) :
  forallb is_space w1 = true -> forallb is_space w2 = true ->
  no_space core = true ->
  trim (w1 ++ core ++ w2) = core.
Proof.
  intros H1 H2 Hc. unfold trim, trimStart, trimEnd.
  rewrite drop_while_all by assumption.
  destruct core as [|x core].
  - simpl. rewrite (drop_while_spaces w2) by assumption. reflexivity.
  - simpl in Hc. apply andb_prop in Hc as [Hx Hc]. apply negb_true_iff in Hx.
    simpl app. rewrite drop_while_stop by assumption.
    change (x :: core ++ w2) with ((x :: core) ++ w2).
    rewrite rev_app_distr, drop_while_all by (now rewrite forallb_rev').
    rewrite drop_while_none; [apply rev_involutive|].
    unfold no_space. rewrite forallb_rev'. simpl.
    apply negb_true_iff in Hx. now rewrite Hx.
Qed.

Lemma trim_plain (s : jsstring) : no_space s = true -> trim s = s.
Proof.
  intros H. rewrite <- (trim_padded [] s [] eq_refl eq_refl H) at 2.
  now rewrite app_nil_r.
Qed.

Lemma forallb_weaken (p q : ascii -> bool) (s : jsstring) :
  (forall c, p c = true -> q c = true) -> forallb p s = true -> forallb q s = true.
Proof. rewrite !forallb_forall. auto. Qed.

Lemma decimal_char_facts (c : ascii) :
  decimal_char c = true -> is_space c = false /\ Ascii.eqb ":" c = false.
Proof. by_char c. Qed.

Lemma decimal_text_chars (d : decimal) :
  decimal_ok d = true -> forallb decimal_char (decimal_text d) = true.
Proof.
  intros H. apply is_decimal_text, is_decimal_chars in H. exact H.
Qed.

Lemma decimal_chars_no_space (s : jsstring) :
  forallb decimal_char s = true -> no_space s = true.
Proof.
  apply forallb_weaken. intros c H. apply negb_true_iff.
  now destruct (decimal_char_facts c H).
Qed.

Lemma decimal_chars_no_colon (s : jsstring) :
  forallb decimal_char s = true -> no_colon s = true.
Proof.
  intros H. unfold no_colon. apply negb_true_iff.
  apply unit_char_not_colon. revert H. apply forallb_weaken.
  intros c Hc. unfold unit_char. now rewrite Hc.
Qed.

Lemma decimal_text_nonempty (d : decimal) :
  decimal_ok d = true -> decimal_text d <> [].
Proof.
  intros H. destruct (decimal_text_head d H) as (c & r & -> & _). discriminate.
Qed.

(** A field that is a plain decimal: what the clock block reads from it. *)
Lemma decimal_field (d : decimal) :
  decimal_ok d = true ->
  no_colon (decimal_text d) = true
  /\ trim (decimal_text d) <> []
  /\ parseFloat (trim (decimal_text d)) = round64 (decimal_value d).
Proof.
  intros H. pose proof (decimal_text_chars d H) as Hc.
  rewrite trim_plain by now apply decimal_chars_no_space.
  split; [now apply decimal_chars_no_colon|].
  split; [now apply decimal_text_nonempty|].
  now apply parseFloat_text.
Qed.

Lemma clock2_decimal (input : jsstring) (m s : decimal) (a b : Q) :
  decimal_ok m = true -> decimal_ok s = true ->
  trim input = decimal_text m ++ ":"%char :: decimal_text s ->
  round64 (decimal_value m) = Fin a -> round64 (decimal_value s) = Fin b ->
  parseTimeToSeconds input = Return (clock_sum2 (Fin a) (Fin b)).
Proof.
  intros Hm Hs E Ra Rb.
  destruct (decimal_field m Hm) as (C1 & N1 & Pa).
  destruct (decimal_field s Hs) as (C2 & N2 & Pb).
  rewrite Ra in Pa. rewrite Rb in Pb.
  exact (clock2_eval input _ _ a b E C1 C2 N1 N2 Pa Pb).
Qed.

Lemma clock3_decimal (input : jsstring) (h m s : decimal) (c a b : Q) :
  decimal_ok h = true -> decimal_ok m = true -> decimal_ok s = true ->
  trim input = decimal_text h ++ ":"%char :: decimal_text m ++ ":"%char :: decimal_text s ->
  round64 (decimal_value h) = Fin c ->
  round64 (decimal_value m) = Fin a -> round64 (decimal_value s) = Fin b ->
  parseTimeToSeconds input = Return (clock_sum3 (Fin c) (Fin a) (Fin b)).
Proof.
  intros Hh Hm Hs E Rc Ra Rb.
  destruct (decimal_field h Hh) as (C0 & N0 & Pc).
  destruct (decimal_field m Hm) as (C1 & N1 & Pa).
  destruct (decimal_field s Hs) as (C2 & N2 & Pb).
  rewrite Rc in Pc. rewrite Ra in Pa. rewrite Rb in Pb.
  exact (clock3_eval input _ _ _ c a b E C0 C1 C2 N0 N1 N2 Pc Pa Pb).
Qed.

(* ---------- whole numbers ---------- *)

(** A decimal without a fraction. *)
Definition whole (d : decimal) : bool :=
  match frac_part d with None => true | Some _ => false end.

Definition part_whole (d : option decimal) : bool :=
  match d with Some x => whole x | None => true end.

(** The integer a whole decimal denotes. *)
Definition whole_value (d : decimal) : Z := digits_value (int_part d).

Definition part_whole_value (d : option decimal) : Z :=
  match d with Some x => whole_value x | None => 0%Z end.

Lemma digits_value_nonneg (ds : jsstring) :
  forallb is_digit ds = true -> (0 <= digits_value ds)%Z.
Proof.
  unfold digits_value.
  assert (G : forall acc, (0 <= acc)%Z -> forallb is_digit ds = true ->
              (0 <= fold_left (fun a c => (10 * a + digit_val c)%Z) ds acc)%Z).
  { induction ds as [|c ds IH]; intros acc Hacc H; cbn [fold_left]; [assumption|].
    cbn [forallb] in H. apply andb_prop in H as [Hc H]. apply IH; [|assumption].
    unfold is_digit in Hc. apply andb_prop in Hc as [Hc _].
    apply Nat.leb_le in Hc. unfold digit_val. lia. }
  apply G. lia.
Qed.

Lemma whole_value_spec (d : decimal) :
  decimal_ok d = true -> whole d = true ->
  (0 <= whole_value d)%Z /\ decimal_value d == inject_Z (whole_value d).
Proof.
  destruct d as [ip [f|]]; unfold whole, decimal_ok, decimal_value, whole_value;
    cbn [frac_part int_part]; [discriminate|].
  intros H _. rewrite andb_true_r in H. apply all_digits_inv in H as [_ H].
  split; [now apply digits_value_nonneg|]. apply Qplus_0_r.
Qed.

Lemma part_whole_value_spec (d : option decimal) :
  part_ok d = true -> part_whole d = true ->
  (0 <= part_whole_value d)%Z /\ part_value d == inject_Z (part_whole_value d).
Proof.
  destruct d as [d|]; cbn [part_ok part_whole part_whole_value part_value].
  - apply whole_value_spec.
  - intros _ _. split; [lia|reflexivity].
Qed.

(** The sums of whole numbers are exact as long as they stay below 2^53. *)
Lemma unit_sum_Z (a b c : Z) :
  (0 <= a)%Z -> (0 <= b)%Z -> (0 <= c)%Z ->
  (3600 * a + 60 * b + c < 2 ^ 53)%Z ->
  unit_sum (Fin (inject_Z a)) (Fin (inject_Z b)) (Fin (inject_Z c))
  = Fin (inject_Z (3600 * a + 60 * b + c)).
Proof.
  intros Ha Hb Hc H. unfold unit_sum.
  change (Fin 3600) with (Fin (inject_Z 3600)).
  change (Fin 60) with (Fin (inject_Z 60)).
  rewrite !nmul_Z, !nadd_Z by lia. do 2 f_equal. lia.
Qed.

Lemma clock_sum2_Z (b c : Z) :
  (0 <= b)%Z -> (0 <= c)%Z -> (60 * b + c < 2 ^ 53)%Z ->
  clock_sum2 (Fin (inject_Z b)) (Fin (inject_Z c)) = Fin (inject_Z (60 * b + c)).
Proof.
  intros Hb Hc H. unfold clock_sum2.
  change (Fin 60) with (Fin (inject_Z 60)).
  rewrite !nmul_Z, !nadd_Z by lia. do 2 f_equal. lia.
Qed.

Lemma clock_sum3_Z (a b c : Z) :
  (0 <= a)%Z -> (0 <= b)%Z -> (0 <= c)%Z ->
  (3600 * a + 60 * b + c < 2 ^ 53)%Z ->
  clock_sum3 (Fin (inject_Z a)) (Fin (inject_Z b)) (Fin (inject_Z c))
  = Fin (inject_Z (3600 * a + 60 * b + c)).
Proof. exact (unit_sum_Z a b c). Qed.

(** A whole number below 2^53 is read exactly. *)
Lemma round64_whole (q : Q) (z : Z) :
  q == inject_Z z -> (0 <= z < 2 ^ 53)%Z -> round64 q = Fin (inject_Z z).
Proof.
  intros E Hz. rewrite (round64_Qeq _ _ E). apply round64_Z. lia.
Qed.

(* ---------- printing integers ---------- *)
Section Printing.
Local Open Scope Z_scope.

(** A property of the ten digits is checked digit by digit. *)
Lemma below_ten (P : Z -> Prop) :
  (forall k : nat, (k < 10)%nat -> P (Z.of_nat k)) ->
  forall d, 0 <= d < 10 -> P d.
Proof.
  intros H d Hd. rewrite <- (Z2Nat.id d) by lia. apply H. lia.
Qed.

Lemma digit_char_spec (d : Z) :
  0 <= d < 10 -> is_digit (digit_char d) = true /\ digit_val (digit_char d) = d.
Proof.
  revert d. apply below_ten. intros k Hk.
  do 10 (destruct k as [|k]; [split; reflexivity|]). lia.
Qed.

Lemma digits_value_app (a b : jsstring) :
  digits_value (a ++ b)
  = fold_left (fun acc c => 10 * acc + digit_val c) b (digits_value a).
Proof. unfold digits_value. apply fold_left_app. Qed.

Lemma digits_value_snoc (a : jsstring) (c : ascii) :
  digits_value (a ++ [c]) = 10 * digits_value a + digit_val c.
Proof. now rewrite digits_value_app. Qed.

Lemma digits_fuel_spec (f : nat) :
  forall n acc, 0 <= n < 2 ^ Z.of_nat (S f) ->
  exists ds, digits_fuel (S f) n acc = ds ++ acc
             /\ all_digits ds = true /\ digits_value ds = n.
Proof.
  induction f as [|f IH]; intros n acc Hn.
  - change (2 ^ Z.of_nat 1) with 2 in Hn.
    destruct (digit_char_spec (n mod 10)) as [Hd Hv].
    { apply Z.mod_pos_bound; lia. }
    exists [digit_char (n mod 10)]. cbn [digits_fuel].
    replace (n <? 10) with true by (symmetry; apply Z.ltb_lt; lia).
    unfold all_digits. cbn. rewrite Hd. repeat split.
    unfold digits_value. cbn. rewrite Hv. apply Z.mod_small. lia.
  - destruct (digit_char_spec (n mod 10)) as [Hd Hv].
    { apply Z.mod_pos_bound; lia. }
    cbn [digits_fuel]. destruct (Z.ltb_spec n 10) as [Hlt|Hge].
    + exists [digit_char (n mod 10)].
      unfold all_digits. cbn. rewrite Hd. repeat split.
      unfold digits_value. cbn. rewrite Hv. apply Z.mod_small. lia.
    + destruct (IH (n / 10) (digit_char (n mod 10) :: acc)) as (ds & E & Hds & Hval).
      { split; [apply Z.div_pos; lia|].
        apply Z.div_lt_upper_bound; [lia|].
        rewrite Nat2Z.inj_succ, Z.pow_succ_r in Hn by lia. lia. }
      exists (ds ++ [digit_char (n mod 10)]).
      cbn [digits_fuel] in E. rewrite E, <- app_assoc. split; [reflexivity|].
      split.
      * unfold all_digits in *. apply andb_prop in Hds as [H1 H2].
        rewrite forallb_app, H2. cbn. rewrite Hd.
        destruct ds; [discriminate|reflexivity].
      * rewrite digits_value_snoc, Hval, Hv. symmetry. apply Z.div_mod. lia.
Qed.

Lemma String_of_int_spec (n : Z) :
  0 <= n ->
  all_digits (String_of_int n) = true /\ digits_value (String_of_int n) = n.
Proof.
  intros Hn. unfold String_of_int.
  destruct (digits_fuel_spec (Z.to_nat (Z.log2 n)) n []) as (ds & E & H1 & H2).
  - split; [assumption|].
    rewrite Nat2Z.inj_succ, Z2Nat.id by apply Z.log2_nonneg.
    destruct (Z.eq_dec n 0) as [->|Hz]; [reflexivity|].
    apply Z.log2_spec. lia.
  - rewrite E, app_nil_r. now split.
Qed.

Lemma digits_value_zeros (k : nat) (s : jsstring) :
  digits_value (repeat "0"%char k ++ s) = digits_value s.
Proof.
  induction k as [|k IH]; [reflexivity|].
  unfold digits_value in *. simpl. exact IH.
Qed.

(** An integer field as the formatter writes it. *)
Definition pad2 (n : Z) : jsstring := padStart0 2 (String_of_int n).

Lemma pad2_spec (n : Z) :
  0 <= n -> all_digits (pad2 n) = true /\ digits_value (pad2 n) = n.
Proof.
  intros Hn. destruct (String_of_int_spec n Hn) as [H1 H2].
  unfold pad2, padStart0. rewrite digits_value_zeros. split; [|assumption].
  unfold all_digits in *. apply andb_prop in H1 as [H0 H1].
  rewrite forallb_app, H1, andb_true_r.
  apply andb_true_intro. split.
  - destruct (String_of_int n); [discriminate|]. now destruct (repeat _ _).
  - apply forallb_forall. intros x Hx. apply repeat_spec in Hx. now subst.
Qed.

(** A padded integer field read as a decimal of the grammar. *)
Definition int_decimal (n : Z) : decimal :=
  {| int_part := pad2 n; frac_part := None |}.

Lemma int_decimal_spec (n : Z) :
  0 <= n ->
  decimal_ok (int_decimal n) = true
  /\ decimal_text (int_decimal n) = pad2 n
  /\ (decimal_value (int_decimal n) == inject_Z n)%Q.
Proof.
  intros Hn. destruct (pad2_spec n Hn) as [H1 H2].
  unfold decimal_ok, decimal_text, decimal_value. simpl.
  rewrite H1, H2, app_nil_r. repeat split. ring.
Qed.

Lemma hms_fields (x : Z) :
  0 <= x ->
  0 <= x / 3600 /\ 0 <= (x mod 3600) / 60 /\ 0 <= x mod 60
  /\ x / 3600 * 3600 + (x mod 3600) / 60 * 60 + x mod 60 = x.
Proof.
  intros Hx.
  pose proof (Z.mod_pos_bound x 3600 ltac:(lia)) as B1.
  pose proof (Z.mod_pos_bound x 60 ltac:(lia)) as B2.
  pose proof (Z.mod_pos_bound (x mod 3600) 60 ltac:(lia)) as B3.
  pose proof (Z.div_mod x 3600 ltac:(lia)) as D1.
  pose proof (Z.div_mod (x mod 3600) 60 ltac:(lia)) as D2.
  assert (E : (x mod 3600) mod 60 = x mod 60).
  { apply Z.mod_unique with (q := 60 * (x / 3600) + (x mod 3600) / 60); lia. }
  repeat split; try (apply Z.div_pos; lia); lia.
Qed.

Definition clamp_floor (q : Q) : Z := Z.max 0 (Qfloor q).

Lemma yields_eq (r : outcome number) (a b : Q) :
  yields r a -> (a == b)%Q -> yields r b.
Proof.
  destruct r as [[| |v]|]; simpl; try contradiction.
  intros H E. now rewrite H.
Qed.

(** [String] of a whole number below 2^53. *)
Lemma String_of_number_Z (n : Z) :
  0 <= n < 2 ^ 53 -> String_of_number (Fin (inject_Z n)) = String_of_int n.
Proof.
  intros Hn. cbn [String_of_number]. rewrite Qred_Z.
  destruct (Z.eq_dec n 0) as [->|Hz]; [reflexivity|].
  replace (Qcompare (inject_Z n) 0) with Gt.
  - unfold String_of_positive. cbn [Qnum Qden inject_Z].
    replace (n <? 2 ^ 53) with true by (symmetry; apply Z.ltb_lt; lia).
    reflexivity.
  - symmetry. apply -> Qgt_alt. change 0%Q with (inject_Z 0).
    rewrite <- Zlt_Qlt. lia.
Qed.

(** [Math.max(0, Math.floor(x))] of a finite number. *)
Lemma clamp_number (q : Q) :
  nmax (Fin 0) (nfloor (Fin q)) = Fin (inject_Z (clamp_floor q)).
Proof.
  cbn [nfloor nmax ngt]. unfold clamp_floor.
  destruct (Qle_bool 0 (inject_Z (Qfloor q))) eqn:E; cbn [negb].
  - apply Qle_bool_iff in E. change 0%Q with (inject_Z 0) in E.
    rewrite <- Zle_Qle in E. now rewrite Z.max_r.
  - rewrite Z.max_l; [reflexivity|].
    destruct (Z.le_gt_cases (Qfloor q) 0) as [H|H]; [exact H|exfalso].
    assert (F : Qle_bool 0 (inject_Z (Qfloor q)) = true); [|congruence].
    apply Qle_bool_iff. change 0%Q with (inject_Z 0). rewrite <- Zle_Qle. lia.
Qed.

(** The three fields of the formatted text. *)
Lemma secondsToHms_text (q : Q) :
  clamp_floor q < 2 ^ 53 ->
  secondsToHms (Fin q)
  = pad2 (clamp_floor q / 3600)
    ++ ":"%char :: pad2 (clamp_floor q mod 3600 / 60)
    ++ ":"%char :: pad2 (clamp_floor q mod 60).
Proof.
  intros Hlt. unfold secondsToHms. rewrite clamp_number.
  set (x := clamp_floor q) in *.
  assert (Hx : 0 <= x) by (subst x; unfold clamp_floor; lia).
  pose proof (Z.mod_pos_bound x 3600 ltac:(lia)) as B1.
  pose proof (Z.mod_pos_bound x 60 ltac:(lia)) as B2.
  change (Fin 3600) with (Fin (inject_Z (Zpos 3600))).
  change (Fin 60) with (Fin (inject_Z (Zpos 60))).
  rewrite (nfloor_ndiv_Z x 3600 41), !nmod_Z by (try lia; vm_compute; congruence).
  rewrite (nfloor_ndiv_Z (x mod 3600) 60 47) by (try lia; vm_compute; congruence).
  rewrite !String_of_number_Z; [reflexivity| | |]; try lia.
  - split; [apply Z.div_pos; lia|]. apply Z.div_lt_upper_bound; lia.
  - split; [apply Z.div_pos; lia|]. apply Z.div_lt_upper_bound; lia.
Qed.

(** Below 2^53 the formatted text is read back as the value it shows. *)
Lemma parse_secondsToHms (q : Q) :
  clamp_floor q < 2 ^ 53 ->
  parseTimeToSeconds (secondsToHms (Fin q)) = Return (Fin (inject_Z (clamp_floor q))).
Proof.
  intros Hlt. rewrite secondsToHms_text by assumption.
  set (x := clamp_floor q) in *.
  assert (Hx : 0 <= x) by (subst x; unfold clamp_floor; lia).
  destruct (hms_fields x Hx) as (Hh & Hm & Hs & Esum).
  destruct (int_decimal_spec _ Hh) as (Oh & Th & Vh).
  destruct (int_decimal_spec _ Hm) as (Om & Tm & Vm).
  destruct (int_decimal_spec _ Hs) as (Os & Ts & Vs).
  rewrite <- Th, <- Tm, <- Ts.
  rewrite (clock3_decimal _ (int_decimal (x / 3600))
             (int_decimal (x mod 3600 / 60)) (int_decimal (x mod 60))
             (inject_Z (x / 3600)) (inject_Z (x mod 3600 / 60)) (inject_Z (x mod 60))
             Oh Om Os).
  - rewrite clock_sum3_Z by lia. do 3 f_equal. lia.
  - apply trim_plain.
    pose proof (decimal_chars_no_space _ (decimal_text_chars _ Oh)) as Sh.
    pose proof (decimal_chars_no_space _ (decimal_text_chars _ Om)) as Sm.
    pose proof (decimal_chars_no_space _ (decimal_text_chars _ Os)) as Ss.
    unfold no_space in *.
    rewrite forallb_app, Sh. cbn [forallb]. rewrite forallb_app, Sm.
    cbn [forallb]. rewrite Ss. reflexivity.
  - apply round64_whole; [assumption|lia].
  - apply round64_whole; [assumption|lia].
  - apply round64_whole; [assumption|lia].
Qed.

Lemma secondsToHms_Qeq (a b : Q) :
  (a == b)%Q -> secondsToHms (Fin a) = secondsToHms (Fin b).
Proof.
  intros E. unfold secondsToHms. cbn [nfloor]. now rewrite (Qfloor_comp a b E).
Qed.

Lemma secondsToHms_floor (q : Q) :
  secondsToHms (Fin q) = secondsToHms (Fin (inject_Z (Qfloor q))).
Proof. unfold secondsToHms. cbn [nfloor]. now rewrite Qfloor_Z. Qed.

End Printing.

(* ================================================================== *)
(** * Properties of src/services/ytdlp.ts *)
(* ================================================================== *)

(** ** The argument vector *)




(** ** Supervision *)

(** The tool outlasts the delay: before the delay it only writes output. *)
Fixpoint outlasts (delay : Z) (tr : Trace) : bool :=
  match tr with
  | [] => true
  | (t, ev) :: rest =>
      if (delay <=? t)%Z then true
      else match ev with
           | StdoutData _ | StderrData _ => outlasts delay rest
           | ErrorEvent _ | CloseEvent _ => false
           end
  end.

(** What the tool wrote to each stream before the delay. *)
Fixpoint written (delay : Z) (tr : Trace) : jsstring * jsstring :=
  match tr with
  | [] => ([], [])
  | (t, ev) :: rest =>
      if (delay <=? t)%Z then ([], [])
      else let (o, e) := written delay rest in
           match ev with
           | StdoutData c => (c ++ o, e)
           | StderrData c => (o, c ++ e)
           | _ => (o, e)
           end
  end.

Lemma supervise_outlasted (delay : Z) (tr : Trace) :
  outlasts delay tr = true ->
  forall s,
    supervise delay tr s
    = expire {| s_stdout := s_stdout s ++ fst (written delay tr);
                s_stderr := s_stderr s ++ snd (written delay tr);
                killedByTimeout := killedByTimeout s;
                timer_armed := timer_armed s;
                sent := sent s |}.
Proof.
  induction tr as [|[t ev] tr IH]; intros H s; simpl in *.
  - rewrite !app_nil_r. now destruct s.
  - destruct (delay <=? t)%Z.
    + simpl. rewrite !app_nil_r. now destruct s.
    + destruct (written delay tr) as [o e] eqn:W.
      destruct ev; try discriminate; rewrite (IH H); simpl;
        rewrite <- ?app_assoc; reflexivity.
Qed.

(** ** Messages *)

Lemma startsWith_app (p s : jsstring) : startsWith p (p ++ s) = true.
Proof.
  induction p as [|c p IH]; simpl; [reflexivity|].
  now rewrite Ascii.eqb_refl, IH.
Qed.

Lemma contains_here (pat s : jsstring) :
  startsWith pat s = true -> contains pat s = true.
Proof. intros H. destruct s; simpl; now rewrite H. Qed.

Lemma contains_app (a pat b : jsstring) : contains pat (a ++ pat ++ b) = true.
Proof.
  induction a as [|c a IH].
  - simpl app. apply contains_here. apply startsWith_app.
  - simpl app. cbn [contains]. rewrite IH. apply orb_true_r.
Qed.

Lemma drop_while_app (p : ascii -> bool) (a m : jsstring) (c : ascii) :
  p (hd c m) = false -> m <> [] ->
  drop_while p (a ++ m) = drop_while p a ++ m.
Proof.
  intros Hc Hm. induction a as [|x a IH]; simpl.
  - destruct m as [|y m]; [congruence|]. simpl in *. now rewrite Hc.
  - destruct (p x); [exact IH|reflexivity].
Qed.

(** Trimming keeps a final text that neither starts nor ends in white space. *)
Lemma trim_keeps_tail (a m : jsstring) (c : ascii) :
  is_space (hd c m) = false -> is_space (last m c) = false -> m <> [] ->
  trim (a ++ m) = trimStart a ++ m.
Proof.
  intros Hh Hl Hm. unfold trim, trimStart, trimEnd.
  rewrite (drop_while_app is_space a m c Hh Hm).
  destruct (exists_last Hm) as (l & y & E). rewrite E in Hl.
  rewrite last_last in Hl.
  assert (E2 : rev (drop_while is_space a ++ m)
               = y :: rev (drop_while is_space a ++ l)).
  { rewrite E, app_assoc, rev_app_distr. reflexivity. }
  rewrite E2, drop_while_stop by assumption. rewrite <- E2.
  apply rev_involutive.
Qed.

Lemma trim_timeout_text (a : jsstring) :
  trim (a ++ timeout_text) = trimStart a ++ timeout_text.
Proof. apply (trim_keeps_tail a timeout_text " "); [reflexivity|reflexivity|discriminate]. Qed.

(** ** Looking for the produced file *)

Lemma find_first {A} (f : A -> bool) (pre : list A) (e : A) (post : list A) :
  (forall x, In x pre -> f x = false) -> f e = true ->
  find f (pre ++ e :: post) = Some e.
Proof.
  induction pre as [|x pre IH]; simpl; intros Hpre He.
  - now rewrite He.
  - rewrite (Hpre x) by now left. apply IH; auto.
Qed.

Lemma find_nothing {A} (f : A -> bool) (l : list A) :
  (forall x, In x l -> f x = false) -> find f l = None.
Proof.
  induction l as [|x l IH]; simpl; intros H; [reflexivity|].
  rewrite (H x) by now left. apply IH; auto.
Qed.

Lemma find_map {A B} (f : B -> bool) (g : A -> B) (l : list A) :
  find f (map g l) = option_map g (find (fun x => f (g x)) l).
Proof.
  induction l as [|x l IH]; simpl; [reflexivity|].
  destruct (f (g x)); [reflexivity|exact IH].
Qed.

Section Discovery.
Variables (pf : Platform) (d : Disk) (dir base : jsstring).

Let probe (e : jsstring) : bool := fs_access d (path_join pf dir (base ++ e)).

Lemma probe_hit (pre : list jsstring) (e : jsstring) (post : list jsstring) :
  extensions = pre ++ e :: post ->
  (forall x, In x pre -> probe x = false) -> probe e = true ->
  findProducedFile pf d dir base = Return (Some (path_join pf dir (base ++ e))).
Proof.
  intros E Hpre He. unfold findProducedFile.
  rewrite find_map.
  change (find _ extensions) with (find probe extensions).
  rewrite E, (find_first probe pre e post Hpre He). reflexivity.
Qed.

Lemma probe_miss_scan (entries : list jsstring) :
  (forall x, In x extensions -> probe x = false) ->
  fs_readdir pf d dir = Return entries ->
  findProducedFile pf d dir base
  = Return (option_map (path_join pf dir)
              (find (fun entry => startsWith (base ++ str ".") entry) entries)).
Proof.
  intros Hmiss Hdir. unfold findProducedFile.
  rewrite find_map.
  change (find _ extensions) with (find probe extensions).
  rewrite (find_nothing probe extensions Hmiss), Hdir. simpl.
  now destruct (find _ entries).
Qed.
End Discovery.

(* ================================================================== *)
(** * Properties of src/server.ts *)
(* ================================================================== *)

(** ** Strings *)

Lemma streq_eq (a b : jsstring) : streq a b = true <-> a = b.
Proof.
  revert b; induction a as [|x a IH]; intros [|y b]; simpl; split;
    try congruence; try discriminate; auto.
  - intros H. apply andb_prop in H as [H1 H2].
    apply Ascii.eqb_eq in H1. apply IH in H2. congruence.
  - intros H. inversion H; subst. rewrite Ascii.eqb_refl. simpl. now apply IH.
Qed.

Lemma streq_refl (a : jsstring) : streq a a = true.
Proof. now apply streq_eq. Qed.

Lemma startsWith_prefix (p s : jsstring) :
  startsWith p s = true <-> exists r, s = p ++ r.
Proof.
  revert s; induction p as [|x p IH]; intros s; simpl.
  - split; [intros _; now exists s|reflexivity].
  - destruct s as [|y s].
    + split; [discriminate|]. intros [r H]. discriminate.
    + split.
      * intros H. apply andb_prop in H as [H1 H2].
        apply Ascii.eqb_eq in H1. apply IH in H2 as [r ->]. subst. now exists r.
      * intros [r H]. inversion H; subst. rewrite Ascii.eqb_refl. simpl.
        apply IH. now exists r.
Qed.

Lemma endsWith_suffix (p s : jsstring) :
  endsWith p s = true <-> exists r, s = r ++ p.
Proof.
  unfold endsWith. rewrite startsWith_prefix. split.
  - intros [r H]. exists (rev r).
    rewrite <- (rev_involutive s), H, rev_app_distr. now rewrite rev_involutive.
  - intros [r ->]. exists (rev r). apply rev_app_distr.
Qed.

(** ** The allow-list *)

(** A host is [domain] itself or ends in [.domain]. *)
Definition within (domain host : jsstring) : Prop :=
  host = domain \/ exists sub, host = sub ++ "."%char :: domain.

Definition allowed_host (host : jsstring) : Prop :=
  within (str "youtube.com") host \/ within (str "youtu.be") host.

(** The URL has no host on the allow-list (or no host at all). *)
Definition off_list (web : Web) (u : jsstring) : Prop :=
  forall host, url_hostname web u = Some host -> ~ allowed_host host.

Lemma host_matches_within (domain host : jsstring) :
  host_matches domain host = true <-> within domain host.
Proof.
  unfold host_matches, within. rewrite orb_true_iff, streq_eq, endsWith_suffix.
  reflexivity.
Qed.

Lemma isYouTubeUrl_allowed (web : Web) (u : jsstring) :
  isYouTubeUrl web u = true
  <-> exists host, url_hostname web u = Some host /\ allowed_host host.
Proof.
  unfold isYouTubeUrl, allowed_host. destruct (url_hostname web u) as [h|].
  - rewrite orb_true_iff, !host_matches_within. split.
    + intros H. now exists h.
    + intros (h' & E & H). now inversion E; subst.
  - split; [discriminate|]. intros (h & E & _). discriminate.
Qed.

Lemma off_list_rejected (web : Web) (u : jsstring) :
  off_list web u -> isYouTubeUrl web u = false.
Proof.
  intros H. destruct (isYouTubeUrl web u) eqn:E; [|reflexivity].
  apply isYouTubeUrl_allowed in E as (h & Eh & Ha). now destruct (H h Eh).
Qed.

Lemma schema_keeps_url (web : Web) (body : Body) (parsed : ClipRequest) :
  ClipRequestSchema_parse web body = Return parsed ->
  b_url body = Some (JString (r_url parsed)) /\ zod_url web (r_url parsed) = true.
Proof.
  unfold ClipRequestSchema_parse.
  destruct (b_url body) as [[u|]|]; simpl; try discriminate.
  destruct (z_string (b_start body)); try discriminate.
  destruct (z_string (b_end body)); try discriminate.
  destruct (z_optional_nonempty (b_cookieHeader body)); try discriminate.
  destruct (z_optional_nonempty (b_cookiesTxtBase64 body)); try discriminate.
  destruct (z_format (b_format body)); try discriminate.
  destruct (zod_url web u) eqn:Z; try discriminate.
  intros H; inversion H; subst. simpl. now split.
Qed.

(** ** Files *)

Lemma lookup_filter_other (d : Disk) (p q : jsstring) :
  lookup (filter (fun e => negb (streq (fst e) q)) d) p
  = if streq p q then None else lookup d p.
Proof.
  unfold lookup. induction d as [|[n k] d IH]; simpl.
  - now destruct (streq p q).
  - destruct (streq n q) eqn:Enq; simpl.
    + rewrite IH. destruct (streq p q) eqn:Epq; [reflexivity|].
      destruct (streq n p) eqn:Enp; [|reflexivity].
      apply streq_eq in Enq, Enp. subst. now rewrite streq_refl in Epq.
    + destruct (streq n p) eqn:Enp.
      * apply streq_eq in Enp. subst. now rewrite Enq.
      * exact IH.
Qed.

Lemma unlink_quietly_lookup (d : Disk) (p q : jsstring) :
  lookup (unlink_quietly q d) p
  = match lookup d q with
    | Some File => if streq p q then None else lookup d p
    | _ => lookup d p
    end.
Proof.
  unfold unlink_quietly, fs_unlink.
  destruct (lookup d q) as [[|]|]; try reflexivity. apply lookup_filter_other.
Qed.

(** After [unlink_quietly p], no file is left at [p]. *)
Lemma unlink_quietly_gone (d : Disk) (p : jsstring) :
  lookup (unlink_quietly p d) p <> Some File.
Proof.
  rewrite unlink_quietly_lookup. destruct (lookup d p) as [[|]|] eqn:E.
  - rewrite streq_refl. discriminate.
  - rewrite ?E. discriminate.
  - rewrite ?E. discriminate.
Qed.

(** Removing files never brings one back. *)
Lemma unlink_quietly_keeps_gone (d : Disk) (p q : jsstring) :
  lookup d p <> Some File -> lookup (unlink_quietly q d) p <> Some File.
Proof.
  intros H. rewrite unlink_quietly_lookup.
  destruct (lookup d q) as [[|]|]; try assumption.
  destruct (streq p q); [discriminate|assumption].
Qed.
(* ================================================================== *)
(** * The time parser and formatter: the specification's properties *)
(* ================================================================== *)

(** C5 (the code at the failing input).  The specification gives the
    result of [parseTimeToSeconds] as a non-negative number; the clock
    block reads its fields with [parseFloat], which accepts a sign, so
    ["-5:00"] is accepted and yields -300. *)
Theorem parse_clock_negative :
  yields (parseTimeToSeconds (str "-5:00")) (-300).
Proof. vm_compute. reflexivity. Qed.

(** C6 (the code at the failing input).  The specification rejects a clock
    expression with a non-numeric field; [parseFloat] reads the longest
    numeric prefix of a field, so ["1:5abc"] is accepted and yields 65. *)
Theorem parse_clock_trailing_text :
  yields (parseTimeToSeconds (str "1:5abc")) 65.
Proof. vm_compute. reflexivity. Qed.

Definition dec (ip : string) (fp : option string) : decimal :=
  {| int_part := str ip; frac_part := option_map str fp |}.

(** The literal [0.00...01] with 400 zeros after the point, followed by
    the unit letter [s]. *)
Definition tiny_seconds : jsstring :=
  str "0." ++ repeat "0"%char 400 ++ str "1s".

Definition tiny : decimal :=
  {| int_part := str "0"; frac_part := Some (repeat "0"%char 400 ++ str "1") |}.

(** C7 (counterexample).  ["0.565h"] is a compound unit expression whose
    weighted sum is 3600 * 0.565 = 2034; the parser returns the binary64
    product of 0.565 and 3600, which is 2033.9999999999998.  The
    expression [tiny_seconds] has a strictly positive weighted sum, 10^-401,
    which is read as 0, and the parser rejects it. *)
Lemma unit_expression_inexact :
  (part_ok (Some (dec "0" (Some "565"%string))) = true
   /\ trim (str "0.565h")
      = unit_text (Some (dec "0" (Some "565"%string))) None None "h" "m" "s"
   /\ 3600 * part_value (Some (dec "0" (Some "565"%string)))
      + 60 * part_value None + part_value None == 2034
   /\ parseTimeToSeconds (str "0.565h")
      = Return (Fin (8945626603585535 # 4398046511104))
   /\ (8945626603585535 # 4398046511104) < 2034)
  /\ (part_ok (Some tiny) = true
      /\ trim tiny_seconds = unit_text None None (Some tiny) "h" "m" "s"
      /\ 0 < 3600 * part_value None + 60 * part_value None + part_value (Some tiny)
      /\ parseTimeToSeconds tiny_seconds
         = Throw (str "Unsupported time format: " ++ tiny_seconds)).
Proof.
  split.
  - repeat split; vm_compute; reflexivity.
  - repeat split; vm_compute; reflexivity.
Qed.

(** C7 (amended).  For every compound unit expression whose parts are
    non-negative decimals in the order hours, minutes, seconds (each
    optional, the unit letters in either case), [parseTimeToSeconds]
    returns hours * 3600 + minutes * 60 + seconds evaluated in binary64 on
    the parts read as the nearest binary64 values, provided that result is
    strictly positive; when the parts are whole numbers and the weighted
    sum is strictly positive and below 2^53 the result is that sum exactly.
    For every clock expression of two or three decimal fields that are
    read as finite numbers it returns the field arithmetic evaluated in
    binary64, which is exact for whole-number fields with a sum below
    2^53.  ["1h2m3s"] gives 3723, ["2:10"] gives 130, and the empty input
    throws. *)
Theorem parse_value_of_expressions :
  (forall (input : jsstring) (h m s : option decimal) (uh um us : ascii),
      part_ok h = true -> part_ok m = true -> part_ok s = true ->
      eqb_ci uh "h" = true -> eqb_ci um "m" = true -> eqb_ci us "s" = true ->
      trim input = unit_text h m s uh um us ->
      ngt (nadd (nadd (nmul (round64 (part_value h)) (Fin 3600))
                      (nmul (round64 (part_value m)) (Fin 60)))
                (round64 (part_value s))) (Fin 0) = true ->
      parseTimeToSeconds input
      = Return (nadd (nadd (nmul (round64 (part_value h)) (Fin 3600))
                           (nmul (round64 (part_value m)) (Fin 60)))
                     (round64 (part_value s))))
  /\ (forall (input : jsstring) (h m s : option decimal) (uh um us : ascii),
         part_ok h = true -> part_ok m = true -> part_ok s = true ->
         part_whole h = true -> part_whole m = true -> part_whole s = true ->
         eqb_ci uh "h" = true -> eqb_ci um "m" = true -> eqb_ci us "s" = true ->
         trim input = unit_text h m s uh um us ->
         0 < 3600 * part_value h + 60 * part_value m + part_value s ->
         3600 * part_value h + 60 * part_value m + part_value s < inject_Z (2 ^ 53) ->
         yields (parseTimeToSeconds input)
                (3600 * part_value h + 60 * part_value m + part_value s))
  /\ (forall (input : jsstring) (m s : decimal) (mm ss : Q),
         decimal_ok m = true -> decimal_ok s = true ->
         trim input = decimal_text m ++ ":"%char :: decimal_text s ->
         round64 (decimal_value m) = Fin mm -> round64 (decimal_value s) = Fin ss ->
         parseTimeToSeconds input = Return (nadd (nmul (Fin mm) (Fin 60)) (Fin ss)))
  /\ (forall (input : jsstring) (h m s : decimal) (hh mm ss : Q),
         decimal_ok h = true -> decimal_ok m = true -> decimal_ok s = true ->
         trim input
         = decimal_text h ++ ":"%char :: decimal_text m ++ ":"%char :: decimal_text s ->
         round64 (decimal_value h) = Fin hh ->
         round64 (decimal_value m) = Fin mm -> round64 (decimal_value s) = Fin ss ->
         parseTimeToSeconds input
         = Return (nadd (nadd (nmul (Fin hh) (Fin 3600)) (nmul (Fin mm) (Fin 60)))
                        (Fin ss)))
  /\ (forall (input : jsstring) (m s : decimal),
         decimal_ok m = true -> decimal_ok s = true ->
         whole m = true -> whole s = true ->
         trim input = decimal_text m ++ ":"%char :: decimal_text s ->
         60 * decimal_value m + decimal_value s < inject_Z (2 ^ 53) ->
         yields (parseTimeToSeconds input) (60 * decimal_value m + decimal_value s))
  /\ (forall (input : jsstring) (h m s : decimal),
         decimal_ok h = true -> decimal_ok m = true -> decimal_ok s = true ->
         whole h = true -> whole m = true -> whole s = true ->
         trim input
         = decimal_text h ++ ":"%char :: decimal_text m ++ ":"%char :: decimal_text s ->
         3600 * decimal_value h + 60 * decimal_value m + decimal_value s
         < inject_Z (2 ^ 53) ->
         yields (parseTimeToSeconds input)
                (3600 * decimal_value h + 60 * decimal_value m + decimal_value s))
  /\ yields (parseTimeToSeconds (str "1h2m3s")) 3723
  /\ yields (parseTimeToSeconds (str "2:10")) 130
  /\ parseTimeToSeconds (str "") = Throw (str "Time is empty").
Proof.
  split; [|split; [|split; [|split; [|split; [|split; [|split; [|split]]]]]]].
  - intros input h m s uh um us Hh Hm Hs Uh Um Us E Hpos.
    exact (unit_expression_value h m s uh um us Hh Hm Hs Uh Um Us input E Hpos).
  - intros input h m s uh um us Hh Hm Hs Wh Wm Ws Uh Um Us E Hpos Hlt.
    destruct (part_whole_value_spec h Hh Wh) as [Ph Vh].
    destruct (part_whole_value_spec m Hm Wm) as [Pm Vm].
    destruct (part_whole_value_spec s Hs Ws) as [Ps Vs].
    set (a := part_whole_value h) in *. set (b := part_whole_value m) in *.
    set (c := part_whole_value s) in *.
    assert (Esum : 3600 * part_value h + 60 * part_value m + part_value s
                   == inject_Z (3600 * a + 60 * b + c)).
    { rewrite Vh, Vm, Vs, !inject_Z_plus, !inject_Z_mult. reflexivity. }
    rewrite Esum in Hpos, Hlt.
    apply yields_eq with (a := inject_Z (3600 * a + 60 * b + c));
      [|symmetry; exact Esum].
    change 0 with (inject_Z 0) in Hpos.
    rewrite <- Zlt_Qlt in Hpos, Hlt.
    assert (Etotal : unit_sum (round64 (part_value h)) (round64 (part_value m))
                       (round64 (part_value s))
                     = Fin (inject_Z (3600 * a + 60 * b + c))).
    { rewrite (round64_whole _ a Vh), (round64_whole _ b Vm), (round64_whole _ c Vs)
        by lia.
      apply unit_sum_Z; lia. }
    rewrite (unit_expression_value h m s uh um us Hh Hm Hs Uh Um Us input E).
    + fold (unit_sum (round64 (part_value h)) (round64 (part_value m))
                     (round64 (part_value s))).
      rewrite Etotal. cbn [yields]. reflexivity.
    + rewrite Etotal. apply ngt_zero.
      change 0 with (inject_Z 0). rewrite <- Zlt_Qlt. exact Hpos.
  - intros input m s mm ss Hm Hs E Rm Rs.
    exact (clock2_decimal input m s mm ss Hm Hs E Rm Rs).
  - intros input h m s hh mm ss Hh Hm Hs E Rh Rm Rs.
    exact (clock3_decimal input h m s hh mm ss Hh Hm Hs E Rh Rm Rs).
  - intros input m s Hm Hs Wm Ws E Hlt.
    destruct (whole_value_spec m Hm Wm) as [Pm Vm].
    destruct (whole_value_spec s Hs Ws) as [Ps Vs].
    set (b := whole_value m) in *. set (c := whole_value s) in *.
    assert (Esum : 60 * decimal_value m + decimal_value s == inject_Z (60 * b + c)).
    { rewrite Vm, Vs, !inject_Z_plus, !inject_Z_mult. reflexivity. }
    rewrite Esum in Hlt. rewrite <- Zlt_Qlt in Hlt.
    apply yields_eq with (a := inject_Z (60 * b + c)); [|symmetry; exact Esum].
    rewrite (clock2_decimal input m s (inject_Z b) (inject_Z c) Hm Hs E)
      by (apply round64_whole; [assumption|lia]).
    rewrite clock_sum2_Z by lia. cbn [yields]. reflexivity.
  - intros input h m s Hh Hm Hs Wh Wm Ws E Hlt.
    destruct (whole_value_spec h Hh Wh) as [Ph Vh].
    destruct (whole_value_spec m Hm Wm) as [Pm Vm].
    destruct (whole_value_spec s Hs Ws) as [Ps Vs].
    set (a := whole_value h) in *. set (b := whole_value m) in *.
    set (c := whole_value s) in *.
    assert (Esum : 3600 * decimal_value h + 60 * decimal_value m + decimal_value s
                   == inject_Z (3600 * a + 60 * b + c)).
    { rewrite Vh, Vm, Vs, !inject_Z_plus, !inject_Z_mult. reflexivity. }
    rewrite Esum in Hlt. rewrite <- Zlt_Qlt in Hlt.
    apply yields_eq with (a := inject_Z (3600 * a + 60 * b + c));
      [|symmetry; exact Esum].
    rewrite (clock3_decimal input h m s (inject_Z a) (inject_Z b) (inject_Z c)
               Hh Hm Hs E)
      by (apply round64_whole; [assumption|lia]).
    rewrite clock_sum3_Z by lia. cbn [yields]. reflexivity.
  - vm_compute. reflexivity.
  - vm_compute. reflexivity.
  - reflexivity.
Qed.

(** The first part of C7 at ["1.5h30m"]: 1.5 hours and 30 minutes. *)
Lemma parse_value_of_expressions_witness :
  parseTimeToSeconds (str "1.5h30m") = Return (Fin 7200).
Proof.
  rewrite (proj1 parse_value_of_expressions (str "1.5h30m")
             (Some (dec "1" (Some "5"%string))) (Some (dec "30" None)) None
             "h"%char "m"%char "s"%char);
    vm_compute; reflexivity.
Defined.

(** C8 (counterexample).  36028797018964024 is a non-negative integer and
    a binary64 value; it is formatted as ["10007999171934:27:04"], that
    text is read back as 36028797018964016, and this is formatted as
    ["10007999171934:26:56"]. *)
Lemma reformat_large_integer :
  round64 (inject_Z 36028797018964024) = Fin (inject_Z 36028797018964024)
  /\ secondsToHms (Fin (inject_Z 36028797018964024)) = str "10007999171934:27:04"
  /\ parseTimeToSeconds (str "10007999171934:27:04")
     = Return (Fin (inject_Z 36028797018964016))
  /\ secondsToHms (Fin (inject_Z 36028797018964016)) = str "10007999171934:26:56".
Proof. repeat split; vm_compute; reflexivity. Qed.

(** C8 (amended).  For every integer [n] with [0 <= n < 2^53], parsing
    [secondsToHms n] gives [n] back and formatting it gives
    [secondsToHms n] again; a negative input is formatted as zero; the
    output depends only on the floor of the input; when that floor is
    below 2^53 the output is the three fields hours, minutes and seconds
    of the clamped floor, each of at least two digits, a value below ten
    being written with a leading zero; 3723 gives ["01:02:03"] and -5
    gives ["00:00:00"]. *)
Theorem secondsToHms_reformat :
  (forall n : Z, (0 <= n < 2 ^ 53)%Z ->
      exists v, parseTimeToSeconds (secondsToHms (Fin (inject_Z n))) = Return v
                /\ v = Fin (inject_Z n)
                /\ secondsToHms v = secondsToHms (Fin (inject_Z n)))
  /\ (forall q : Q, q < 0 -> secondsToHms (Fin q) = str "00:00:00")
  /\ (forall q : Q, secondsToHms (Fin q) = secondsToHms (Fin (inject_Z (Qfloor q))))
  /\ (forall q : Q, (Z.max 0 (Qfloor q) < 2 ^ 53)%Z ->
         secondsToHms (Fin q)
         = pad2 (Z.max 0 (Qfloor q) / 3600)
           ++ ":"%char :: pad2 (Z.max 0 (Qfloor q) mod 3600 / 60)
           ++ ":"%char :: pad2 (Z.max 0 (Qfloor q) mod 60))
  /\ (forall n : Z, (0 <= n)%Z ->
         (2 <= List.length (pad2 n))%nat /\ all_digits (pad2 n) = true
         /\ digits_value (pad2 n) = n
         /\ ((n < 10)%Z -> pad2 n = ["0"%char; digit_char n]))
  /\ secondsToHms (Fin 3723) = str "01:02:03"
  /\ secondsToHms (Fin (-5)) = str "00:00:00".
Proof.
  split; [|split; [|split; [|split; [|split; [|split]]]]].
  - intros n Hn.
    assert (E : clamp_floor (inject_Z n) = n).
    { unfold clamp_floor. rewrite Qfloor_Z. lia. }
    pose proof (parse_secondsToHms (inject_Z n)) as H.
    rewrite E in H. specialize (H ltac:(lia)).
    exists (Fin (inject_Z n)). now repeat split.
  - intros q Hq.
    assert (Hf : (Qfloor q < 0)%Z).
    { destruct (Z.lt_ge_cases (Qfloor q) 0) as [Hlt|Hge]; [exact Hlt|exfalso].
      pose proof (Qfloor_le q) as Hfl.
      assert (H0 : 0 <= inject_Z (Qfloor q)).
      { change 0 with (inject_Z 0). rewrite <- Zle_Qle. exact Hge. }
      apply (Qlt_irrefl 0).
      apply Qle_lt_trans with (y := q); [|exact Hq].
      apply Qle_trans with (y := inject_Z (Qfloor q)); assumption. }
    assert (E : clamp_floor q = 0%Z) by (unfold clamp_floor; lia).
    rewrite secondsToHms_text; rewrite E; [reflexivity|reflexivity].
  - exact secondsToHms_floor.
  - exact secondsToHms_text.
  - intros n Hn. destruct (pad2_spec n Hn) as [Hd Hv].
    destruct (String_of_int_spec n Hn) as [Sd Sv].
    repeat split; try assumption.
    + unfold pad2, padStart0. rewrite length_app, repeat_length. lia.
    + intros Hlt. revert n Hn Hd Hv Sd Sv Hlt.
      intros n Hn _ _ _ _ Hlt. assert (B : (0 <= n < 10)%Z) by lia. clear Hn Hlt.
      revert n B. apply below_ten. intros k Hk.
      do 10 (destruct k as [|k]; [reflexivity|]). lia.
  - vm_compute. reflexivity.
  - vm_compute. reflexivity.
Qed.

(** The first part of C8 at [n = 3723]. *)
Lemma secondsToHms_reformat_witness :
  exists v, parseTimeToSeconds (secondsToHms (Fin (inject_Z 3723))) = Return v
            /\ v = Fin (inject_Z 3723)
            /\ secondsToHms v = secondsToHms (Fin (inject_Z 3723)).
Proof. apply (proj1 secondsToHms_reformat 3723%Z). lia. Defined.

(** C10.  A clock expression of two or three fields, each read by
    [parseFloat] as a finite number, is evaluated by the field arithmetic
    [mm * 60 + ss] or [hh * 3600 + mm * 60 + ss] on the numbers read,
    whatever the size of the fields; for whole-number fields with a sum
    below 2^53 the result is that sum exactly; ["90:00"] gives 5400,
    ["1:90"] gives 150, and a fractional field is accepted. *)
Theorem parse_clock_unrestricted :
  (forall (input f1 f2 : jsstring) (mm ss : Q),
      trim input = f1 ++ ":"%char :: f2 ->
      no_colon f1 = true -> no_colon f2 = true ->
      trim f1 <> [] -> trim f2 <> [] ->
      parseFloat (trim f1) = Fin mm -> parseFloat (trim f2) = Fin ss ->
      parseTimeToSeconds input = Return (nadd (nmul (Fin mm) (Fin 60)) (Fin ss)))
  /\ (forall (input f1 f2 f3 : jsstring) (hh mm ss : Q),
         trim input = f1 ++ ":"%char :: f2 ++ ":"%char :: f3 ->
         no_colon f1 = true -> no_colon f2 = true -> no_colon f3 = true ->
         trim f1 <> [] -> trim f2 <> [] -> trim f3 <> [] ->
         parseFloat (trim f1) = Fin hh -> parseFloat (trim f2) = Fin mm ->
         parseFloat (trim f3) = Fin ss ->
         parseTimeToSeconds input
         = Return (nadd (nadd (nmul (Fin hh) (Fin 3600)) (nmul (Fin mm) (Fin 60)))
                        (Fin ss)))
  /\ (forall (input f1 f2 : jsstring) (mm ss : Z),
         trim input = f1 ++ ":"%char :: f2 ->
         no_colon f1 = true -> no_colon f2 = true ->
         trim f1 <> [] -> trim f2 <> [] ->
         parseFloat (trim f1) = Fin (inject_Z mm) ->
         parseFloat (trim f2) = Fin (inject_Z ss) ->
         (0 <= mm)%Z -> (0 <= ss)%Z -> (60 * mm + ss < 2 ^ 53)%Z ->
         parseTimeToSeconds input = Return (Fin (inject_Z (60 * mm + ss))))
  /\ (forall (input f1 f2 f3 : jsstring) (hh mm ss : Z),
         trim input = f1 ++ ":"%char :: f2 ++ ":"%char :: f3 ->
         no_colon f1 = true -> no_colon f2 = true -> no_colon f3 = true ->
         trim f1 <> [] -> trim f2 <> [] -> trim f3 <> [] ->
         parseFloat (trim f1) = Fin (inject_Z hh) ->
         parseFloat (trim f2) = Fin (inject_Z mm) ->
         parseFloat (trim f3) = Fin (inject_Z ss) ->
         (0 <= hh)%Z -> (0 <= mm)%Z -> (0 <= ss)%Z ->
         (3600 * hh + 60 * mm + ss < 2 ^ 53)%Z ->
         parseTimeToSeconds input = Return (Fin (inject_Z (3600 * hh + 60 * mm + ss))))
  /\ yields (parseTimeToSeconds (str "90:00")) 5400
  /\ yields (parseTimeToSeconds (str "1:90")) 150
  /\ yields (parseTimeToSeconds (str "1.5:30")) 120.
Proof.
  split; [exact clock2_eval|]. split; [exact clock3_eval|].
  split; [|split].
  - intros input f1 f2 mm ss E C1 C2 N1 N2 P1 P2 Hm Hs Hlt.
    rewrite (clock2_eval input f1 f2 _ _ E C1 C2 N1 N2 P1 P2).
    now rewrite clock_sum2_Z.
  - intros input f1 f2 f3 hh mm ss E C1 C2 C3 N1 N2 N3 P1 P2 P3 Hh Hm Hs Hlt.
    rewrite (clock3_eval input f1 f2 f3 _ _ _ E C1 C2 C3 N1 N2 N3 P1 P2 P3).
    now rewrite clock_sum3_Z.
  - split; [vm_compute; reflexivity|].
    split; vm_compute; reflexivity.
Qed.

(** The first part of C10 at ["75:90.5"]: 75 * 60 + 90.5 = 4590.5. *)
Lemma parse_clock_unrestricted_witness :
  parseTimeToSeconds (str "75:90.5") = Return (Fin (9181 # 2)).
Proof.
  rewrite (proj1 parse_clock_unrestricted (str "75:90.5") (str "75") (str "90.5")
             75 (181 # 2));
    try (vm_compute; reflexivity); vm_compute; discriminate.
Defined.
(* ================================================================== *)
(** * The orchestrator: the specification's properties *)
(* ================================================================== *)


(** C2 (the code at the failing input).  With [timeoutMs = 3000000000]
    the budget of the specification is max(10 s, 3000000000 ms), that is
    3000000000 ms.  [Math.max] does return 3000000000, but [setTimeout]
    takes no delay above 2147483647 and arms the timer with 1 ms: a tool
    that would end with code 0 after 1.5 s is sent SIGKILL before it has
    written anything, and the call fails with the timeout marker.  With
    [timeoutMs = 2000000000] the same tool is left to finish and the clip
    is returned. *)
Theorem downloadClip_timeout_beyond_limit :
  nmax (Fin 10000) (Fin 3000000000) = Fin 3000000000
  /\ timer_delay (Some (Fin 3000000000)) = 1%Z
  /\ supervise (timer_delay (Some (Fin 3000000000))) (behaviour Demo.mkv_tool) spawned
     = (Return (-1)%Z,
        {| s_stdout := []; s_stderr := timeout_marker; killedByTimeout := true;
           timer_armed := false; sent := [SIGKILL] |})
  /\ fst (downloadClip Posix.platform Posix.no_env 0 Demo.mkv_tool
            (Demo.clip_options (Some (Fin 3000000000))) Demo.empty_world)
     = Throw timeout_text
  /\ timer_delay (Some (Fin 2000000000)) = 2000000000%Z
  /\ fst (downloadClip Posix.platform Posix.no_env 0 Demo.mkv_tool
            (Demo.clip_options (Some (Fin 2000000000))) Demo.empty_world)
     = Return {| outputPath := str "/tmp/aiclips/clip.mkv";
                 stdout := str "done"; stderr := [] |}.
Proof. repeat split; vm_compute; reflexivity. Qed.

(** C3.  When the tool exits with code 0, the produced file is the first
    extension of mp4, mkv, webm, mov, m4a, mp3 whose path exists; failing
    them all, the first entry of the output directory that starts with
    [basename.]; failing that too, the call throws "Clip produced no
    output file".  With [basename.mkv] there and [basename.mp4] not, the
    result is the path of [basename.mkv]. *)
Theorem downloadClip_resolves_output (pf : Platform) (env : ProcessEnv) (now : Z)
    (tool : Tool) (opts : ClipOptions) (w : World) (d1 : Disk) (run : Supervision) :
  nle (endSeconds opts) (startSeconds opts) = false ->
  fs_mkdir (disk w) (tmpRoot pf opts) = Return d1 ->
  supervise (timer_delay (timeoutMs opts)) (behaviour tool) spawned = (Return 0%Z, run) ->
  let dir := path_dirname pf (outputPathWithoutExt pf now opts) in
  let base := path_basename pf (outputPathWithoutExt pf now opts) in
  let exists_ := fun e => fs_access (leaves tool d1) (path_join pf dir (base ++ e)) in
  let found := fun p =>
    fst (downloadClip pf env now tool opts w)
    = Return {| outputPath := p; stdout := s_stdout run; stderr := s_stderr run |} in
  extensions = [str ".mp4"; str ".mkv"; str ".webm"; str ".mov"; str ".m4a"; str ".mp3"]
  /\ (forall pre e post,
         extensions = pre ++ e :: post ->
         (forall x, In x pre -> exists_ x = false) -> exists_ e = true ->
         found (path_join pf dir (base ++ e)))
  /\ (forall entries before entry after,
         (forall x, In x extensions -> exists_ x = false) ->
         fs_readdir pf (leaves tool d1) dir = Return entries ->
         entries = before ++ entry :: after ->
         (forall x, In x before -> startsWith (base ++ str ".") x = false) ->
         startsWith (base ++ str ".") entry = true ->
         found (path_join pf dir entry))
  /\ (forall entries,
         (forall x, In x extensions -> exists_ x = false) ->
         fs_readdir pf (leaves tool d1) dir = Return entries ->
         (forall x, In x entries -> startsWith (base ++ str ".") x = false) ->
         fst (downloadClip pf env now tool opts w)
         = Throw (str "Clip produced no output file"))
  /\ (exists_ (str ".mp4") = false -> exists_ (str ".mkv") = true ->
      found (path_join pf dir (base ++ str ".mkv"))).
Proof.
  intros Hrange Hmk Hrun dir base exists_ found.
  assert (Hdl : forall r,
    findProducedFile pf (leaves tool d1) dir base = r ->
    fst (downloadClip pf env now tool opts w)
    = match r with
      | Throw e => Throw e
      | Return None => Throw (str "Clip produced no output file")
      | Return (Some p) =>
          Return {| outputPath := p; stdout := s_stdout run; stderr := s_stderr run |}
      end).
  { intros r Hr. unfold downloadClip. rewrite Hrange, Hmk, Hrun. cbn [negb Z.eqb].
    cbn [spawn with_disk disk]. fold dir base. rewrite Hr.
    destruct r as [[p|]|e]; reflexivity. }
  assert (Hprobe : forall pre e post,
    extensions = pre ++ e :: post ->
    (forall x, In x pre -> exists_ x = false) -> exists_ e = true ->
    found (path_join pf dir (base ++ e))).
  { intros pre e post E Hpre He. unfold found.
    now rewrite (Hdl _ (probe_hit pf _ dir base pre e post E Hpre He)). }
  split; [reflexivity|]. split; [exact Hprobe|]. split; [|split].
  - intros entries l1 n l2 Hmiss Hdir E Hl1 Hn. unfold found.
    rewrite (Hdl _ (probe_miss_scan pf _ dir base entries Hmiss Hdir)).
    now rewrite E, (find_first (fun x => startsWith (base ++ str ".") x) l1 n l2 Hl1 Hn).
  - intros entries Hmiss Hdir Hnone.
    rewrite (Hdl _ (probe_miss_scan pf _ dir base entries Hmiss Hdir)).
    now rewrite (find_nothing (fun x => startsWith (base ++ str ".") x) entries Hnone).
  - intros Hmp4 Hmkv.
    apply (Hprobe [str ".mp4"] (str ".mkv") [str ".webm"; str ".mov"; str ".m4a"; str ".mp3"]);
      [reflexivity| |exact Hmkv].
    intros x [<-|[]]. exact Hmp4.
Qed.

(** C3 at a tool that leaves only [clip.mkv]. *)
Lemma downloadClip_resolves_output_witness :
  fst (downloadClip Posix.platform Posix.no_env 0 Demo.mkv_tool
         (Demo.clip_options None) Demo.empty_world)
  = Return {| outputPath := str "/tmp/aiclips/clip.mkv";
              stdout := str "done"; stderr := [] |}.
Proof.
  refine (proj2 (proj2 (proj2 (proj2
            (downloadClip_resolves_output Posix.platform Posix.no_env 0
               Demo.mkv_tool (Demo.clip_options None) Demo.empty_world
               [(str "/tmp/aiclips", Dir)]
               {| s_stdout := str "done"; s_stderr := [];
                  killedByTimeout := false; timer_armed := false; sent := [] |}
               _ _ _)))) _ _);
    vm_compute; reflexivity.
Defined.

(* ================================================================== *)
(** * The request handlers: the specification's properties *)
(* ================================================================== *)

(** C1 (the code at the failing input).  The specification has the staged
    credential file deleted when the request finishes, success or failure.
    A POST request with a cookie jar whose extraction fails (the tool exits
    with code 1) is answered 500 from the [catch] block, which deletes
    nothing: the cookie file written for the request is still on disk. *)
Theorem failed_extraction_keeps_cookie_file :
  fs_access (disk Demo.empty_world) Demo.cookie_file = false
  /\ status (fst (post_clip Posix.platform Posix.web Posix.no_env
                    (Demo.request_env Demo.failing_tool Finished)
                    Demo.body_with_cookies Demo.empty_world)) = 500%Z
  /\ lookup (disk (snd (post_clip Posix.platform Posix.web Posix.no_env
                          (Demo.request_env Demo.failing_tool Finished)
                          Demo.body_with_cookies Demo.empty_world)))
            Demo.cookie_file = Some File.
Proof. vm_compute. repeat split. Qed.

(** C9 as stated fails: a POST request for another host whose body the
    schema rejects (format ["avi"]) is answered 500, not 400. *)
Lemma off_list_invalid_body_answered_500 :
  isYouTubeUrl Posix.web (str "https://example.com/v") = false
  /\ b_url Demo.body_other_host_bad_format
     = Some (JString (str "https://example.com/v"))
  /\ status (fst (post_clip Posix.platform Posix.web Posix.no_env
                    (Demo.request_env Demo.serving_tool Finished)
                    Demo.body_other_host_bad_format Demo.empty_world)) = 500%Z.
Proof. vm_compute. repeat split. Qed.

(** C9, amended.  A request that passes the schema and whose URL has no
    host on the allow-list is answered 400 with the machine untouched, by
    the POST and by the GET handler; and whether or not it passes the
    schema, a request whose URL has no host on the allow-list spawns no
    process. *)
Theorem off_list_request_rejected (pf : Platform) (web : Web) (env : ProcessEnv)
    (r : RequestEnv) (w : World) :
  status not_youtube = 400%Z
  /\ (forall body parsed,
         ClipRequestSchema_parse web body = Return parsed ->
         off_list web (r_url parsed) ->
         post_clip pf web env r body w = (not_youtube, w))
  /\ (forall query,
         zod_url web (or_default (q_url query) []) = true ->
         off_list web (or_default (q_url query) []) ->
         get_clip pf web env r query w = (not_youtube, w))
  /\ (forall body u,
         b_url body = Some (JString u) -> off_list web u ->
         spawns (snd (post_clip pf web env r body w)) = spawns w)
  /\ (forall query,
         off_list web (or_default (q_url query) []) ->
         spawns (snd (get_clip pf web env r query w)) = spawns w).
Proof.
  assert (Hpost : forall body parsed,
            ClipRequestSchema_parse web body = Return parsed ->
            off_list web (r_url parsed) ->
            post_clip pf web env r body w = (not_youtube, w)).
  { intros body parsed Hp Hoff. unfold post_clip.
    now rewrite Hp, (off_list_rejected web _ Hoff). }
  assert (Hget : forall query,
            zod_url web (or_default (q_url query) []) = true ->
            off_list web (or_default (q_url query) []) ->
            get_clip pf web env r query w = (not_youtube, w)).
  { intros query Hz Hoff. unfold get_clip, ClipRequestSchema_parse.
    cbn [z_string z_optional_nonempty z_format b_url b_start b_end
         b_cookieHeader b_cookiesTxtBase64 b_format].
    rewrite Hz. cbn [r_url]. now rewrite (off_list_rejected web _ Hoff). }
  split; [reflexivity|]. split; [exact Hpost|]. split; [exact Hget|]. split.
  - intros body u Hu Hoff.
    destruct (ClipRequestSchema_parse web body) as [parsed|e] eqn:Hp.
    + destruct (schema_keeps_url web body parsed Hp) as [Hu' _].
      rewrite Hu in Hu'. inversion Hu'; subst.
      now rewrite (Hpost body parsed Hp Hoff).
    + unfold post_clip. now rewrite Hp.
  - intros query Hoff.
    destruct (zod_url web (or_default (q_url query) [])) eqn:Hz.
    + now rewrite (Hget query Hz Hoff).
    + unfold get_clip, ClipRequestSchema_parse.
      cbn [z_string z_optional_nonempty z_format b_url b_start b_end
           b_cookieHeader b_cookiesTxtBase64 b_format].
      now rewrite Hz.
Qed.

Definition body_other_host : Body :=
  {| b_url := Demo.field "https://example.com/v";
     b_start := Demo.field "0"; b_end := Demo.field "10";
     b_cookieHeader := None; b_cookiesTxtBase64 := None; b_format := None |}.

Lemma example_com_off_list : off_list Posix.web (str "https://example.com/v").
Proof.
  intros host E. vm_compute in E. inversion E; subst. clear E.
  intros [[H|[sub H]]|[H|[sub H]]]; try discriminate H.
  - apply (f_equal (@rev ascii)) in H. rewrite rev_app_distr in H.
    vm_compute in H. discriminate H.
  - apply (f_equal (@rev ascii)) in H. rewrite rev_app_distr in H.
    vm_compute in H. discriminate H.
Qed.

(** The amended C9 at a well-formed POST body for [example.com]. *)
Lemma off_list_request_rejected_witness :
  post_clip Posix.platform Posix.web Posix.no_env
    (Demo.request_env Demo.serving_tool Finished) body_other_host Demo.empty_world
  = (not_youtube, Demo.empty_world).
Proof.
  refine (proj1 (proj2 (off_list_request_rejected Posix.platform Posix.web
            Posix.no_env (Demo.request_env Demo.serving_tool Finished)
            Demo.empty_world))
          body_other_host
          {| r_url := str "https://example.com/v"; r_start := str "0";
             r_end := str "10"; r_cookieHeader := None;
             r_cookiesTxtBase64 := None; r_format := mp4 |} _ _).
  - vm_compute. reflexivity.
  - exact example_com_off_list.
Defined.

(* ================================================================== *)
(** * Further properties of src/utils/time.ts *)
(* ================================================================== *)

(** ** What the grammar [\d+(?:\.\d+)?] accepts *)

Lemma match_decimal_shape (s d rest : jsstring) :
  match_decimal s = Some (d, rest) ->
  exists x, decimal_ok x = true /\ d = decimal_text x.
Proof.
  unfold match_decimal.
  destruct (span is_digit s) as [ip r1] eqn:E1.
  apply span_spec in E1 as [-> Hip].
  destruct ip as [|i ip]; [discriminate|].
  assert (Hi : all_digits (i :: ip) = true) by (unfold all_digits; now rewrite Hip).
  destruct (strip "." r1) as [r2|] eqn:Es.
  - destruct (span is_digit r2) as [fp r3] eqn:E2.
    apply span_spec in E2 as [-> Hfp].
    destruct fp as [|f fp]; intros H; inversion H; subst.
    + exists {| int_part := i :: ip; frac_part := None |}.
      unfold decimal_ok, decimal_text. simpl frac_part. simpl int_part.
      now rewrite Hi, app_nil_r.
    + exists {| int_part := i :: ip; frac_part := Some (f :: fp) |}.
      unfold decimal_ok, decimal_text, all_digits in *. simpl frac_part. simpl int_part.
      rewrite Hi, Hfp. split; reflexivity.
  - intros H; inversion H; subst.
    exists {| int_part := i :: ip; frac_part := None |}.
    unfold decimal_ok, decimal_text. simpl frac_part. simpl int_part.
    now rewrite Hi, app_nil_r.
Qed.

Lemma is_decimal_shape (s : jsstring) :
  is_decimal s = true -> exists x, decimal_ok x = true /\ s = decimal_text x.
Proof.
  unfold is_decimal. destruct (match_decimal s) as [[d [|c rest]]|] eqn:E;
    try discriminate. intros _.
  destruct (match_decimal_shape s d [] E) as (x & Hx & ->).
  exists x. split; [assumption|].
  apply match_decimal_chars in E as (E & _). now rewrite app_nil_r in E.
Qed.


Lemma decimal_value_nonneg (d : decimal) :
  decimal_ok d = true -> 0 <= decimal_value d.
Proof.
  destruct d as [ip fp]. unfold decimal_ok, decimal_value. simpl.
  intros H. apply andb_prop in H as [Hi Hf].
  apply all_digits_inv in Hi as [_ Hi].
  assert (H0 : 0 <= inject_Z (digits_value ip)).
  { change 0 with (inject_Z 0). rewrite <- Zle_Qle. now apply digits_value_nonneg. }
  destruct fp as [f|].
  - apply all_digits_inv in Hf as [_ Hf].
    assert (H1 : 0 <= inject_Z (digits_value f)).
    { change 0 with (inject_Z 0). rewrite <- Zle_Qle. now apply digits_value_nonneg. }
    assert (H2 : 0 < inject_Z (10 ^ Z.of_nat (List.length f))).
    { change 0 with (inject_Z 0). rewrite <- Zlt_Qlt. apply Z.pow_pos_nonneg; lia. }
    rewrite <- (Qplus_0_r 0). apply Qplus_le_compat; [assumption|].
    apply Qle_shift_div_l; [assumption|]. now rewrite Qmult_0_l.
  - now rewrite Qplus_0_r.
Qed.

(** X1.  A bare non-negative decimal, with or without white space around
    it, is read as the binary64 value nearest to that many seconds; a
    whole number below 2^53 is read exactly; in particular ["0"] is
    accepted. *)
Theorem parse_bare_number (input : jsstring) (d : decimal) :
  decimal_ok d = true -> trim input = decimal_text d ->
  parseTimeToSeconds input = Return (round64 (decimal_value d))
  /\ (whole d = true -> (whole_value d < 2 ^ 53)%Z ->
      parseTimeToSeconds input = Return (Fin (inject_Z (whole_value d)))).
Proof.
  intros Hd E.
  assert (H : parseTimeToSeconds input = Return (round64 (decimal_value d))).
  { unfold parseTimeToSeconds. rewrite E.
    destruct (decimal_text_head d Hd) as (c & r & Ec & _).
    replace (truthy (decimal_text d)) with true by now rewrite Ec.
    simpl negb. cbv iota.
    now rewrite (is_decimal_text d Hd), (parseFloat_text d Hd). }
  split; [exact H|].
  intros Hw Hlt. rewrite H.
  destruct (whole_value_spec d Hd Hw) as [Hp Hv].
  f_equal. apply round64_whole; [assumption|lia].
Qed.

Lemma parse_bare_number_witness :
  parseTimeToSeconds (str " 12.25 ") = Return (Fin (49 # 4)).
Proof.
  rewrite (proj1 (parse_bare_number (str " 12.25 ") (dec "12" (Some "25"%string))
                    eq_refl eq_refl)).
  vm_compute. reflexivity.
Defined.

(** X2.  An input of white space only, the empty input included, throws
    "Time is empty". *)
Theorem parse_blank (input : jsstring) :
  forallb is_space input = true ->
  parseTimeToSeconds input = Throw (str "Time is empty").
Proof.
  intros H. unfold parseTimeToSeconds, trim, trimStart.
  now rewrite (drop_while_spaces input H).
Qed.

Lemma parse_blank_witness :
  parseTimeToSeconds [" "%char; "009"%char; " "%char] = Throw (str "Time is empty").
Proof. apply parse_blank. reflexivity. Defined.

(** ** What the unit expression captures *)

Lemma unit_group_shape (u : ascii) (s rest : jsstring) (cap : option jsstring) :
  unit_group u s = (cap, rest) ->
  exists x, part_ok x = true /\ cap = option_map decimal_text x.
Proof.
  unfold unit_group. destruct (match_decimal s) as [[d [|c r]]|] eqn:E.
  - intros H; inversion H. now exists None.
  - destruct (eqb_ci c u); intros H; inversion H; subst; [|now exists None].
    destruct (match_decimal_shape _ _ _ E) as (x & Hx & ->). now exists (Some x).
  - intros H; inversion H. now exists None.
Qed.

Lemma unitMatch_shape (s : jsstring) caps :
  unitMatch s = Some caps ->
  exists h m sec,
    part_ok h = true /\ part_ok m = true /\ part_ok sec = true
    /\ caps = (option_map decimal_text h, option_map decimal_text m,
               option_map decimal_text sec).
Proof.
  unfold unitMatch.
  destruct (unit_group "h" s) as [h s1] eqn:E1.
  destruct (unit_group "m" s1) as [m s2] eqn:E2.
  destruct (unit_group "s" s2) as [sec s3] eqn:E3.
  destruct s3; [|discriminate]. intros H; inversion H; subst.
  apply unit_group_shape in E1 as (xh & Hh & ->).
  apply unit_group_shape in E2 as (xm & Hm & ->).
  apply unit_group_shape in E3 as (xs & Hs & ->).
  now exists xh, xm, xs.
Qed.

Lemma part_value_nonneg (d : option decimal) :
  part_ok d = true -> 0 <= part_value d.
Proof.
  destruct d as [d|]; [apply decimal_value_nonneg|]. intros _. apply Qle_refl.
Qed.

Lemma unit_branch_nonneg (t : jsstring) (total : number) :
  unit_branch t = Some total -> nonneg total.
Proof.
  unfold unit_branch. destruct (unitMatch t) as [caps|] eqn:E; [|discriminate].
  destruct (unitMatch_shape t caps E) as (h & m & s & Hh & Hm & Hs & ->).
  rewrite (unit_total_value h m s Hh Hm Hs).
  destruct (ngt _ (Fin 0)); [|discriminate].
  intros H; inversion H; subst. unfold unit_sum.
  repeat first [ apply nadd_nonneg | apply nmul_nonneg; [reflexivity|]
               | apply round64_nonneg, part_value_nonneg; assumption ].
Qed.

(** The digit 1 followed by 309 zeros. *)
Definition digit_one_and_zeros : jsstring := "1"%char :: repeat "0"%char 309.

(** X3.  When the trimmed input holds no colon, the number the parser
    returns is never [NaN] and never negative: it is a finite number that
    is at least 0, or [Infinity], which a number of 310 digits gives.  An
    input with a colon can give [NaN]. *)
Theorem parse_result_not_negative :
  (forall (input : jsstring) (v : number),
      parseTimeToSeconds input = Return v ->
      includes ":" (trim input) = false -> nonneg v)
  /\ parseTimeToSeconds digit_one_and_zeros = Return (Infinity false)
  /\ parseTimeToSeconds (str "1e308:-1e308:0") = Return NaN.
Proof.
  split; [|split; vm_compute; reflexivity].
  intros input v. unfold parseTimeToSeconds.
  destruct (negb (truthy (trim input))); [discriminate|].
  destruct (is_decimal (trim input)) eqn:D.
  - destruct (is_decimal_shape _ D) as (x & Hx & E). rewrite E.
    rewrite (parseFloat_text x Hx). intros H _; inversion H; subst.
    now apply round64_nonneg, decimal_value_nonneg.
  - destruct (unit_branch (trim input)) as [total|] eqn:U.
    + intros H _; inversion H; subst. exact (unit_branch_nonneg _ _ U).
    + intros H Hc. unfold clock in H. rewrite Hc in H. discriminate.
Qed.

Lemma parse_result_not_negative_witness :
  nonneg (Fin (3 # 2)).
Proof.
  apply (proj1 parse_result_not_negative (str "1.5")); vm_compute; reflexivity.
Defined.

(** X4.  A compound unit expression whose total is zero, such as ["0s"] or
    ["0h0m"], is not accepted: the parser throws "Unsupported time format"
    with the input as given. *)
Theorem parse_zero_units_rejected (input : jsstring) (h m s : option decimal)
    (uh um us : ascii) :
  part_ok h = true -> part_ok m = true -> part_ok s = true ->
  eqb_ci uh "h" = true -> eqb_ci um "m" = true -> eqb_ci us "s" = true ->
  trim input = unit_text h m s uh um us ->
  unit_text h m s uh um us <> [] ->
  3600 * part_value h + 60 * part_value m + part_value s == 0 ->
  parseTimeToSeconds input = Throw (str "Unsupported time format: " ++ input).
Proof.
  intros Hh Hm Hs Uh Um Us E Hne Hz.
  apply (unit_expression_rejected input h m s uh um us); try assumption.
  pose proof (part_value_nonneg h Hh) as Ph.
  pose proof (part_value_nonneg m Hm) as Pm.
  pose proof (part_value_nonneg s Hs) as Ps.
  assert (Zh : part_value h == 0) by lra.
  assert (Zm : part_value m == 0) by lra.
  assert (Zs : part_value s == 0) by lra.
  now rewrite (round64_Qeq _ _ Zh), (round64_Qeq _ _ Zm), (round64_Qeq _ _ Zs).
Qed.

Lemma parse_zero_units_rejected_witness :
  parseTimeToSeconds (str "0h0.0s") = Throw (str "Unsupported time format: 0h0.0s").
Proof.
  apply (parse_zero_units_rejected (str "0h0.0s")
           (Some (dec "0" None)) None (Some (dec "0" (Some "0"%string)))
           "h"%char "m"%char "s"%char);
    try (vm_compute; reflexivity). vm_compute. discriminate.
Defined.

(** X5.  When an input that holds a colon is accepted, its fields, trimmed,
    are two or three, none of them empty, each read by [parseFloat] as a
    finite number, and the result is their field arithmetic, each product
    and sum rounded to binary64. *)
Theorem parse_clock_accepted (input : jsstring) (v : number) :
  includes ":" (trim input) = true ->
  parseTimeToSeconds input = Return v ->
  (exists f1 f2 mm ss,
      map trim (split ":" (trim input)) = [f1; f2]
      /\ f1 <> [] /\ f2 <> []
      /\ parseFloat f1 = Fin mm /\ parseFloat f2 = Fin ss
      /\ v = nadd (nmul (Fin mm) (Fin 60)) (Fin ss))
  \/ (exists f1 f2 f3 hh mm ss,
         map trim (split ":" (trim input)) = [f1; f2; f3]
         /\ f1 <> [] /\ f2 <> [] /\ f3 <> []
         /\ parseFloat f1 = Fin hh /\ parseFloat f2 = Fin mm /\ parseFloat f3 = Fin ss
         /\ v = nadd (nadd (nmul (Fin hh) (Fin 3600)) (nmul (Fin mm) (Fin 60)))
                     (Fin ss)).
Proof.
  intros Hc. rewrite (parse_colon input Hc). unfold clock. rewrite Hc.
  destruct (existsb _ (map trim (split ":" (trim input)))) eqn:Ex; [discriminate|].
  destruct (map trim (split ":" (trim input))) as [|f1 [|f2 [|f3 [|x l]]]];
    cbn [map]; try discriminate.
  - cbn [existsb] in Ex. apply orb_false_iff in Ex as [N1 Ex].
    apply orb_false_iff in Ex as [N2 _].
    apply truthy_false in N1, N2.
    destruct (parseFloat f1) as [| |a] eqn:P1; try discriminate.
    destruct (parseFloat f2) as [| |b] eqn:P2; try discriminate.
    cbn [isFinite andb]. intros H; inversion H; subst.
    left. exists f1, f2, a, b. now repeat split.
  - cbn [existsb] in Ex. apply orb_false_iff in Ex as [N1 Ex].
    apply orb_false_iff in Ex as [N2 Ex]. apply orb_false_iff in Ex as [N3 _].
    apply truthy_false in N1, N2, N3.
    destruct (parseFloat f1) as [| |a] eqn:P1; try discriminate.
    destruct (parseFloat f2) as [| |b] eqn:P2; try discriminate.
    destruct (parseFloat f3) as [| |c] eqn:P3; try discriminate.
    cbn [isFinite andb]. intros H; inversion H; subst.
    right. exists f1, f2, f3, a, b, c. now repeat split.
Qed.

Lemma parse_clock_accepted_witness :
  exists v,
    parseTimeToSeconds (str "2:10") = Return v
    /\ ((exists f1 f2 mm ss,
            map trim (split ":" (trim (str "2:10"))) = [f1; f2]
            /\ f1 <> [] /\ f2 <> []
            /\ parseFloat f1 = Fin mm /\ parseFloat f2 = Fin ss
            /\ v = nadd (nmul (Fin mm) (Fin 60)) (Fin ss))
        \/ (exists f1 f2 f3 hh mm ss,
               map trim (split ":" (trim (str "2:10"))) = [f1; f2; f3]
               /\ f1 <> [] /\ f2 <> [] /\ f3 <> []
               /\ parseFloat f1 = Fin hh /\ parseFloat f2 = Fin mm
               /\ parseFloat f3 = Fin ss
               /\ v = nadd (nadd (nmul (Fin hh) (Fin 3600)) (nmul (Fin mm) (Fin 60)))
                           (Fin ss))).
Proof.
  eexists. split.
  - vm_compute. reflexivity.
  - apply (parse_clock_accepted (str "2:10")); vm_compute; reflexivity.
Defined.

(** X6.  An input with a colon and a field that is empty or white space
    only is rejected with "Invalid time format", however many fields it
    has. *)
Theorem parse_clock_empty_field (input f : jsstring) :
  includes ":" (trim input) = true ->
  In f (split ":" (trim input)) -> trim f = [] ->
  parseTimeToSeconds input = Throw (str "Invalid time format").
Proof.
  intros Hc Hin Hf. rewrite (parse_colon input Hc). unfold clock. rewrite Hc.
  replace (existsb (fun p => negb (truthy p)) (map trim (split ":" (trim input))))
    with true; [reflexivity|].
  symmetry. apply existsb_exists. exists (trim f). split.
  - now apply in_map.
  - now rewrite Hf.
Qed.

Lemma parse_clock_empty_field_witness :
  parseTimeToSeconds (str "1: :3:4") = Throw (str "Invalid time format").
Proof.
  apply (parse_clock_empty_field (str "1: :3:4") (str " ")).
  - reflexivity.
  - vm_compute. right. left. reflexivity.
  - reflexivity.
Defined.

(** X7.  For every finite input whose floor is below 2^53, the formatted
    text is three zero-padded fields whose minutes and seconds are below 60
    and whose value is max(0, floor input); parsing it gives that value
    back. *)
Theorem secondsToHms_fields (q : Q) :
  (Z.max 0 (Qfloor q) < 2 ^ 53)%Z ->
  (exists h m s : Z,
      secondsToHms (Fin q) = pad2 h ++ ":"%char :: pad2 m ++ ":"%char :: pad2 s
      /\ (0 <= h)%Z /\ (0 <= m < 60)%Z /\ (0 <= s < 60)%Z
      /\ (3600 * h + 60 * m + s = Z.max 0 (Qfloor q))%Z)
  /\ parseTimeToSeconds (secondsToHms (Fin q))
     = Return (Fin (inject_Z (Z.max 0 (Qfloor q)))).
Proof.
  intros Hlt. split; [|exact (parse_secondsToHms q Hlt)].
  rewrite (secondsToHms_text q Hlt). unfold clamp_floor.
  set (x := Z.max 0 (Qfloor q)) in *.
  assert (Hx : (0 <= x)%Z) by (subst x; lia).
  destruct (hms_fields x Hx) as (Hh & Hm & Hs & Esum).
  exists (x / 3600)%Z, ((x mod 3600) / 60)%Z, (x mod 60)%Z.
  split; [reflexivity|]. split; [assumption|].
  pose proof (Z.mod_pos_bound x 3600 ltac:(lia)).
  pose proof (Z.mod_pos_bound x 60 ltac:(lia)).
  repeat split; try assumption; try lia.
  apply Z.div_lt_upper_bound; lia.
Qed.

Lemma secondsToHms_fields_witness :
  parseTimeToSeconds (secondsToHms (Fin (7325 # 2))) = Return (Fin 3662).
Proof.
  rewrite (proj2 (secondsToHms_fields (7325 # 2) eq_refl)). reflexivity.
Defined.

(** X27.  Outside the finite numbers and above 2^53 the formatter prints
    what the arithmetic gives: [NaN] is formatted as ["NaN:NaN:NaN"],
    [Infinity] as ["Infinity:NaN:NaN"], [-Infinity] as ["00:00:00"], and
    10^21 seconds as ["277777777777777800:46:40"], the hours being the
    shortest digits that read back as the binary64 quotient. *)
Theorem secondsToHms_beyond_range :
  secondsToHms NaN = str "NaN:NaN:NaN"
  /\ secondsToHms (Infinity false) = str "Infinity:NaN:NaN"
  /\ secondsToHms (Infinity true) = str "00:00:00"
  /\ round64 (inject_Z (10 ^ 21)) = Fin (inject_Z (10 ^ 21))
  /\ secondsToHms (Fin (inject_Z (10 ^ 21))) = str "277777777777777800:46:40".
Proof. repeat split; vm_compute; reflexivity. Qed.

(** X24.  White space around the input never changes the outcome: two
    inputs that are equal once trimmed are both accepted with the same
    value or both rejected. *)
Theorem parse_ignores_padding (a b : jsstring) :
  trim a = trim b ->
  match parseTimeToSeconds a, parseTimeToSeconds b with
  | Return x, Return y => x = y
  | Throw _, Throw _ => True
  | _, _ => False
  end.
Proof.
  intros E. unfold parseTimeToSeconds. rewrite E.
  destruct (negb (truthy (trim b))); [exact I|].
  destruct (is_decimal (trim b)); [reflexivity|].
  destruct (unit_branch (trim b)); [reflexivity|].
  destruct (clock (trim b)) as [[v|e]|]; [reflexivity|exact I|exact I].
Qed.

Lemma parse_ignores_padding_witness :
  match parseTimeToSeconds (str "  1h30m "), parseTimeToSeconds (str "1h30m") with
  | Return x, Return y => x = y
  | Throw _, Throw _ => True
  | _, _ => False
  end.
Proof. apply parse_ignores_padding. reflexivity. Defined.

(* ================================================================== *)
(** * Further properties of src/services/ytdlp.ts *)
(* ================================================================== *)




(** The tool is quiet until the delay: it only writes output, in time. *)
Definition quiet (delay : Z) (tr : Trace) : bool :=
  forallb (fun te =>
             (fst te <? delay)%Z
             && match snd te with
                | StdoutData _ | StderrData _ => true
                | ErrorEvent _ | CloseEvent _ => false
                end) tr.

Lemma supervise_quiet (delay : Z) (pre tr : Trace) :
  quiet delay pre = true ->
  forall s,
    supervise delay (pre ++ tr) s
    = supervise delay tr
        {| s_stdout := s_stdout s ++ fst (written delay pre);
           s_stderr := s_stderr s ++ snd (written delay pre);
           killedByTimeout := killedByTimeout s;
           timer_armed := timer_armed s;
           sent := sent s |}.
Proof.
  induction pre as [|[t ev] pre IH]; intros H s.
  - simpl. rewrite !app_nil_r. now destruct s.
  - cbn [quiet forallb fst snd] in H. apply andb_prop in H as [H1 H2].
    apply andb_prop in H1 as [Ht Hev]. apply Z.ltb_lt in Ht.
    cbn [app supervise written].
    replace (delay <=? t)%Z with false by (symmetry; apply Z.leb_gt; lia).
    destruct (written delay pre) as [o e] eqn:W.
    destruct ev; try discriminate; rewrite (IH H2); cbn [fst snd];
      unfold on_stdout, on_stderr; cbn [s_stdout s_stderr killedByTimeout timer_armed sent];
      rewrite <- ?app_assoc; reflexivity.
Qed.

(** X9.  A tool that closes before the delay, having only written output
    until then, is never signalled: the result is its exit code (-1 when
    the code is [null]), stdout and stderr are what it wrote, without the
    marker, and the timer is cleared, whatever the trace holds after. *)
Theorem supervise_closed_in_time (delay : Z) (pre : Trace) (t : Z)
    (code : option Z) (rest : Trace) :
  quiet delay pre = true -> (t < delay)%Z ->
  supervise delay (pre ++ (t, CloseEvent code) :: rest) spawned
  = (Return (match code with Some c => c | None => (-1)%Z end),
     {| s_stdout := fst (written delay pre);
        s_stderr := snd (written delay pre);
        killedByTimeout := false; timer_armed := false; sent := [] |}).
Proof.
  intros Hq Ht. rewrite (supervise_quiet delay pre _ Hq). cbn [supervise].
  replace (delay <=? t)%Z with false by (symmetry; apply Z.leb_gt; lia).
  reflexivity.
Qed.

Lemma supervise_closed_in_time_witness :
  supervise 10000 (behaviour Demo.failing_tool) spawned
  = (Return 1%Z,
     {| s_stdout := []; s_stderr := str "ERROR: unavailable";
        killedByTimeout := false; timer_armed := false; sent := [] |}).
Proof.
  apply (supervise_closed_in_time 10000
           [(1200%Z, StderrData (str "ERROR: unavailable"))] 1500 (Some 1%Z) []);
    reflexivity.
Defined.

(** X10.  Supervision always ends with the timer no longer pending, and
    with one of two histories: no signal was sent; or exactly one signal,
    SIGKILL, was sent, the exit code is -1 and stderr ends with the
    marker. *)
Theorem supervise_ends (delay : Z) (tr : Trace) (exit : outcome Z) (run : Supervision) :
  supervise delay tr spawned = (exit, run) ->
  timer_armed run = false
  /\ ((killedByTimeout run = false /\ sent run = [])
      \/ (killedByTimeout run = true /\ sent run = [SIGKILL]
          /\ exit = Return (-1)%Z
          /\ exists e, s_stderr run = e ++ timeout_marker)).
Proof.
  assert (G : forall s, killedByTimeout s = false -> sent s = [] ->
              supervise delay tr s = (exit, run) ->
              timer_armed run = false
              /\ ((killedByTimeout run = false /\ sent run = [])
                  \/ (killedByTimeout run = true /\ sent run = [SIGKILL]
                      /\ exit = Return (-1)%Z
                      /\ exists e, s_stderr run = e ++ timeout_marker))).
  { induction tr as [|[t ev] tr IH]; intros s Hk Hs.
    - cbn [supervise]. unfold expire, on_close, on_timer. cbn. rewrite Hs.
      intros H; inversion H; subst. cbn. split; [reflexivity|]. right.
      repeat split. now exists (s_stderr s).
    - cbn [supervise]. destruct (delay <=? t)%Z.
      + unfold expire, on_close, on_timer. cbn. rewrite Hs.
        intros H; inversion H; subst. cbn. split; [reflexivity|]. right.
        repeat split. now exists (s_stderr s).
      + destruct ev.
        * apply IH; assumption.
        * apply IH; assumption.
        * unfold on_error. intros H; inversion H; subst. cbn.
          split; [reflexivity|]. left. now split.
        * unfold on_close. rewrite Hk. intros H; inversion H; subst. cbn.
          split; [reflexivity|]. left. now split. }
  apply G; reflexivity.
Qed.

Lemma supervise_ends_witness :
  timer_armed (snd (supervise 10000 (behaviour Demo.slow_tool) spawned)) = false.
Proof.
  exact (proj1 (supervise_ends 10000 (behaviour Demo.slow_tool) _ _
                  (surjective_pairing _))).
Defined.

(** X11.  Once the range is valid and the output directory can be made,
    [downloadClip] spawns the tool exactly once, with the argument vector
    of [buildYtDlpArgs] for the output stem (format mp4 unless given), and
    leaves the disk as the tool left it, whether the call then succeeds or
    throws. *)
Theorem downloadClip_spawns_once (pf : Platform) (env : ProcessEnv) (now : Z)
    (tool : Tool) (opts : ClipOptions) (w : World) (d1 : Disk) :
  nle (endSeconds opts) (startSeconds opts) = false ->
  fs_mkdir (disk w) (tmpRoot pf opts) = Return d1 ->
  snd (downloadClip pf env now tool opts w)
  = {| disk := leaves tool d1;
       spawns :=
         spawns w
         ++ [buildYtDlpArgs env
               {| a_url := url opts;
                  a_startSeconds := startSeconds opts;
                  a_endSeconds := endSeconds opts;
                  a_format := match format opts with Some f => f | None => mp4 end;
                  a_cookieHeader := cookieHeader opts;
                  a_cookiesTxtPath := cookiesTxtPath opts;
                  a_userAgent := userAgent opts |}
               (outputPathWithoutExt pf now opts)] |}.
Proof.
  intros Hr Hm. unfold downloadClip. rewrite Hr, Hm.
  destruct (supervise _ _ _) as [[c|e] run]; [|reflexivity].
  destruct (negb (c =? 0)%Z); [reflexivity|].
  destruct (findProducedFile _ _ _ _) as [[p|]|e]; reflexivity.
Qed.

Lemma downloadClip_spawns_once_witness :
  List.length (spawns (snd (downloadClip Posix.platform Posix.no_env 0 Demo.failing_tool
                              (Demo.clip_options None) Demo.empty_world))) = 1%nat.
Proof.
  rewrite (downloadClip_spawns_once Posix.platform Posix.no_env 0 Demo.failing_tool
             (Demo.clip_options None) Demo.empty_world [(str "/tmp/aiclips", Dir)]);
    reflexivity.
Defined.

(** X12.  When the tool cannot be spawned (an [error] event before the
    delay, after output at most), [downloadClip] throws that error's
    message as it is and sends no signal. *)
Theorem downloadClip_spawn_error (pf : Platform) (env : ProcessEnv) (now : Z)
    (tool : Tool) (opts : ClipOptions) (w : World) (d1 : Disk)
    (pre : Trace) (t : Z) (message : jsstring) (rest : Trace) :
  nle (endSeconds opts) (startSeconds opts) = false ->
  fs_mkdir (disk w) (tmpRoot pf opts) = Return d1 ->
  behaviour tool = pre ++ (t, ErrorEvent message) :: rest ->
  quiet (timer_delay (timeoutMs opts)) pre = true ->
  (t < timer_delay (timeoutMs opts))%Z ->
  fst (downloadClip pf env now tool opts w) = Throw message
  /\ sent (snd (supervise (timer_delay (timeoutMs opts)) (behaviour tool) spawned)) = [].
Proof.
  intros Hr Hm Hb Hq Ht.
  assert (Hs : supervise (timer_delay (timeoutMs opts)) (behaviour tool) spawned
               = on_error message
                   {| s_stdout := fst (written (timer_delay (timeoutMs opts)) pre);
                      s_stderr := snd (written (timer_delay (timeoutMs opts)) pre);
                      killedByTimeout := false; timer_armed := true; sent := [] |}).
  { rewrite Hb, (supervise_quiet _ pre _ Hq). cbn [supervise].
    replace (timer_delay (timeoutMs opts) <=? t)%Z with false
      by (symmetry; apply Z.leb_gt; lia).
    reflexivity. }
  split.
  - unfold downloadClip. rewrite Hr, Hm, Hs. reflexivity.
  - rewrite Hs. reflexivity.
Qed.

Definition missing_tool : Tool :=
  {| behaviour := [(2%Z, ErrorEvent (str "spawn yt-dlp ENOENT"))];
     leaves := fun d => d |}.

Lemma downloadClip_spawn_error_witness :
  fst (downloadClip Posix.platform Posix.no_env 0 missing_tool
         (Demo.clip_options None) Demo.empty_world)
  = Throw (str "spawn yt-dlp ENOENT").
Proof.
  refine (proj1 (downloadClip_spawn_error Posix.platform Posix.no_env 0 missing_tool
                   (Demo.clip_options None) Demo.empty_world [(str "/tmp/aiclips", Dir)]
                   [] 2 (str "spawn yt-dlp ENOENT") [] _ _ _ _ _));
    reflexivity.
Defined.

Lemma trim_all_space (s : jsstring) : forallb is_space s = true -> trim s = [].
Proof.
  intros H. unfold trim, trimStart. now rewrite (drop_while_spaces s H).
Qed.

(** X13.  A non-zero exit is always a failure with a message that is not
    empty: the trimmed output when the tool wrote anything but white
    space, and "yt-dlp exited with code N" when it did not. *)
Theorem downloadClip_nonzero_exit (pf : Platform) (env : ProcessEnv) (now : Z)
    (tool : Tool) (opts : ClipOptions) (w : World) (d1 : Disk)
    (c : Z) (run : Supervision) :
  nle (endSeconds opts) (startSeconds opts) = false ->
  fs_mkdir (disk w) (tmpRoot pf opts) = Return d1 ->
  supervise (timer_delay (timeoutMs opts)) (behaviour tool) spawned = (Return c, run) ->
  c <> 0%Z ->
  exists msg,
    fst (downloadClip pf env now tool opts w) = Throw msg
    /\ msg <> []
    /\ (forallb is_space (s_stdout run ++ s_stderr run) = true ->
        msg = str "yt-dlp exited with code " ++ String_of_Z c)
    /\ (trim (s_stdout run ++ newline ++ s_stderr run) <> [] ->
        msg = trim (s_stdout run ++ newline ++ s_stderr run)).
Proof.
  intros Hr Hm Hs Hc. unfold downloadClip. rewrite Hr, Hm, Hs.
  replace (negb (c =? 0)%Z) with true
    by (symmetry; apply negb_true_iff; now apply Z.eqb_neq).
  cbn [fst]. eexists. split; [reflexivity|].
  destruct (trim (s_stdout run ++ newline ++ s_stderr run)) as [|x combined] eqn:E.
  - cbn [truthy]. split; [discriminate|]. split; [reflexivity|].
    intros H. now destruct H.
  - cbn [truthy]. split; [discriminate|]. split; [|reflexivity].
    intros Hsp. rewrite trim_all_space in E; [discriminate|].
    rewrite forallb_app in Hsp. apply andb_prop in Hsp as [H1 H2].
    rewrite !forallb_app, H1, H2. reflexivity.
Qed.

Definition silent_failing_tool : Tool :=
  {| behaviour := [(900%Z, CloseEvent (Some 2%Z))]; leaves := fun d => d |}.

Lemma downloadClip_nonzero_exit_witness :
  exists msg,
    fst (downloadClip Posix.platform Posix.no_env 0 silent_failing_tool
           (Demo.clip_options None) Demo.empty_world) = Throw msg
    /\ msg <> []
    /\ (forallb is_space ([] ++ []) = true ->
        msg = str "yt-dlp exited with code " ++ String_of_Z 2)
    /\ (trim ([] ++ newline ++ []) <> [] -> msg = trim ([] ++ newline ++ [])).
Proof.
  refine (downloadClip_nonzero_exit Posix.platform Posix.no_env 0 silent_failing_tool
            (Demo.clip_options None) Demo.empty_world [(str "/tmp/aiclips", Dir)] 2
            {| s_stdout := []; s_stderr := []; killedByTimeout := false;
               timer_armed := false; sent := [] |} _ _ _ _);
    try reflexivity. discriminate.
Defined.

(** X25.  When the range is valid, the output directory can be made and
    the tool outlasts the timer's delay, the timer's callback sends
    SIGKILL, the one signal of the run; the process is reported closed
    with exit code -1; stdout is what the tool wrote before the delay and
    stderr is what it wrote before the delay followed by the marker; and
    the call throws the captured output, trimmed, which ends in the
    marker's text. *)
Theorem downloadClip_timed_out (pf : Platform) (env : ProcessEnv) (now : Z)
    (tool : Tool) (opts : ClipOptions) (w : World) (d1 : Disk) :
  nle (endSeconds opts) (startSeconds opts) = false ->
  fs_mkdir (disk w) (tmpRoot pf opts) = Return d1 ->
  outlasts (timer_delay (timeoutMs opts)) (behaviour tool) = true ->
  supervise (timer_delay (timeoutMs opts)) (behaviour tool) spawned
  = (Return (-1)%Z,
     {| s_stdout := fst (written (timer_delay (timeoutMs opts)) (behaviour tool));
        s_stderr := snd (written (timer_delay (timeoutMs opts)) (behaviour tool))
                    ++ timeout_marker;
        killedByTimeout := true; timer_armed := false; sent := [SIGKILL] |})
  /\ fst (downloadClip pf env now tool opts w)
     = Throw (trimStart
                (fst (written (timer_delay (timeoutMs opts)) (behaviour tool))
                 ++ newline
                 ++ snd (written (timer_delay (timeoutMs opts)) (behaviour tool))
                 ++ newline)
              ++ timeout_text).
Proof.
  intros Hrange Hmk Hout.
  pose proof (supervise_outlasted _ _ Hout spawned) as Hrun.
  split; [exact Hrun|].
  unfold downloadClip. rewrite Hrange, Hmk, Hrun.
  unfold expire, on_close, on_timer, spawned.
  cbn -[trim written timeout_marker timeout_text newline contains String_of_Z].
  set (out := fst (written _ _)). set (err := snd (written _ _)).
  assert (E : out ++ newline ++ err ++ timeout_marker
              = (out ++ newline ++ err ++ newline) ++ timeout_text).
  { unfold timeout_marker, newline. now rewrite <- !app_assoc. }
  rewrite E, trim_timeout_text.
  replace (truthy (trimStart (out ++ newline ++ err ++ newline) ++ timeout_text))
    with true by (now destruct (trimStart _)).
  reflexivity.
Qed.

(** X25 at a tool that would run 20 s under a requested budget of 5 s. *)
Lemma downloadClip_timed_out_witness :
  fst (downloadClip Posix.platform Posix.no_env 0 Demo.slow_tool
         (Demo.clip_options (Some (Fin 5000))) Demo.empty_world)
  = Throw (str "partial" ++ newline ++ timeout_text).
Proof.
  rewrite (proj2 (downloadClip_timed_out Posix.platform Posix.no_env 0
                    Demo.slow_tool (Demo.clip_options (Some (Fin 5000)))
                    Demo.empty_world [(str "/tmp/aiclips", Dir)]
                    eq_refl eq_refl eq_refl)).
  vm_compute. reflexivity.
Defined.

(** X26.  The delay the timer is armed with: 15 minutes when no timeout is
    given; for a requested timeout of at most 2147483647 ms, the larger of
    10 s and the timeout, in whole milliseconds; 1 ms for a larger timeout,
    for [Infinity] and for [NaN]. *)
Theorem timer_delay_budget :
  timer_delay None = 900000%Z
  /\ (forall t : Q, t <= 2147483647 ->
        timer_delay (Some (Fin t)) = Z.max 10000 (Qfloor t))
  /\ (forall t : Q, 2147483647 < t -> timer_delay (Some (Fin t)) = 1%Z)
  /\ timer_delay (Some (Infinity false)) = 1%Z
  /\ timer_delay (Some NaN) = 1%Z.
Proof.
  split; [vm_compute; reflexivity|].
  split; [|split; [|split; reflexivity]].
  - intros t Ht. unfold timer_delay. cbn [nmax ngt].
    destruct (Qle_bool 10000 t) eqn:E; cbn [negb setTimeout_delay].
    + apply Qle_bool_iff in E.
      replace (Qle_bool 1 t) with true by (symmetry; apply Qle_bool_iff; lra).
      replace (Qle_bool t (inject_Z TIMEOUT_MAX)) with true
        by (symmetry; apply Qle_bool_iff; exact Ht).
      cbn [andb]. apply Qfloor_resp_le in E.
      change 10000 with (inject_Z 10000) in E. rewrite Qfloor_Z in E. lia.
    + assert (Hlt : t < 10000).
      { apply Qnot_le_lt. intros H. apply Qle_bool_iff in H. congruence. }
      cbn. assert (Hf : (Qfloor t < 10000)%Z); [|lia].
      rewrite Zlt_Qlt. pose proof (Qfloor_le t).
      change (inject_Z 10000) with 10000. lra.
  - intros t Ht. unfold timer_delay. cbn [nmax ngt].
    replace (Qle_bool 10000 t) with true by (symmetry; apply Qle_bool_iff; lra).
    cbn [negb setTimeout_delay].
    replace (Qle_bool t (inject_Z TIMEOUT_MAX)) with false;
      [now rewrite andb_false_r|].
    symmetry. destruct (Qle_bool t (inject_Z TIMEOUT_MAX)) eqn:E; [|reflexivity].
    apply Qle_bool_iff in E. change (inject_Z TIMEOUT_MAX) with 2147483647 in E. lra.
Qed.

(** X26 at a requested timeout of 5 s and at one of an hour and a half. *)
Lemma timer_delay_budget_witness :
  timer_delay (Some (Fin 5000)) = 10000%Z
  /\ timer_delay (Some (Fin (10800001 # 2))) = 5400000%Z.
Proof.
  split.
  - rewrite (proj1 (proj2 timer_delay_budget) 5000); [reflexivity|].
    vm_compute. discriminate.
  - rewrite (proj1 (proj2 timer_delay_budget) (10800001 # 2)); [reflexivity|].
    vm_compute. discriminate.
Defined.

(* ================================================================== *)
(** * Further properties of src/server.ts *)
(* ================================================================== *)

(** X14.  [isYouTubeUrl] accepts a URL exactly when its host is
    youtube.com or youtu.be or ends in [.youtube.com] or [.youtu.be]; a
    host that merely ends in the letters [youtube.com], such as
    [notyoutube.com], is refused. *)
Theorem isYouTubeUrl_hosts (web : Web) (u : jsstring) :
  (isYouTubeUrl web u = true
   <-> exists host, url_hostname web u = Some host /\ allowed_host host)
  /\ (forall (pre : jsstring) (c : ascii),
         c <> "."%char ->
         url_hostname web u = Some (pre ++ c :: str "youtube.com") ->
         isYouTubeUrl web u = false).
Proof.
  split; [apply isYouTubeUrl_allowed|].
  intros pre c Hc Hu.
  destruct (isYouTubeUrl web u) eqn:E; [|reflexivity].
  apply isYouTubeUrl_allowed in E as (host & Eh & Ha).
  rewrite Hu in Eh. injection Eh as Eh. subst host.
  assert (R : rev (pre ++ c :: str "youtube.com")
              = rev (str "youtube.com") ++ c :: rev pre).
  { rewrite rev_app_distr. cbn [rev]. now rewrite <- app_assoc. }
  destruct Ha as [[H|[sub H]]|[H|[sub H]]];
    apply (f_equal (@rev ascii)) in H;
    pose proof (eq_trans (eq_sym R) H) as H2; clear H R;
    rewrite ?rev_app_distr in H2; vm_compute in H2; try discriminate H2.
  inversion H2. congruence.
Qed.

(** X15.  A body the schema rejects is answered from the [catch] block
    with the schema's message: status 401 or 500, never 400, and nothing
    on the machine is touched. *)
Theorem post_clip_schema_rejection (pf : Platform) (web : Web) (env : ProcessEnv)
    (r : RequestEnv) (body : Body) (w : World) (e : jsstring) :
  ClipRequestSchema_parse web body = Throw e ->
  e = zod_message web body
  /\ post_clip pf web env r body w = (failure e, w)
  /\ (status (failure e) = 401%Z \/ status (failure e) = 500%Z).
Proof.
  intros H. split; [|split].
  - unfold ClipRequestSchema_parse in H.
    destruct (z_string (b_url body)); [|now inversion H].
    destruct (z_string (b_start body)); [|now inversion H].
    destruct (z_string (b_end body)); [|now inversion H].
    destruct (z_optional_nonempty (b_cookieHeader body)); [|now inversion H].
    destruct (z_optional_nonempty (b_cookiesTxtBase64 body)); [|now inversion H].
    destruct (z_format (b_format body)); [|now inversion H].
    destruct (zod_url web _); [discriminate|now inversion H].
  - unfold post_clip. now rewrite H.
  - unfold failure. destruct (auth_signature _); [now left|now right].
Qed.

Lemma post_clip_schema_rejection_witness :
  post_clip Posix.platform Posix.web Posix.no_env
    (Demo.request_env Demo.serving_tool Finished)
    Demo.body_other_host_bad_format Demo.empty_world
  = (failure (str "Invalid input"), Demo.empty_world).
Proof.
  refine (proj1 (proj2 (post_clip_schema_rejection Posix.platform Posix.web
            Posix.no_env (Demo.request_env Demo.serving_tool Finished)
            Demo.body_other_host_bad_format Demo.empty_world (str "Invalid input") _))).
  reflexivity.
Defined.

(** X16.  A POST request whose start or end time does not parse is
    answered with the parser's error before anything is staged: the
    machine is untouched even when the body carries a cookie jar. *)
Theorem post_clip_time_error (pf : Platform) (web : Web) (env : ProcessEnv)
    (r : RequestEnv) (body : Body) (w : World) (parsed : ClipRequest) (e : jsstring) :
  ClipRequestSchema_parse web body = Return parsed ->
  isYouTubeUrl web (r_url parsed) = true ->
  parseTimeToSeconds (r_start parsed) = Throw e
  \/ ((exists v, parseTimeToSeconds (r_start parsed) = Return v)
      /\ parseTimeToSeconds (r_end parsed) = Throw e) ->
  post_clip pf web env r body w = (failure e, w).
Proof.
  intros Hp Hy H. unfold post_clip. rewrite Hp, Hy. simpl negb. cbv iota.
  destruct H as [H|[[v Hv] H]].
  - now rewrite H.
  - now rewrite Hv, H.
Qed.

Definition body_bad_end : Body :=
  {| b_url := Demo.field "https://www.youtube.com/watch?v=abc";
     b_start := Demo.field "0"; b_end := Demo.field "soon";
     b_cookieHeader := None; b_cookiesTxtBase64 := Demo.field "Y29va2ll";
     b_format := None |}.

Lemma post_clip_time_error_witness :
  post_clip Posix.platform Posix.web Posix.no_env
    (Demo.request_env Demo.serving_tool Finished) body_bad_end Demo.empty_world
  = (failure (str "Unsupported time format: soon"), Demo.empty_world).
Proof.
  apply (post_clip_time_error Posix.platform Posix.web Posix.no_env
           (Demo.request_env Demo.serving_tool Finished) body_bad_end Demo.empty_world
           {| r_url := str "https://www.youtube.com/watch?v=abc"; r_start := str "0";
              r_end := str "soon"; r_cookieHeader := None;
              r_cookiesTxtBase64 := Some (str "Y29va2ll"); r_format := mp4 |}).
  - reflexivity.
  - vm_compute. reflexivity.
  - right. split; [eexists|]; vm_compute; reflexivity.
Defined.

(** ** Cleanup *)

Lemma unlink_quietly_noop (d : Disk) (p : jsstring) :
  lookup d p <> Some File -> unlink_quietly p d = d.
Proof.
  intros H. unfold unlink_quietly, fs_unlink.
  destruct (lookup d p) as [[|]|]; try reflexivity. congruence.
Qed.

Lemma cleanup_gone (p : jsstring) (c : option jsstring) (d : Disk) :
  lookup (cleanup p c d) p <> Some File
  /\ (forall q, truthy_value c = Some q -> lookup (cleanup p c d) q <> Some File).
Proof.
  unfold cleanup. destruct (truthy_value c) as [q|].
  - split.
    + apply unlink_quietly_keeps_gone, unlink_quietly_gone.
    + intros q' H. inversion H; subst. apply unlink_quietly_gone.
  - split; [apply unlink_quietly_gone|discriminate].
Qed.

Lemma cleanup_idempotent (p : jsstring) (c : option jsstring) (d : Disk) :
  cleanup p c (cleanup p c d) = cleanup p c d.
Proof.
  destruct (cleanup_gone p c d) as [Hp Hq].
  unfold cleanup at 1. rewrite (unlink_quietly_noop _ p Hp).
  destruct (truthy_value c) as [q|] eqn:E; [|reflexivity].
  apply unlink_quietly_noop. now apply Hq.
Qed.

Lemma cleanup_events (p : jsstring) (c : option jsstring) (d : Disk) (e : Ending) :
  on_response_events (cleanup p c) (events e) d = cleanup p c d.
Proof. destruct e; simpl; auto using cleanup_idempotent. Qed.

(** X17.  The cleanup registered for [close], [error] and [finish] amounts
    to one cleanup however the response ends: running it again changes
    nothing.  It removes no entry other than the output file and the
    staged cookie file. *)
Theorem cleanup_once (p : jsstring) (c : option jsstring) (d : Disk) (e : Ending) :
  on_response_events (cleanup p c) (events e) d = cleanup p c d
  /\ (forall x, x <> p -> truthy_value c <> Some x ->
        lookup (cleanup p c d) x = lookup d x).
Proof.
  split.
  - apply cleanup_events.
  - intros x Hp Hc. unfold cleanup.
    assert (L : forall q d', x <> q -> lookup (unlink_quietly q d') x = lookup d' x).
    { intros q d' Hq. rewrite unlink_quietly_lookup.
      destruct (lookup d' q) as [[|]|]; try reflexivity.
      destruct (streq x q) eqn:S; [|reflexivity].
      apply streq_eq in S. contradiction. }
    destruct (truthy_value c) as [q|].
    + rewrite L, L; auto. intros ->. now apply Hc.
    + now apply L.
Qed.

Lemma cleanup_once_witness :
  lookup (cleanup (str "/tmp/aiclips/a.mp4") None
            [(str "/tmp/aiclips/a.mp4", File); (str "/tmp/aiclips/b.mp4", File)])
         (str "/tmp/aiclips/b.mp4")
  = Some File.
Proof.
  rewrite (proj2 (cleanup_once (str "/tmp/aiclips/a.mp4") None
                    [(str "/tmp/aiclips/a.mp4", File); (str "/tmp/aiclips/b.mp4", File)]
                    Finished));
    [reflexivity|vm_compute; discriminate|discriminate].
Defined.

(** ** A streamed response *)

(** The file that [writeTempCookies] writes for a request. *)
Definition cookie_path (pf : Platform) (r : RequestEnv) : jsstring :=
  path_join pf (path_join pf (tmpdir pf) (str "aiclips-cookies"))
    (str "cookies-" ++ String_of_Z (now r) ++ str "-" ++ nanoid6 r ++ str ".txt").

Lemma failure_not_200 (e : jsstring) : status (failure e) <> 200%Z.
Proof. unfold failure. destruct (auth_signature _); discriminate. Qed.

Lemma writeTempCookies_path (pf : Platform) (r : RequestEnv) (w w1 : World)
    (file : jsstring) :
  writeTempCookies pf (now r) (nanoid6 r) w = (Return file, w1) ->
  file = cookie_path pf r /\ spawns w1 = spawns w.
Proof.
  unfold writeTempCookies, cookie_path.
  destruct (fs_mkdir _ _) as [d1|e]; [|discriminate].
  destruct (fs_writeFile _ _) as [d2|e]; [|discriminate].
  intros H; inversion H; subst. now split.
Qed.

Lemma schema_cookie_truthy (web : Web) (body : Body) (parsed : ClipRequest) :
  ClipRequestSchema_parse web body = Return parsed ->
  truthy_value (r_cookiesTxtBase64 parsed) = r_cookiesTxtBase64 parsed.
Proof.
  unfold ClipRequestSchema_parse.
  destruct (z_string (b_url body)); try discriminate.
  destruct (z_string (b_start body)); try discriminate.
  destruct (z_string (b_end body)); try discriminate.
  destruct (z_optional_nonempty (b_cookieHeader body)); try discriminate.
  destruct (z_optional_nonempty (b_cookiesTxtBase64 body)) as [c|] eqn:Zc;
    try discriminate.
  destruct (z_format (b_format body)); try discriminate.
  destruct (zod_url web _); try discriminate.
  intros H; inversion H; subst. simpl.
  unfold z_optional_nonempty in Zc.
  destruct (b_cookiesTxtBase64 body) as [[s|]|]; try discriminate.
  - destruct (truthy s) eqn:T; [|discriminate]. inversion Zc; subst. simpl. now rewrite T.
  - now inversion Zc.
Qed.

(** X18.  When the POST handler starts streaming (status 200), then once
    the response has ended, however it ended, no file is left at the
    path that was streamed, nor at the path of the cookie file staged for
    the request. *)
Theorem post_clip_success_cleans (pf : Platform) (web : Web) (env : ProcessEnv)
    (r : RequestEnv) (body : Body) (w : World) (resp : Response) (w' : World) :
  post_clip pf web env r body w = (resp, w') ->
  status resp = 200%Z ->
  (exists ct fn p, payload resp = FileStream ct fn p /\ lookup (disk w') p <> Some File)
  /\ (forall parsed c,
         ClipRequestSchema_parse web body = Return parsed ->
         r_cookiesTxtBase64 parsed = Some c ->
         cookie_path pf r <> [] ->
         lookup (disk w') (cookie_path pf r) <> Some File).
Proof.
  intros H Hs. unfold post_clip in H.
  destruct (ClipRequestSchema_parse web body) as [parsed|e] eqn:Hp;
    [|inversion H; subst; now destruct (failure_not_200 e)].
  destruct (negb (isYouTubeUrl web (r_url parsed)));
    [inversion H; subst; discriminate Hs|].
  destruct (parseTimeToSeconds (r_start parsed)) as [s0|e];
    [|inversion H; subst; now destruct (failure_not_200 e)].
  destruct (parseTimeToSeconds (r_end parsed)) as [e0|e];
    [|inversion H; subst; now destruct (failure_not_200 e)].
  pose proof (schema_cookie_truthy web body parsed Hp) as Tc.
  cbv zeta in H.
  assert (G : forall cpath w1,
            (forall c, r_cookiesTxtBase64 parsed = Some c -> cpath = Some (cookie_path pf r)) ->
            match downloadClip pf env (now r) (tool r)
                    {| url := r_url parsed; startSeconds := s0; endSeconds := e0;
                       outputDirectory := Some (path_join pf (tmpdir pf) (str "aiclips"));
                       outputBaseName := Some (str "aiclips-" ++ nanoid8 r);
                       cookieHeader := r_cookieHeader parsed;
                       cookiesTxtPath := cpath;
                       format := Some (r_format parsed);
                       userAgent := None; timeoutMs := None |} w1 with
            | (Throw e, w2) => (failure e, w2)
            | (Return res, w2) =>
                match fs_open (disk w2) (outputPath res) with
                | Throw e => (failure e, w2)
                | Return _ =>
                    ({| status := 200;
                        payload :=
                          FileStream
                            match r_format parsed with
                            | mp4 => str "video/mp4"
                            | webm => str "video/webm"
                            end (path_basename pf (outputPath res)) (outputPath res) |},
                     with_disk
                       (on_response_events (cleanup (outputPath res) cpath)
                          (events (ending r)) (disk w2)) w2)
                end
            end = (resp, w') ->
            (exists ct fn p, payload resp = FileStream ct fn p
                             /\ lookup (disk w') p <> Some File)
            /\ (forall parsed' c,
                   Return parsed = Return parsed' ->
                   r_cookiesTxtBase64 parsed' = Some c ->
                   cookie_path pf r <> [] ->
                   lookup (disk w') (cookie_path pf r) <> Some File)).
  { intros cpath w1 Hc HH.
    destruct (downloadClip _ _ _ _ _ _) as [[res|e] w2];
      [|inversion HH; subst; now destruct (failure_not_200 e)].
    destruct (fs_open _ _) as [u|e];
      [|inversion HH; subst; now destruct (failure_not_200 e)].
    inversion HH; subst. cbn [payload disk with_disk]. rewrite cleanup_events.
    destruct (cleanup_gone (outputPath res) cpath (disk w2)) as [G1 G2]. split.
    - eauto.
    - intros parsed' c E Hc' Hne. inversion E; subst parsed'.
      apply G2. rewrite (Hc c Hc'). simpl.
      destruct (cookie_path pf r); [contradiction|reflexivity]. }
  rewrite Tc in H.
  destruct (r_cookiesTxtBase64 parsed) as [c|] eqn:Ec.
  - destruct (writeTempCookies pf (now r) (nanoid6 r) w) as [[file|e] w1] eqn:Wc;
      [|inversion H; subst; now destruct (failure_not_200 e)].
    destruct (writeTempCookies_path pf r w w1 file Wc) as [-> _].
    apply (G _ _ (fun _ _ => eq_refl) H).
  - apply (G None w); [discriminate|exact H].
Qed.

Lemma post_clip_success_cleans_witness :
  exists ct fn p,
    payload (fst (post_clip Posix.platform Posix.web Posix.no_env
                    (Demo.request_env Demo.serving_tool Disconnected)
                    Demo.body_with_cookies Demo.empty_world)) = FileStream ct fn p
    /\ lookup (disk (snd (post_clip Posix.platform Posix.web Posix.no_env
                            (Demo.request_env Demo.serving_tool Disconnected)
                            Demo.body_with_cookies Demo.empty_world))) p <> Some File.
Proof.
  refine (proj1 (post_clip_success_cleans Posix.platform Posix.web Posix.no_env
            (Demo.request_env Demo.serving_tool Disconnected)
            Demo.body_with_cookies Demo.empty_world _ _ (surjective_pairing _) _)).
  vm_compute. reflexivity.
Defined.

(** X19.  When the GET handler starts streaming (status 200), no file is
    left at the streamed path once the response has ended, however it
    ended. *)
Theorem get_clip_success_cleans (pf : Platform) (web : Web) (env : ProcessEnv)
    (r : RequestEnv) (query : Query) (w : World) (resp : Response) (w' : World) :
  get_clip pf web env r query w = (resp, w') ->
  status resp = 200%Z ->
  exists fn p,
    payload resp = FileStream (str "video/mp4") fn p
    /\ lookup (disk w') p <> Some File.
Proof.
  intros H Hs. unfold get_clip in H.
  destruct (ClipRequestSchema_parse web _) as [parsed|e];
    [|inversion H; subst; now destruct (failure_not_200 e)].
  destruct (negb (isYouTubeUrl web (r_url parsed)));
    [inversion H; subst; discriminate Hs|].
  destruct (parseTimeToSeconds (r_start parsed)) as [s0|e];
    [|inversion H; subst; now destruct (failure_not_200 e)].
  destruct (parseTimeToSeconds (r_end parsed)) as [e0|e];
    [|inversion H; subst; now destruct (failure_not_200 e)].
  destruct (downloadClip _ _ _ _ _ _) as [[res|e] w2];
    [|inversion H; subst; now destruct (failure_not_200 e)].
  destruct (fs_open _ _) as [u|e];
    [|inversion H; subst; now destruct (failure_not_200 e)].
  inversion H; subst. cbn [payload disk with_disk].
  exists (path_basename pf (outputPath res)), (outputPath res).
  split; [reflexivity|].
  destruct (ending r); cbn [events on_response_events fold_left];
    apply unlink_quietly_gone.
Qed.

Definition query_youtube : Query :=
  {| q_url := Some (str "https://youtu.be/abc"); q_start := Some (str "1:00");
     q_end := Some (str "1m30s"); q_cookieHeader := None |}.

Lemma get_clip_success_cleans_witness :
  exists fn p,
    payload (fst (get_clip Posix.platform Posix.web Posix.no_env
                    (Demo.request_env Demo.serving_tool Errored)
                    query_youtube Demo.empty_world))
    = FileStream (str "video/mp4") fn p
    /\ lookup (disk (snd (get_clip Posix.platform Posix.web Posix.no_env
                            (Demo.request_env Demo.serving_tool Errored)
                            query_youtube Demo.empty_world))) p <> Some File.
Proof.
  refine (get_clip_success_cleans Posix.platform Posix.web Posix.no_env
            (Demo.request_env Demo.serving_tool Errored)
            query_youtube Demo.empty_world _ _ (surjective_pairing _) _).
  vm_compute. reflexivity.
Defined.

(** ** Classification of failures *)

Definition signatures : list jsstring :=
  [ str "Use --cookies-from-browser";
    str "pass cookies to yt-dlp";
    str "Sign in to confirm you're not a bot";
    str "Sign in to confirm youre not a bot" ].

Lemma contains_ci_app (sig text a b : jsstring) :
  map lower text = map lower sig -> contains_ci sig (a ++ text ++ b) = true.
Proof.
  intros E. unfold contains_ci. rewrite !map_app, E. apply contains_app.
Qed.

(** X20.  An error whose message holds one of the tool's "authentication
    required" phrases, in any letter case and anywhere in the message, is
    answered 401 with the guidance payload; every other failure is
    answered 500; no failure is answered otherwise. *)
Theorem failure_classification :
  (forall sig text a b,
      In sig signatures -> map lower text = map lower sig ->
      failure (a ++ text ++ b) = {| status := 401; payload := AuthJson |})
  /\ (forall e, status (failure e) = 401%Z /\ payload (failure e) = AuthJson
                \/ status (failure e) = 500%Z
                   /\ payload (failure e) = ErrorJson (if truthy e then e else str "Error")).
Proof.
  split.
  - intros sig text a b Hin E. unfold failure.
    assert (Hne : truthy (a ++ text ++ b) = true).
    { assert (text <> []).
      { intros ->. simpl in E. destruct Hin as [<-|[<-|[<-|[<-|[]]]]]; discriminate E. }
      destruct a; [destruct text; [congruence|reflexivity]|reflexivity]. }
    rewrite Hne. pose proof (contains_ci_app sig text a b E) as C.
    unfold auth_signature.
    destruct Hin as [<-|[<-|[<-|[<-|[]]]]]; rewrite C, ?orb_true_r; reflexivity.
  - intros e. unfold failure. destruct (auth_signature _); [left|right]; now split.
Qed.

Lemma failure_classification_witness :
  failure (str "ERROR: [youtube] abc: SIGN IN to confirm you're not a bot. Try again")
  = {| status := 401; payload := AuthJson |}.
Proof.
  apply (proj1 failure_classification (str "Sign in to confirm you're not a bot")
           (str "SIGN IN to confirm you're not a bot")
           (str "ERROR: [youtube] abc: ") (str ". Try again")).
  - right. right. left. reflexivity.
  - reflexivity.
Defined.

(** ** Staging the cookie jar *)

Lemma lookup_app_one (d : Disk) (p : jsstring) (k : Kind) (q : jsstring) :
  lookup (d ++ [(p, k)]) q
  = match lookup d q with
    | Some x => Some x
    | None => if streq p q then Some k else None
    end.
Proof.
  unfold lookup. induction d as [|[n kn] d IH]; simpl.
  - now destruct (streq p q).
  - destruct (streq n q); [reflexivity|exact IH].
Qed.

(** X21.  When [writeTempCookies] succeeds, the path it returns is a file
    on disk, in the directory [aiclips-cookies] under the temporary
    directory, which exists; every entry that was on disk before is still
    there; no process is spawned. *)
Theorem writeTempCookies_stages (pf : Platform) (now : Z) (id6 : jsstring)
    (w w' : World) (file : jsstring) :
  writeTempCookies pf now id6 w = (Return file, w') ->
  file = path_join pf (path_join pf (tmpdir pf) (str "aiclips-cookies"))
           (str "cookies-" ++ String_of_Z now ++ str "-" ++ id6 ++ str ".txt")
  /\ lookup (disk w') file = Some File
  /\ lookup (disk w') (path_join pf (tmpdir pf) (str "aiclips-cookies")) = Some Dir
  /\ (forall p k, lookup (disk w) p = Some k -> lookup (disk w') p = Some k)
  /\ spawns w' = spawns w.
Proof.
  unfold writeTempCookies. set (dir := path_join pf (tmpdir pf) (str "aiclips-cookies")).
  set (f := path_join pf dir _).
  unfold fs_mkdir, fs_writeFile.
  destruct (lookup (disk w) dir) as [[|]|] eqn:Ld; try discriminate.
  - (* the directory is there *)
    destruct (lookup (disk w) f) as [[|]|] eqn:Lf; try discriminate;
      intros H; inversion H; subst; cbn [disk with_disk spawns].
    + repeat split; auto.
    + repeat split.
      * rewrite lookup_app_one, Lf, streq_refl. reflexivity.
      * rewrite lookup_app_one, Ld. reflexivity.
      * intros p k Hp. rewrite lookup_app_one, Hp. reflexivity.
  - (* the directory has to be made *)
    destruct (lookup (disk w ++ [(dir, Dir)]) f) as [[|]|] eqn:Lf; try discriminate;
      intros H; inversion H; subst; cbn [disk with_disk spawns].
    + repeat split; auto.
      * rewrite lookup_app_one, Ld, streq_refl. reflexivity.
      * intros p k Hp. rewrite lookup_app_one, Hp. reflexivity.
    + repeat split.
      * rewrite lookup_app_one, Lf, streq_refl. reflexivity.
      * rewrite !lookup_app_one, Ld, streq_refl. reflexivity.
      * intros p k Hp. rewrite !lookup_app_one, Hp. reflexivity.
Qed.

Lemma writeTempCookies_stages_witness :
  lookup (disk (snd (writeTempCookies Posix.platform 1700000000000 (str "abc123")
                       Demo.empty_world)))
         Demo.cookie_file = Some File.
Proof.
  refine (proj1 (proj2 (writeTempCookies_stages Posix.platform 1700000000000
            (str "abc123") Demo.empty_world _ Demo.cookie_file _))).
  vm_compute. reflexivity.
Defined.

(** ** Processes per request *)

Lemma downloadClip_spawn_count (pf : Platform) (env : ProcessEnv) (now : Z)
    (tool : Tool) (opts : ClipOptions) (w : World) :
  spawns (snd (downloadClip pf env now tool opts w)) = spawns w
  \/ exists args, spawns (snd (downloadClip pf env now tool opts w)) = spawns w ++ [args].
Proof.
  unfold downloadClip.
  destruct (nle _ _); [now left|].
  destruct (fs_mkdir _ _) as [d1|e]; [|now left].
  right. eexists.
  destruct (supervise _ _ _) as [[c|e] run]; [|reflexivity].
  destruct (negb (c =? 0)%Z); [reflexivity|].
  destruct (findProducedFile _ _ _ _) as [[p|]|e]; reflexivity.
Qed.

(** X22.  One request spawns at most one process: after either handler
    the list of spawned processes is the one before, or the one before
    with a single process added. *)
Theorem one_process_per_request (pf : Platform) (web : Web) (env : ProcessEnv)
    (r : RequestEnv) (w : World) :
  (forall body,
      spawns (snd (post_clip pf web env r body w)) = spawns w
      \/ exists args, spawns (snd (post_clip pf web env r body w)) = spawns w ++ [args])
  /\ (forall query,
         spawns (snd (get_clip pf web env r query w)) = spawns w
         \/ exists args, spawns (snd (get_clip pf web env r query w)) = spawns w ++ [args]).
Proof.
  assert (D : forall opts w1 (k : ClipResult -> World -> Response * World),
            spawns w1 = spawns w ->
            (forall res w2, spawns (snd (k res w2)) = spawns w2) ->
            let out := match downloadClip pf env (now r) (tool r) opts w1 with
                       | (Throw e, w2) => (failure e, w2)
                       | (Return res, w2) => k res w2
                       end in
            spawns (snd out) = spawns w
            \/ exists args, spawns (snd out) = spawns w ++ [args]).
  { intros opts w1 k Hw Hk.
    pose proof (downloadClip_spawn_count pf env (now r) (tool r) opts w1) as C.
    destruct (downloadClip pf env (now r) (tool r) opts w1) as [[res|e] w2];
      cbn [snd] in *; rewrite ?Hk, <- Hw; exact C. }
  split.
  - intros body. unfold post_clip.
    destruct (ClipRequestSchema_parse web body) as [parsed|e]; [|now left].
    destruct (negb (isYouTubeUrl web (r_url parsed))); [now left|].
    destruct (parseTimeToSeconds (r_start parsed)) as [s0|e]; [|now left].
    destruct (parseTimeToSeconds (r_end parsed)) as [e0|e]; [|now left].
    cbv zeta.
    destruct (truthy_value (r_cookiesTxtBase64 parsed)).
    + destruct (writeTempCookies pf (now r) (nanoid6 r) w) as [[file|e] w1] eqn:Wc.
      * destruct (writeTempCookies_path pf r w w1 file Wc) as [_ Hw].
        apply (D _ w1 (fun res w2 =>
                 match fs_open (disk w2) (outputPath res) with
                 | Throw e => (failure e, w2)
                 | Return _ => _
                 end) Hw).
        intros res w2. now destruct (fs_open _ _).
      * left. cbn [snd]. unfold writeTempCookies in Wc.
        destruct (fs_mkdir _ _); [|now inversion Wc].
        destruct (fs_writeFile _ _); now inversion Wc.
    + apply (D _ w (fun res w2 =>
               match fs_open (disk w2) (outputPath res) with
               | Throw e => (failure e, w2)
               | Return _ => _
               end) eq_refl).
      intros res w2. now destruct (fs_open _ _).
  - intros query. unfold get_clip.
    destruct (ClipRequestSchema_parse web _) as [parsed|e]; [|now left].
    destruct (negb (isYouTubeUrl web (r_url parsed))); [now left|].
    destruct (parseTimeToSeconds (r_start parsed)) as [s0|e]; [|now left].
    destruct (parseTimeToSeconds (r_end parsed)) as [e0|e]; [|now left].
    apply (D _ w (fun res w2 =>
             match fs_open (disk w2) (outputPath res) with
             | Throw e => (failure e, w2)
             | Return _ => _
             end) eq_refl).
    intros res w2. now destruct (fs_open _ _).
Qed.

Lemma isYouTubeUrl_hosts_witness :
  isYouTubeUrl Posix.web (str "https://notyoutube.com/watch") = false.
Proof.
  apply (proj2 (isYouTubeUrl_hosts Posix.web (str "https://notyoutube.com/watch"))
           (str "no") "t"%char).
  - discriminate.
  - reflexivity.
Defined.



